(** * D2DCoach: the sales-coach server (server.js)

    A shallow embedding of the request handlers of [server.js] and of the
    properties its specification states about them.

    The file follows the layout of the source: the knowledge-base cache
    ([getKnowledgeBase]), the prompt builder ([buildSystemPrompt]), the chat,
    scorecard and analyze handlers over the process-wide
    [conversationHistory], the knowledge-file endpoints, the per-rep
    aggregation of [GET /manager/reps], and the session archive with the
    manager's PIN check ([Sessions]).

    Conventions.
    - A JavaScript string is the list of its UTF-16 code units ([jsstr]).
    - A JavaScript number is a binary64 float ([float], the kernel's
      primitive floats, whose [+], [-] and [/] are the IEEE operations the
      engine performs); clock readings, row ids and array lengths are
      integers.
    - Calls that leave the process (the model provider, the SQL store, the
      clock) are read from a [World] the handler is run in; a rejected
      promise or a thrown exception is a [Throw] carrying [err.message].
      The [sessions] table is not modelled: what its statements answer is
      read from a [Sessions.Archive].
    - A text parameter reaches the store in UTF-8 ([utf8_text],
      [has_nul]); how the store reads the text bound to an integer column
      is a component of the store ([int4in]).
    - A handler runs from its first statement to its response as one
      step; [reachable] and [serve] are about requests served one after
      the other.
    - [JSON.parse] belongs to the platform: the extraction pipeline takes it
      as a parameter, and [JSON_parse_ref] is a reference parser for the
      closed examples. *)

From Stdlib Require Import Ascii String.
From Stdlib Require Import ZArith NArith List Lia Bool.
From Stdlib Require Import Floats Uint63.
From Stdlib Require Import Sorting.Sorted Sorting.Permutation.
From Stdlib Require DecimalPos DecimalFacts.
Import ListNotations.

Set Implicit Arguments.

(* ================================================================== *)
(** * JavaScript strings *)
(* ================================================================== *)

(** A string value: its UTF-16 code units, each below 65536. *)
Definition jsstr := list N.

(** An ASCII literal of the source as a [jsstr]. *)
Definition str (s : string) : jsstr :=
  map N_of_ascii (list_ascii_of_string s).

Definition LF : N := 10.
Definition BACKTICK : N := 96.
Definition LBRACE : N := 123.
Definition RBRACE : N := 125.
Definition QUOTE : N := 34.
Definition EM_DASH : N := 8212.

(** A quoted ASCII word, and the lines of a multi-line literal. *)
Definition q (s : string) : jsstr := [QUOTE] ++ str s ++ [QUOTE].

(** WhiteSpace and LineTerminator of ECMA-262: the code units that
    [String.prototype.trim] strips and that [\s] matches. *)
Definition is_space (c : N) : bool :=
  (N.leb 9 c && N.leb c 13)             (* TAB LF VT FF CR *)
  || N.eqb c 32                         (* SPACE *)
  || N.eqb c 160                        (* NO-BREAK SPACE *)
  || N.eqb c 5760                       (* OGHAM SPACE MARK *)
  || (N.leb 8192 c && N.leb c 8202)     (* EN QUAD .. HAIR SPACE *)
  || N.eqb c 8232 || N.eqb c 8233       (* LINE / PARAGRAPH SEPARATOR *)
  || N.eqb c 8239                       (* NARROW NO-BREAK SPACE *)
  || N.eqb c 8287                       (* MEDIUM MATHEMATICAL SPACE *)
  || N.eqb c 12288                      (* IDEOGRAPHIC SPACE *)
  || N.eqb c 65279                      (* ZERO WIDTH NO-BREAK SPACE *)
  .

Fixpoint drop_while (P : N -> bool) (s : jsstr) : jsstr :=
  match s with
  | [] => []
  | c :: s' => if P c then drop_while P s' else s
  end.

Definition trimStart (s : jsstr) : jsstr := drop_while is_space s.
Definition trimEnd (s : jsstr) : jsstr := rev (drop_while is_space (rev s)).

(** [String.prototype.trim]. *)
Definition trim (s : jsstr) : jsstr := trimEnd (trimStart s).

(** The relative index of [Array.prototype.slice] and
    [String.prototype.slice]: a negative index counts from the end, and
    the result is clamped to [0 .. len]. *)
Definition relative_index (len : nat) (i : Z) : nat :=
  if (i <? 0)%Z then Z.to_nat (Z.max (Z.of_nat len + i) 0)
  else Nat.min (Z.to_nat i) len.

(** [x.slice(start, end)] on a string or an array; [end] absent is the
    length. *)
Definition slice {A} (l : list A) (start : Z) (end_ : option Z) : list A :=
  let len := length l in
  let from := relative_index len start in
  let to := match end_ with
            | Some e => relative_index len e
            | None => len
            end in
  firstn (to - from) (skipn from l).

(** [parts.join(sep)] on an array of strings. *)
Fixpoint join (sep : jsstr) (parts : list jsstr) : jsstr :=
  match parts with
  | [] => []
  | [p] => p
  | p :: rest => p ++ sep ++ join sep rest
  end.

Definition lines (ls : list jsstr) : jsstr := join [LF] ls.

(** [s] occurs in [t] as a contiguous substring. *)
Definition occurs (s t : jsstr) : Prop :=
  exists pre post, t = pre ++ s ++ post.

Fixpoint starts_with (p s : jsstr) : bool :=
  match p, s with
  | [], _ => true
  | a :: p', b :: s' => N.eqb a b && starts_with p' s'
  | _ :: _, [] => false
  end.

(** [t.includes(s)]. *)
Fixpoint includes (s t : jsstr) : bool :=
  starts_with s t ||
  match t with
  | [] => false
  | _ :: t' => includes s t'
  end.

(* ================================================================== *)
(** * Regular expressions

    The backtracking matchers of ECMA-262 (22.2.2), in continuation
    passing style: a matcher receives the rest of the input, the capture
    found so far and a continuation for what follows it in the pattern.
    Only the constructs of the two patterns of the source are needed:
    literals, character classes, the greedy [?] and [*], the lazy [+?] and
    one capture group. *)
(* ================================================================== *)

Module RegExp.

(** Where a match ended (the input that is left) and capture 1. *)
Definition MatchResult := (jsstr * option jsstr)%type.
Definition Continuation := jsstr -> option jsstr -> option MatchResult.
Definition Matcher := jsstr -> option jsstr -> Continuation -> option MatchResult.

(** One code unit of a class. *)
Definition char (P : N -> bool) : Matcher :=
  fun s cap k =>
    match s with
    | c :: s' => if P c then k s' cap else None
    | [] => None
    end.

(** [m1 m2]. *)
Definition seq (m1 m2 : Matcher) : Matcher :=
  fun s cap k => m1 s cap (fun s' cap' => m2 s' cap' k).

(** A literal run of code units. *)
Fixpoint lit (l : jsstr) : Matcher :=
  match l with
  | [] => fun s cap k => k s cap
  | a :: l' => seq (char (N.eqb a)) (lit l')
  end.

(** [(?:m)?], greedy: with [m] first, then without. *)
Definition opt (m : Matcher) : Matcher :=
  fun s cap k =>
    match m s cap k with
    | Some r => Some r
    | None => k s cap
    end.

(** [C*] on a class [C], greedy: one more code unit first, the
    continuation when that fails. *)
Fixpoint star (P : N -> bool) (s : jsstr) (cap : option jsstr)
    (k : Continuation) : option MatchResult :=
  match s with
  | c :: s' =>
      if P c then
        match star P s' cap k with
        | Some r => Some r
        | None => k s cap
        end
      else k s cap
  | [] => k s cap
  end.

(** [C+?] on a class [C], lazy: one code unit, then the continuation
    first and one more code unit when that fails. *)
Fixpoint plus_lazy (P : N -> bool) (s : jsstr) (cap : option jsstr)
    (k : Continuation) : option MatchResult :=
  match s with
  | c :: s' =>
      if P c then
        match k s' cap with
        | Some r => Some r
        | None => plus_lazy P s' cap k
        end
      else None
  | [] => None
  end.

(** [(m)]: capture 1 is what [m] consumed. *)
Definition group (m : Matcher) : Matcher :=
  fun s cap k =>
    m s cap (fun s' _ => k s' (Some (firstn (length s - length s') s))).

(** [\s] and [[\s\S]]. *)
Definition space : N -> bool := is_space.
Definition any : N -> bool := fun _ => true.

(** The continuation at the end of a pattern. *)
Definition accept : Continuation := fun e cap => Some (e, cap).

(** The result of [s.match(re)] for a pattern without the [g] flag:
    element 0 (the matched text) and element 1 (capture 1) of the match
    at the leftmost index where the pattern matches, [None] for [null]. *)
Fixpoint exec (m : Matcher) (s : jsstr) : option (jsstr * option jsstr) :=
  match m s None accept with
  | Some (e, cap) => Some (firstn (length s - length e) s, cap)
  | None =>
      match s with
      | [] => None
      | _ :: s' => exec m s'
      end
  end.

End RegExp.

Definition FENCE : jsstr := [BACKTICK; BACKTICK; BACKTICK].

(** /```(?:json)?\s*([\s\S]+?)\s*```/ *)
Definition fence_re : RegExp.Matcher :=
  RegExp.seq (RegExp.lit FENCE)
    (RegExp.seq (RegExp.opt (RegExp.lit (str "json")))
       (RegExp.seq (RegExp.star RegExp.space)
          (RegExp.seq (RegExp.group (RegExp.plus_lazy RegExp.any))
             (RegExp.seq (RegExp.star RegExp.space)
                (RegExp.lit FENCE))))).

(** /\{[\s\S]*\}/ *)
Definition braces_re : RegExp.Matcher :=
  RegExp.seq (RegExp.lit [LBRACE])
    (RegExp.seq (RegExp.star RegExp.any) (RegExp.lit [RBRACE])).

(* ================================================================== *)
(** * Values, exceptions, JSON *)
(* ================================================================== *)

(** The outcome of evaluating an expression or awaiting a promise: a
    value, or an exception of which the handlers read [err.message]. *)
Inductive Completion (A : Type) : Type :=
| Normal (a : A)
| Throw (message : jsstr).

Arguments Normal {A} a.
Arguments Throw {A} message.

(** The values JSON text denotes; an object keeps its members in source
    order. *)
#[local] Unset Elimination Schemes.
Inductive json : Type :=
| JNull
| JBool (b : bool)
| JNum (x : float)
| JStr (s : jsstr)
| JArr (items : list json)
| JObj (members : list (jsstr * json)).
#[local] Set Elimination Schemes.

(** The integer [z] as a number value (exact below 2^53). *)
Definition Z2F (z : Z) : float :=
  if (z <? 0)%Z then PrimFloat.opp (PrimFloat.of_uint63 (Uint63.of_Z (- z)))
  else PrimFloat.of_uint63 (Uint63.of_Z z).

(** ToBoolean on a number: [0], [-0] and [NaN] are falsy. *)
Definition truthy_number (x : float) : bool :=
  negb (PrimFloat.eqb x 0 || negb (PrimFloat.eqb x x)).

(** ToBoolean on a property read from a JSON body; [None] is [undefined]. *)
Definition truthy (v : option json) : bool :=
  match v with
  | None | Some JNull => false
  | Some (JBool b) => b
  | Some (JNum x) => truthy_number x
  | Some (JStr s) => match s with [] => false | _ => true end
  | Some (JArr _) | Some (JObj _) => true
  end.

(** The platform's [JSON.parse]: a value, or a SyntaxError. *)
Definition Parser := jsstr -> Completion json.

(** ** A reference parser

    The JSON grammar of ECMA-404 with integer number literals below 2^53;
    a literal with a fraction or an exponent, or a larger one, is outside
    the fragment and refused. It stands for the platform in the closed
    examples. *)
Module JsonRef.

Definition is_json_ws (c : N) : bool :=
  N.eqb c 32 || N.eqb c 9 || N.eqb c 10 || N.eqb c 13.

Definition is_digit (c : N) : bool := N.leb 48 c && N.leb c 57.

Definition hex_value (c : N) : option N :=
  if N.leb 48 c && N.leb c 57 then Some (c - 48)%N
  else if N.leb 97 c && N.leb c 102 then Some (c - 87)%N
  else if N.leb 65 c && N.leb c 70 then Some (c - 55)%N
  else None.

(** The characters of a string literal after its opening quote, up to the
    closing one. *)
Fixpoint string_body (s : jsstr) : option (jsstr * jsstr) :=
  match s with
  | [] => None
  | c :: r =>
      if N.eqb c 34 then Some ([], r)
      else if N.ltb c 32 then None
      else if N.eqb c 92 then
        match r with
        | [] => None
        | e :: r1 =>
            let simple (d : N) :=
              match string_body r1 with
              | Some (t, rest) => Some (d :: t, rest)
              | None => None
              end in
            if N.eqb e 34 then simple 34%N
            else if N.eqb e 92 then simple 92%N
            else if N.eqb e 47 then simple 47%N
            else if N.eqb e 98 then simple 8%N
            else if N.eqb e 102 then simple 12%N
            else if N.eqb e 110 then simple 10%N
            else if N.eqb e 114 then simple 13%N
            else if N.eqb e 116 then simple 9%N
            else if N.eqb e 117 then
              match r1 with
              | h1 :: h2 :: h3 :: h4 :: r2 =>
                  match hex_value h1, hex_value h2, hex_value h3, hex_value h4 with
                  | Some a, Some b, Some c', Some d =>
                      match string_body r2 with
                      | Some (t, rest) =>
                          Some ((((a * 16 + b) * 16 + c') * 16 + d)%N :: t, rest)
                      | None => None
                      end
                  | _, _, _, _ => None
                  end
              | _ => None
              end
            else None
        end
      else
        match string_body r with
        | Some (t, rest) => Some (c :: t, rest)
        | None => None
        end
  end.

(** A run of digits: its value, how many there were, and the rest. *)
Fixpoint digits (s : jsstr) (acc : Z) (n : nat) : Z * nat * jsstr :=
  match s with
  | c :: r => if is_digit c then digits r (acc * 10 + Z.of_N (c - 48))%Z (S n)
              else (acc, n, s)
  | [] => (acc, n, s)
  end.

(** An integer literal whose sign has been read. *)
Definition number (negative : bool) (s : jsstr) : option (json * jsstr) :=
  match s with
  | c :: r =>
      if is_digit c then
        let '(v, n, rest) := digits s 0%Z 0 in
        let leading_zero := N.eqb c 48 && Nat.ltb 1 n in
        let continues :=
          match rest with
          | d :: _ => N.eqb d 46 || N.eqb d 101 || N.eqb d 69
          | [] => false
          end in
        if leading_zero || continues || (9007199254740992 <=? v)%Z then None
        else Some (JNum (if negative then PrimFloat.opp (Z2F v) else Z2F v), rest)
      else None
  | [] => None
  end.

Definition keyword (w : jsstr) (v : json) (s : jsstr) : option (json * jsstr) :=
  if starts_with w s then Some (v, skipn (length w) s) else None.

Fixpoint value (fuel : nat) (s : jsstr) : option (json * jsstr) :=
  match fuel with
  | O => None
  | S fuel' =>
      match drop_while is_json_ws s with
      | [] => None
      | c :: r =>
          if N.eqb c 123 then
            match drop_while is_json_ws r with
            | d :: r' =>
                if N.eqb d 125 then Some (JObj [], r')
                else match members fuel' (d :: r') with
                     | Some (ms, rest) => Some (JObj ms, rest)
                     | None => None
                     end
            | [] => None
            end
          else if N.eqb c 91 then
            match drop_while is_json_ws r with
            | d :: r' =>
                if N.eqb d 93 then Some (JArr [], r')
                else match elements fuel' (d :: r') with
                     | Some (vs, rest) => Some (JArr vs, rest)
                     | None => None
                     end
            | [] => None
            end
          else if N.eqb c 34 then
            match string_body r with
            | Some (t, rest) => Some (JStr t, rest)
            | None => None
            end
          else if N.eqb c 45 then number true r
          else if is_digit c then number false (c :: r)
          else if N.eqb c 116 then keyword (str "true") (JBool true) (c :: r)
          else if N.eqb c 102 then keyword (str "false") (JBool false) (c :: r)
          else if N.eqb c 110 then keyword (str "null") JNull (c :: r)
          else None
      end
  end

with members (fuel : nat) (s : jsstr) : option (list (jsstr * json) * jsstr) :=
  match fuel with
  | O => None
  | S fuel' =>
      match s with
      | c :: r =>
          if N.eqb c 34 then
            match string_body r with
            | Some (key, r1) =>
                match drop_while is_json_ws r1 with
                | colon :: r2 =>
                    if N.eqb colon 58 then
                      match value fuel' r2 with
                      | Some (v, r3) =>
                          match drop_while is_json_ws r3 with
                          | d :: r4 =>
                              if N.eqb d 125 then Some ([(key, v)], r4)
                              else if N.eqb d 44 then
                                match members fuel' (drop_while is_json_ws r4) with
                                | Some (ms, rest) => Some ((key, v) :: ms, rest)
                                | None => None
                                end
                              else None
                          | [] => None
                          end
                      | None => None
                      end
                    else None
                | [] => None
                end
            | None => None
            end
          else None
      | [] => None
      end
  end

with elements (fuel : nat) (s : jsstr) : option (list json * jsstr) :=
  match fuel with
  | O => None
  | S fuel' =>
      match value fuel' s with
      | Some (v, r1) =>
          match drop_while is_json_ws r1 with
          | d :: r2 =>
              if N.eqb d 93 then Some ([v], r2)
              else if N.eqb d 44 then
                match elements fuel' r2 with
                | Some (vs, rest) => Some (v :: vs, rest)
                | None => None
                end
              else None
          | [] => None
          end
      | None => None
      end
  end.

(** What the reference parser reports for any text it refuses. *)
Definition syntax_error : jsstr := str "Unexpected token in JSON".

Definition parse : Parser :=
  fun text =>
    match value (S (2 * length text)) text with
    | Some (v, rest) =>
        match drop_while is_json_ws rest with
        | [] => Normal v
        | _ :: _ => Throw syntax_error
        end
    | None => Throw syntax_error
    end.

End JsonRef.

Definition JSON_parse_ref : Parser := JsonRef.parse.

(* ================================================================== *)
(** * The analysis record and its JSON text *)
(* ================================================================== *)

(** The six fixed categories ([catKeys]). *)
Inductive Category : Type :=
| opening | objectionHandling | rapport | tonality | timing | closing.

Definition catKeys : list Category :=
  [opening; objectionHandling; rapport; tonality; timing; closing].

Definition category_key (c : Category) : jsstr :=
  match c with
  | opening => str "opening"
  | objectionHandling => str "objectionHandling"
  | rapport => str "rapport"
  | tonality => str "tonality"
  | timing => str "timing"
  | closing => str "closing"
  end.

(** The structure the analysis instruction asks the model for. *)
Record CategoryFeedback : Type := {
  score : Z;
  feedback : jsstr
}.

Record AnalysisRecord : Type := {
  overall : Z;
  breakdown : Category -> CategoryFeedback;
  summary : jsstr;
  keyStrength : jsstr;
  keyImprovement : jsstr
}.

(** The text [JSON.stringify] gives for a record: no white space, members
    in the order of the structure, strings quoted by QuoteJSONString. *)
Module JsonText.

Definition hex_digit (n : N) : N :=
  if N.ltb n 10 then (48 + n)%N else (87 + n)%N.

(** [\uXXXX]. *)
Definition unicode_escape (c : N) : jsstr :=
  [92; 117; hex_digit (c / 4096); hex_digit ((c / 256) mod 16);
   hex_digit ((c / 16) mod 16); hex_digit (c mod 16)]%N.

Definition is_high_surrogate (c : N) : bool := N.leb 55296 c && N.leb c 56319.
Definition is_low_surrogate (c : N) : bool := N.leb 56320 c && N.leb c 57343.

Fixpoint quote_units (s : jsstr) : jsstr :=
  match s with
  | [] => []
  | c :: r =>
      if N.eqb c 8 then [92; 98]%N ++ quote_units r
      else if N.eqb c 9 then [92; 116]%N ++ quote_units r
      else if N.eqb c 10 then [92; 110]%N ++ quote_units r
      else if N.eqb c 12 then [92; 102]%N ++ quote_units r
      else if N.eqb c 13 then [92; 114]%N ++ quote_units r
      else if N.eqb c 34 then [92; 34]%N ++ quote_units r
      else if N.eqb c 92 then [92; 92]%N ++ quote_units r
      else if N.ltb c 32 then unicode_escape c ++ quote_units r
      else if is_high_surrogate c then
        match r with
        | l :: r' =>
            if is_low_surrogate l then c :: l :: quote_units r'
            else unicode_escape c ++ quote_units r
        | [] => unicode_escape c
        end
      else if is_low_surrogate c then unicode_escape c ++ quote_units r
      else c :: quote_units r
  end.

Definition quote (s : jsstr) : jsstr := [QUOTE] ++ quote_units s ++ [QUOTE].

Fixpoint uint_units (d : Decimal.uint) : jsstr :=
  match d with
  | Decimal.Nil => []
  | Decimal.D0 d' => 48%N :: uint_units d'
  | Decimal.D1 d' => 49%N :: uint_units d'
  | Decimal.D2 d' => 50%N :: uint_units d'
  | Decimal.D3 d' => 51%N :: uint_units d'
  | Decimal.D4 d' => 52%N :: uint_units d'
  | Decimal.D5 d' => 53%N :: uint_units d'
  | Decimal.D6 d' => 54%N :: uint_units d'
  | Decimal.D7 d' => 55%N :: uint_units d'
  | Decimal.D8 d' => 56%N :: uint_units d'
  | Decimal.D9 d' => 57%N :: uint_units d'
  end.

Definition number (z : Z) : jsstr :=
  match z with
  | Z0 => [48%N]
  | Zpos p => uint_units (Pos.to_uint p)
  | Zneg p => 45%N :: uint_units (Pos.to_uint p)
  end.

Definition member (key text : jsstr) : jsstr := quote key ++ [58%N] ++ text.

Definition object (members : list jsstr) : jsstr :=
  [LBRACE] ++ join [44%N] members ++ [RBRACE].

Definition feedback_text (f : CategoryFeedback) : jsstr :=
  object [ member (str "score") (number (score f));
           member (str "feedback") (quote (feedback f)) ].

Definition stringify (a : AnalysisRecord) : jsstr :=
  object
    [ member (str "overall") (number (overall a));
      member (str "breakdown")
        (object (map (fun c => member (category_key c)
                                 (feedback_text (breakdown a c))) catKeys));
      member (str "summary") (quote (summary a));
      member (str "keyStrength") (quote (keyStrength a));
      member (str "keyImprovement") (quote (keyImprovement a)) ].

End JsonText.

Definition JSON_stringify : AnalysisRecord -> jsstr := JsonText.stringify.

(** The value a record is. *)
Definition feedback_value (f : CategoryFeedback) : json :=
  JObj [ (str "score", JNum (Z2F (score f)));
         (str "feedback", JStr (feedback f)) ].

Definition analysis_value (a : AnalysisRecord) : json :=
  JObj [ (str "overall", JNum (Z2F (overall a)));
         (str "breakdown",
          JObj (map (fun c => (category_key c, feedback_value (breakdown a c)))
                  catKeys));
         (str "summary", JStr (summary a));
         (str "keyStrength", JStr (keyStrength a));
         (str "keyImprovement", JStr (keyImprovement a)) ].

(* ================================================================== *)
(** * Extraction of the analysis from the model's text

    [POST /analyze], after the model call:
<<
    const raw = response.content[0].text.trim();
    const jsonMatch = raw.match(/```(?:json)?\s*([\s\S]+?)\s*```/);
    const jsonStr = jsonMatch ? jsonMatch[1] : raw;
    const objMatch = jsonStr.match(/\{[\s\S]*\}/);
    const analysis = JSON.parse(objMatch ? objMatch[0] : jsonStr);
>> *)
(* ================================================================== *)

(** [jsonStr]: the interior of the first fenced block, or [raw]. Capture 1
    takes part in every match of the pattern. *)
Definition jsonStr_of (raw : jsstr) : jsstr :=
  match RegExp.exec fence_re raw with
  | Some (_, Some interior) => interior
  | Some (_, None) => raw
  | None => raw
  end.

(** The argument of [JSON.parse]: from the first [{] to the last [}] of
    [jsonStr], or [jsonStr]. *)
Definition candidate_of (jsonStr : jsstr) : jsstr :=
  match RegExp.exec braces_re jsonStr with
  | Some (obj, _) => obj
  | None => jsonStr
  end.

Definition extractAnalysis (JSON_parse : Parser) (text : jsstr)
  : Completion json :=
  let raw := trim text in
  let jsonStr := jsonStr_of raw in
  JSON_parse (candidate_of jsonStr).

(** The earlier revision of the handler, without the brace stage:
<<
    const analysis = JSON.parse(jsonMatch ? jsonMatch[1] : raw);
>> *)
Definition extractAnalysis_fence_only (JSON_parse : Parser) (text : jsstr)
  : Completion json :=
  JSON_parse (jsonStr_of (trim text)).

(** A text that opens with [{] and closes with [}], as the JSON text of
    an object does once the white space around it is gone. *)
Definition braced (J : jsstr) : bool :=
  match J with
  | c :: r =>
      N.eqb c LBRACE &&
      match rev r with
      | d :: _ => N.eqb d RBRACE
      | [] => false
      end
  | [] => false
  end.

Definition all_space (s : jsstr) : bool := forallb is_space s.
Definition without (c : N) (s : jsstr) : bool :=
  forallb (fun x => negb (N.eqb x c)) s.

(** The shapes of model output the extraction recovers the JSON text [J]
    from:
    - [J] itself;
    - [J] in a fenced block, tagged [json] or not, with white space
      inside the fence and prose around it, the prose before the block
      free of backticks;
    - [J] between prose, where three backticks in a row occur nowhere,
      the prose before [J] has no [{] and the prose after it no [}]. *)
Inductive tolerated (J : jsstr) : jsstr -> Prop :=
| shape_plain :
    tolerated J J
| shape_fenced : forall pre tag ws1 ws2 post,
    tag = [] \/ tag = str "json" ->
    all_space ws1 = true ->
    all_space ws2 = true ->
    without BACKTICK pre = true ->
    tolerated J (pre ++ FENCE ++ tag ++ ws1 ++ J ++ ws2 ++ FENCE ++ post)
| shape_prose : forall pre post,
    includes FENCE (pre ++ J ++ post) = false ->
    without LBRACE pre = true ->
    without RBRACE post = true ->
    tolerated J (pre ++ J ++ post).

(* ================================================================== *)
(** * The store, the collaborators and the process state *)
(* ================================================================== *)

(** A row of [knowledge_files]; [uploaded_at] is [NOW()] at the insert. *)
Record KnowledgeFile : Type := {
  kf_id : Z;
  kf_filename : jsstr;
  kf_content : jsstr;
  kf_uploaded_at : Z
}.

(** A row of [SELECT filename, content ...]. *)
Record PromptRow : Type := {
  filename : jsstr;
  content : jsstr
}.

(** A row of [SELECT id, filename, LEFT(content, 120) AS preview,
    uploaded_at ...]. *)
Record FileListing : Type := {
  file_id : Z;
  file_filename : jsstr;
  preview : jsstr;
  file_uploaded_at : Z
}.

(** The statements the handlers send to the store. *)
Inductive Statement : Type :=
| SelectForPrompt
| SelectListing
| InsertFile (name text : jsstr)
| DeleteFile (id : Z).

(** The store: the table, its [SERIAL] counter, the statements it has
    executed so far, latest first, and how it reads the text of a
    parameter compared with the integer column [id]: as an integer, or
    not at all, and then the statement is rejected with a message. *)
Record Database : Type := {
  knowledge_files : list KnowledgeFile;
  knowledge_files_id_seq : Z;
  executed : list Statement;
  int4in : jsstr -> Completion Z
}.

(** [ORDER BY]: insertion into a list ordered by [le]. *)
Fixpoint insert_by {A} (le : A -> A -> bool) (x : A) (l : list A) : list A :=
  match l with
  | [] => [x]
  | y :: l' => if le x y then x :: l else y :: insert_by le x l'
  end.

Fixpoint order_by {A} (le : A -> A -> bool) (l : list A) : list A :=
  match l with
  | [] => []
  | x :: l' => insert_by le x (order_by le l')
  end.

(** [ORDER BY uploaded_at] and [ORDER BY uploaded_at DESC]. *)
Definition uploaded_asc (a b : KnowledgeFile) : bool :=
  (kf_uploaded_at a <=? kf_uploaded_at b)%Z.
Definition uploaded_desc (a b : KnowledgeFile) : bool :=
  (kf_uploaded_at b <=? kf_uploaded_at a)%Z.

(** The characters of a text as the store counts them: a surrogate pair
    is one character. *)
Definition is_pair (h l : N) : bool :=
  JsonText.is_high_surrogate h && JsonText.is_low_surrogate l.

Fixpoint char_length (s : jsstr) : nat :=
  match s with
  | [] => 0
  | h :: t =>
      match t with
      | l :: r => if is_pair h l then S (char_length r) else S (char_length t)
      | [] => 1
      end
  end.

(** [LEFT(text, n)]: the first [n] characters. *)
Fixpoint LEFT (s : jsstr) (n : nat) {struct n} : jsstr :=
  match n with
  | O => []
  | S n' =>
      match s with
      | [] => []
      | h :: t =>
          match t with
          | l :: r => if is_pair h l then h :: l :: LEFT r n' else h :: LEFT t n'
          | [] => [h]
          end
      end
  end.

Definition prompt_row (f : KnowledgeFile) : PromptRow :=
  {| filename := kf_filename f; content := kf_content f |}.

Definition listing_row (f : KnowledgeFile) : FileListing :=
  {| file_id := kf_id f;
     file_filename := kf_filename f;
     preview := LEFT (kf_content f) 120;
     file_uploaded_at := kf_uploaded_at f |}.

(** A turn of the conversation, as sent to the model. *)
Inductive Role : Type := user | assistant.

Record Message : Type := {
  role : Role;
  content_of : jsstr
}.

(** What a request finds outside the process. *)
Record World : Type := {
  (** [Date.now()], in milliseconds. *)
  Date_now : Z;
  (** [NOW()] at the store. *)
  NOW : Z;
  (** [Some m]: [pool.query] rejects with an error of message [m]. *)
  store_error : option jsstr;
  (** [client.messages.create({ system, messages })] up to
      [response.content[0].text]. *)
  messages_create : option jsstr -> list Message -> Completion jsstr
}.

Definition record_statement (q : Statement) (d : Database) : Database :=
  {| knowledge_files := knowledge_files d;
     knowledge_files_id_seq := knowledge_files_id_seq d;
     executed := q :: executed d;
     int4in := int4in d |}.

(** A text parameter reaches the store in UTF-8. The driver encodes a
    surrogate that has no partner as U+FFFD, and the store rejects a
    text that holds U+0000. *)
Definition is_surrogate (c : N) : bool :=
  JsonText.is_high_surrogate c || JsonText.is_low_surrogate c.

Fixpoint utf8_text (s : jsstr) : jsstr :=
  match s with
  | [] => []
  | h :: t =>
      match t with
      | l :: r =>
          if is_pair h l then h :: l :: utf8_text r
          else (if is_surrogate h then 65533%N else h) :: utf8_text t
      | [] => [if is_surrogate h then 65533%N else h]
      end
  end.

Definition has_nul (s : jsstr) : bool := existsb (N.eqb 0) s.

Definition invalid_byte_sequence : jsstr :=
  str "invalid byte sequence for encoding " ++ q "UTF8" ++ str ": 0x00".

(** ['SELECT filename, content FROM knowledge_files ORDER BY uploaded_at']. *)
Definition select_for_prompt (w : World) (d : Database)
  : Completion (list PromptRow) * Database :=
  match store_error w with
  | Some m => (Throw m, d)
  | None =>
      (Normal (map prompt_row (order_by uploaded_asc (knowledge_files d))),
       record_statement SelectForPrompt d)
  end.

(** ["SELECT id, filename, LEFT(content, 120) AS preview, uploaded_at FROM
    knowledge_files ORDER BY uploaded_at DESC"]. *)
Definition select_listing (w : World) (d : Database)
  : Completion (list FileListing) * Database :=
  match store_error w with
  | Some m => (Throw m, d)
  | None =>
      (Normal (map listing_row (order_by uploaded_desc (knowledge_files d))),
       record_statement SelectListing d)
  end.

(** ['INSERT INTO knowledge_files (filename, content) VALUES ($1, $2)
    RETURNING id']. *)
Definition insert_file (w : World) (name text : jsstr) (d : Database)
  : Completion Z * Database :=
  match store_error w with
  | Some m => (Throw m, d)
  | None =>
      if has_nul name || has_nul text then (Throw invalid_byte_sequence, d)
      else
        let id := knowledge_files_id_seq d in
        (Normal id,
         {| knowledge_files :=
              knowledge_files d ++
              [{| kf_id := id;
                  kf_filename := utf8_text name;
                  kf_content := utf8_text text;
                  kf_uploaded_at := NOW w |}];
            knowledge_files_id_seq := (id + 1)%Z;
            executed := InsertFile (utf8_text name) (utf8_text text)
                        :: executed d;
            int4in := int4in d |})
  end.

(** ['DELETE FROM knowledge_files WHERE id = $1'], with the text bound
    to [$1]. *)
Definition delete_file (w : World) (id : jsstr) (d : Database)
  : Completion unit * Database :=
  match store_error w with
  | Some m => (Throw m, d)
  | None =>
      match int4in d id with
      | Throw m => (Throw m, d)
      | Normal z =>
          (Normal tt,
           {| knowledge_files :=
                filter (fun f => negb (kf_id f =? z)%Z) (knowledge_files d);
              knowledge_files_id_seq := knowledge_files_id_seq d;
              executed := DeleteFile z :: executed d;
              int4in := int4in d |})
      end
  end.

(** An array the process holds: [ref] tells one instance from another,
    the way [===] does. *)
Record Rows : Type := {
  ref : nat;
  rows : list PromptRow
}.

(** The module-level variables of [server.js], the store behind [pool],
    and the next array identity to hand out. *)
Record State : Type := {
  conversationHistory : list Message;
  knowledgeCache : option Rows;
  knowledgeCacheTime : Z;
  db : Database;
  fresh : nat
}.

(** The state at start-up, over whatever the store holds. *)
Definition boot (d : Database) : State :=
  {| conversationHistory := [];
     knowledgeCache := None;
     knowledgeCacheTime := 0;
     db := d;
     fresh := 0 |}.

Definition with_history (st : State) (h : list Message) : State :=
  {| conversationHistory := h;
     knowledgeCache := knowledgeCache st;
     knowledgeCacheTime := knowledgeCacheTime st;
     db := db st;
     fresh := fresh st |}.

Definition with_db (st : State) (d : Database) : State :=
  {| conversationHistory := conversationHistory st;
     knowledgeCache := knowledgeCache st;
     knowledgeCacheTime := knowledgeCacheTime st;
     db := d;
     fresh := fresh st |}.

(** [knowledgeCache = null]. *)
Definition invalidate (st : State) : State :=
  {| conversationHistory := conversationHistory st;
     knowledgeCache := None;
     knowledgeCacheTime := knowledgeCacheTime st;
     db := db st;
     fresh := fresh st |}.

(** What a handler answers. *)
Inductive Body : Type :=
| ErrorBody (error : jsstr)
| ChatBody (response : jsstr)
| ScorecardBody (scorecard : jsstr)
| AnalysisBody (analysis : json)
| SuccessBody
| CreatedBody (id : Z)
| FilesBody (files : list FileListing).

Record Response : Type := {
  status : Z;
  body : Body
}.

(** The state a handler leaves, its response, and the arguments of its
    [console.error] calls. *)
Record Outcome : Type := {
  state : State;
  response : Response;
  console_error : list (list jsstr)
}.

Definition respond (st : State) (code : Z) (b : Body) : Outcome :=
  {| state := st;
     response := {| status := code; body := b |};
     console_error := [] |}.

(** The [catch] block every handler ends with:
<<
    console.error('<label>', err.message);
    res.status(500).json({ error: err.message });
>> *)
Definition caught (st : State) (label : jsstr) (message : jsstr) : Outcome :=
  {| state := st;
     response := {| status := 500; body := ErrorBody message |};
     console_error := [[label; message]] |}.

(* ================================================================== *)
(** * The knowledge-base cache and the system prompt *)
(* ================================================================== *)

(** [getKnowledgeBase]. *)
Definition getKnowledgeBase (w : World) (st : State)
  : Completion Rows * State :=
  let now := Date_now w in
  let reload :=
    match select_for_prompt w (db st) with
    | (Throw m, d) => (Throw m, with_db st d)
    | (Normal result_rows, d) =>
        let cache := {| ref := fresh st; rows := result_rows |} in
        (Normal cache,
         {| conversationHistory := conversationHistory st;
            knowledgeCache := Some cache;
            knowledgeCacheTime := now;
            db := d;
            fresh := S (fresh st) |})
    end in
  match knowledgeCache st with
  | Some cache =>
      if (now - knowledgeCacheTime st <? 60000)%Z then (Normal cache, st)
      else reload
  | None => reload
  end.

(** [BASE_SYSTEM_PROMPT]. *)
Definition BASE_SYSTEM_PROMPT : jsstr :=
  lines
    [ str "You are roleplaying as a skeptical homeowner. A " ++
        str "door-to-door roofing sales rep has just knocked on your " ++
        str "door. You are mildly annoyed but willing to listen. After " ++
        str "each rep message, respond in character as the homeowner, " ++
        str "then on a new line add: COACH: [1-2 sentences of direct, " ++
        str "specific feedback on the rep's technique and vocal " ++
        str "delivery. If the message includes voice metrics (WPM, " ++
        str "energy, pitch, filler words), address them explicitly " ++
        [EM_DASH] ++
        str " ideal sales pace is 130-150 WPM, energy should be warm and " ++
        str "confident, filler words undermine credibility, monotone " ++
        str "delivery kills rapport. Always say what to do differently. " ++
        str "If training materials are provided below, reference them " ++
        str "specifically when relevant.]" ].

(** [SCORECARD_PROMPT]. *)
Definition SCORECARD_PROMPT : jsstr :=
  lines
    [ str "You are an expert sales coach. Review this door-to-door " ++
        str "roofing sales practice conversation and rate the rep 1-10 " ++
        str "on each category with one sentence of feedback. Use exactly " ++
        str "this format:";
      [];
      str "Opening: [score]/10 " ++ [EM_DASH] ++
        str " [one sentence of feedback]";
      str "Objection Handling: [score]/10 " ++ [EM_DASH] ++
        str " [one sentence of feedback]";
      str "Rapport: [score]/10 " ++ [EM_DASH] ++
        str " [one sentence of feedback]";
      str "Closing Attempt: [score]/10 " ++ [EM_DASH] ++
        str " [one sentence of feedback]";
      str "Overall: [score]/10 " ++ [EM_DASH] ++
        str " [one sentence summarizing performance]" ].

(** The instruction of [POST /analyze] before and after the interpolated
    conversation text. *)
Definition ANALYZE_PROMPT_HEAD : jsstr :=
  lines
    [ str "You are an expert door-to-door sales coach. Analyze this " ++
        str "roofing sales practice session and return ONLY a valid JSON " ++
        str "object " ++ [EM_DASH] ++ str " no markdown, no extra text.";
      [];
      str "Conversation:";
      [] ].

Definition ANALYZE_PROMPT_TAIL : jsstr :=
  lines
    [ [];
      [];
      str "Return exactly this structure:";
      str "{";
      str "  " ++ q "overall" ++ str ": <integer 0-100>,";
      str "  " ++ q "breakdown" ++ str ": {";
      str "    " ++ q "opening" ++ str ":           { " ++ q "score" ++
        str ": <0-100>, " ++ q "feedback" ++ str ": " ++ q "<one sentence>" ++
        str " },";
      str "    " ++ q "objectionHandling" ++ str ": { " ++ q "score" ++
        str ": <0-100>, " ++ q "feedback" ++ str ": " ++ q "<one sentence>" ++
        str " },";
      str "    " ++ q "rapport" ++ str ":           { " ++ q "score" ++
        str ": <0-100>, " ++ q "feedback" ++ str ": " ++ q "<one sentence>" ++
        str " },";
      str "    " ++ q "tonality" ++ str ":          { " ++ q "score" ++
        str ": <0-100>, " ++ q "feedback" ++ str ": " ++ q "<one sentence>" ++
        str " },";
      str "    " ++ q "timing" ++ str ":            { " ++ q "score" ++
        str ": <0-100>, " ++ q "feedback" ++ str ": " ++ q "<one sentence>" ++
        str " },";
      str "    " ++ q "closing" ++ str ":           { " ++ q "score" ++
        str ": <0-100>, " ++ q "feedback" ++ str ": " ++ q "<one sentence>" ++
        str " }";
      str "  },";
      str "  " ++ q "summary" ++ str ": " ++
        q "<2-3 sentences describing how the session went>" ++ str ",";
      str "  " ++ q "keyStrength" ++ str ": " ++
        q "<one specific thing they did well>" ++ str ",";
      str "  " ++ q "keyImprovement" ++ str ": " ++
        q "<one specific thing to work on next time>";
      str "}";
      [];
      str "Use any [Voice: ...] metrics in the rep's messages to " ++
        str "inform tonality and timing scores. Ideal pace is 130-150 " ++
        str "WPM." ].


(** The header above the training materials. *)
Definition TRAINING_MATERIALS : jsstr :=
  str "[TRAINING MATERIALS " ++ [EM_DASH] ++
  str " reference these when coaching]".

(** [`--- ${f.filename} ---\n${f.content.slice(0, 3000)}`]. *)
Definition kb_block (f : PromptRow) : jsstr :=
  str "--- " ++ filename f ++ str " ---" ++ [LF] ++
  slice (content f) 0 (Some 3000%Z).

(** The body of [buildSystemPrompt] once [files] is known. *)
Definition systemPrompt_of (base : jsstr) (files : list PromptRow) : jsstr :=
  if Nat.eqb (length files) 0 then base
  else
    let kb := join [LF; LF] (map kb_block files) in
    base ++ [LF; LF] ++ TRAINING_MATERIALS ++ [LF] ++ kb.

(** [buildSystemPrompt]. *)
Definition buildSystemPrompt (w : World) (st : State)
  : Completion jsstr * State :=
  match getKnowledgeBase w st with
  | (Throw m, st') => (Throw m, st')
  | (Normal files, st') =>
      (Normal (systemPrompt_of BASE_SYSTEM_PROMPT (rows files)), st')
  end.

(* ================================================================== *)
(** * The conversation handlers *)
(* ================================================================== *)

Definition is_empty {A} (l : list A) : bool :=
  match l with [] => true | _ :: _ => false end.

(** [{ role: 'user', content: s }]. *)
Definition rep_turn (s : jsstr) : Message :=
  {| role := user; content_of := s |}.

(** [POST /chat], up to the push of the rep's turn:
<<
    const { message } = req.body;
    if (!message || !message.trim()) {
      return res.status(400).json({ error: 'Message is required.' });
    }
    conversationHistory.push({ role: 'user', content: message });
>>
    A truthy [message] that is no string has no [trim]: the call throws
    and the handler's [catch] answers. *)
Definition chat_accept (st : State) (message : option json)
  : Outcome + State :=
  if negb (truthy message) then
    inl (respond st 400 (ErrorBody (str "Message is required.")))
  else
    match message with
    | Some (JStr s) =>
        if is_empty (trim s) then
          inl (respond st 400 (ErrorBody (str "Message is required.")))
        else
          inr (with_history st (conversationHistory st ++ [rep_turn s]))
    | _ =>
        inl (caught st (str "Chat error:")
               (str "message.trim is not a function"))
    end.

(** The rest of [POST /chat]: the prompt, the model call, the push of the
    reply. *)
Definition chat_reply (w : World) (st : State) : Outcome :=
  match buildSystemPrompt w st with
  | (Throw m, st') => caught st' (str "Chat error:") m
  | (Normal systemPrompt, st') =>
      match messages_create w (Some systemPrompt) (conversationHistory st') with
      | Throw m => caught st' (str "Chat error:") m
      | Normal assistantMessage =>
          respond
            (with_history st'
               (conversationHistory st' ++
                [{| role := assistant; content_of := assistantMessage |}]))
            200 (ChatBody assistantMessage)
      end
  end.

Definition post_chat (w : World) (st : State) (message : option json)
  : Outcome :=
  match chat_accept st message with
  | inl answered => answered
  | inr st' => chat_reply w st'
  end.

(** The transcript as the scoring and analysis instructions embed it. *)
Definition speaker (r : Role) : jsstr :=
  match r with
  | user => str "SALES REP"
  | assistant => str "HOMEOWNER/COACH"
  end.

Definition conversationText (h : list Message) : jsstr :=
  join [LF; LF]
    (map (fun m => speaker (role m) ++ str ": " ++ content_of m) h).

(** The [messages] of the scoring and of the analysis call. *)
Definition scorecard_messages (h : list Message) : list Message :=
  [{| role := user;
      content_of :=
        str "Here is the full practice sales conversation:" ++ [LF; LF] ++
        conversationText h ++ [LF; LF] ++ SCORECARD_PROMPT |}].

Definition analyze_messages (h : list Message) : list Message :=
  [{| role := user;
      content_of :=
        ANALYZE_PROMPT_HEAD ++ conversationText h ++ ANALYZE_PROMPT_TAIL |}].

(** [POST /scorecard]. *)
Definition post_scorecard (w : World) (st : State) : Outcome :=
  if Nat.eqb (length (conversationHistory st)) 0 then
    respond st 400 (ErrorBody (str "No conversation to score yet."))
  else
    match messages_create w None
            (scorecard_messages (conversationHistory st)) with
    | Throw m => caught st (str "Scorecard error:") m
    | Normal text => respond st 200 (ScorecardBody text)
    end.

(** [POST /analyze]. *)
Definition post_analyze (JSON_parse : Parser) (w : World) (st : State)
  : Outcome :=
  if Nat.eqb (length (conversationHistory st)) 0 then
    respond st 400 (ErrorBody (str "No conversation to analyze."))
  else
    match messages_create w None
            (analyze_messages (conversationHistory st)) with
    | Throw m => caught st (str "Analyze error:") m
    | Normal text =>
        match extractAnalysis JSON_parse text with
        | Throw m => caught st (str "Analyze error:") m
        | Normal analysis => respond st 200 (AnalysisBody analysis)
        end
    end.

(** [POST /reset]. *)
Definition post_reset (st : State) : Outcome :=
  respond (with_history st []) 200 SuccessBody.

(* ================================================================== *)
(** * The knowledge-file endpoints *)
(* ================================================================== *)

(** [v.trim()] on a property that passed the truthiness test. *)
Definition call_trim (name : string) (v : option json) : Completion jsstr :=
  match v with
  | Some (JStr s) => Normal (trim s)
  | _ => Throw (str name ++ str ".trim is not a function")
  end.

(** [POST /knowledge-file]:
<<
    const { filename, content } = req.body;
    if (!filename || !content)
      return res.status(400).json({ error: 'filename and content required.' });
    const result = await pool.query('INSERT ...',
                                    [filename.trim(), content.trim()]);
    knowledgeCache = null; // invalidate cache
    res.json({ success: true, id: result.rows[0].id });
>> *)
Definition post_knowledge_file (w : World) (st : State)
    (filename content : option json) : Outcome :=
  if negb (truthy filename) || negb (truthy content) then
    respond st 400 (ErrorBody (str "filename and content required."))
  else
    match call_trim "filename" filename with
    | Throw m => caught st (str "Knowledge file error:") m
    | Normal name =>
        match call_trim "content" content with
        | Throw m => caught st (str "Knowledge file error:") m
        | Normal text =>
            match insert_file w name text (db st) with
            | (Throw m, d) => caught (with_db st d) (str "Knowledge file error:") m
            | (Normal id, d) =>
                respond (invalidate (with_db st d)) 200 (CreatedBody id)
            end
        end
    end.

(** [GET /knowledge-files]. *)
Definition get_knowledge_files (w : World) (st : State) : Outcome :=
  match select_listing w (db st) with
  | (Throw m, d) => caught (with_db st d) (str "Knowledge list error:") m
  | (Normal files, d) => respond (with_db st d) 200 (FilesBody files)
  end.

(** [DELETE /knowledge-file/:id]:
<<
    await pool.query('DELETE FROM knowledge_files WHERE id = $1', [req.params.id]);
    knowledgeCache = null;
    res.json({ success: true });
>>
    [id] is [req.params.id], the path segment as text. *)
Definition delete_knowledge_file (w : World) (st : State) (id : jsstr)
  : Outcome :=
  match delete_file w id (db st) with
  | (Throw m, d) => caught (with_db st d) (str "Knowledge delete error:") m
  | (Normal _, d) => respond (invalidate (with_db st d)) 200 SuccessBody
  end.

(** The requests the server takes, and the server as a step function. *)
Inductive Request : Type :=
| Chat (message : option json)
| Scorecard
| Analyze
| Reset
| KnowledgeAdd (filename content : option json)
| KnowledgeList
| KnowledgeDelete (id : jsstr).

Definition handle (JSON_parse : Parser) (w : World) (st : State)
    (r : Request) : Outcome :=
  match r with
  | Chat message => post_chat w st message
  | Scorecard => post_scorecard w st
  | Analyze => post_analyze JSON_parse w st
  | Reset => post_reset st
  | KnowledgeAdd filename content => post_knowledge_file w st filename content
  | KnowledgeList => get_knowledge_files w st
  | KnowledgeDelete id => delete_knowledge_file w st id
  end.

(** The states the process can be in: after start-up, and after each
    request it has served, one request being answered before the next
    arrives. *)
Inductive reachable (JSON_parse : Parser) : State -> Prop :=
| reachable_boot : forall d, reachable JSON_parse (boot d)
| reachable_step : forall st w r,
    reachable JSON_parse st ->
    reachable JSON_parse (state (handle JSON_parse w st r)).

(* ================================================================== *)
(** * The per-rep aggregation of [GET /manager/reps] *)
(* ================================================================== *)

(** [Math.round]: a number that is not finite or already integral is
    returned as it is; otherwise the integral number closest to [x], the
    larger one of two equally close (ECMA-262 21.3.2.28). The exact value
    of a finite [x] is [m * 2^e]; with [e < 0] the result is
    [floor (x + 1/2)], whose magnitude is below 2^53. *)
Definition Math_round (x : float) : float :=
  match Prim2SF x with
  | S754_finite negative m e =>
      if (0 <=? e)%Z then x
      else
        let d := (2 ^ (- e))%Z in
        let n := if negative then Z.neg m else Z.pos m in
        let r := ((2 * n + d) / (2 * d))%Z in
        if negative then PrimFloat.opp (Z2F (- r)) else Z2F r
  | _ => x
  end.

Module Manager.

(** An analysis as the [JSONB] column gives it back. Nothing checked its
    shape when it was saved: any member may be missing or [null], which
    is [None] here; a member that is present has the type of the
    structure. *)
Record CategoryEntry : Type := {
  score : option float;
  feedback : option jsstr
}.

Record Analysis : Type := {
  overall : option float;
  breakdown : option (Category -> option CategoryEntry);
  keyImprovement : option jsstr
}.

(** A row of the grouped query; [all_analyses] is
    [json_agg(analysis ORDER BY created_at DESC)], newest first. *)
Record RepRow : Type := {
  rep_name : jsstr;
  session_count : Z;
  avg_score : option Z;
  best_score : option Z;
  last_active : Z;
  all_analyses : option (list Analysis)
}.

Record RepStats : Type := {
  name : jsstr;
  sessionCount : Z;
  avgScore : option Z;
  bestScore : option Z;
  latestScore : float;
  lastActive : Z;
  improvement : option float;
  catAvgs : list (Category * option float);
  topIssues : list jsstr
}.

(** [x || 0] on a number that may be missing. *)
Definition or_zero (x : option float) : float :=
  match x with
  | Some v => if truthy_number v then v else 0%float
  | None => 0%float
  end.

(** [xs.reduce((a, b) => a + b, 0)]. *)
Definition sum (xs : list float) : float :=
  fold_left PrimFloat.add xs 0%float.

(** The length of an array as a number, and [Math.floor(n / 2)] of a
    length [n]; lengths are below 2^32, on which both are exact. *)
Definition number_of (n : nat) : float := Z2F (Z.of_nat n).
Definition half_of (n : nat) : nat := Nat.div n 2.

(** [analyses.map(a => a.overall || 0)]. *)
Definition scores_of (analyses : list Analysis) : list float :=
  map (fun a => or_zero (overall a)) analyses.

(** The trend:
<<
    let improvement = null;
    if (scores.length >= 4) {
      const half = Math.floor(scores.length / 2);
      const newer = scores.slice(0, half).reduce((a, b) => a + b, 0) / half;
      const older = scores.slice(-half).reduce((a, b) => a + b, 0) / half;
      improvement = Math.round(newer - older);
    }
>> *)
Definition improvement_of (scores : list float) : option float :=
  if Nat.leb 4 (length scores) then
    let half := half_of (length scores) in
    let newer :=
      PrimFloat.div (sum (slice scores 0 (Some (Z.of_nat half))))
        (number_of half) in
    let older :=
      PrimFloat.div (sum (slice scores (- Z.of_nat half) None))
        (number_of half) in
    Some (Math_round (PrimFloat.sub newer older))
  else None.

(** [a.breakdown?.[k]?.score]. *)
Definition score_at (k : Category) (a : Analysis) : option float :=
  match breakdown a with
  | Some b =>
      match b k with
      | Some entry => score entry
      | None => None
      end
  | None => None
  end.

(** [xs.filter(v => v != null)]. *)
Fixpoint non_null {A} (xs : list (option A)) : list A :=
  match xs with
  | [] => []
  | Some x :: xs' => x :: non_null xs'
  | None :: xs' => non_null xs'
  end.

(** The average of one category:
<<
    const vals = analyses.map(a => a.breakdown?.[k]?.score)
                         .filter(v => v != null);
    catAvgs[k] = vals.length
      ? Math.round(vals.reduce((a, b) => a + b, 0) / vals.length) : null;
>> *)
Definition vals_of (k : Category) (analyses : list Analysis) : list float :=
  non_null (map (score_at k) analyses).

Definition catAvg (k : Category) (analyses : list Analysis) : option float :=
  let vals := vals_of k analyses in
  if Nat.eqb (length vals) 0 then None
  else Some (Math_round (PrimFloat.div (sum vals) (number_of (length vals)))).

Definition catAvgs_of (analyses : list Analysis)
  : list (Category * option float) :=
  map (fun k => (k, catAvg k analyses)) catKeys.

(** [analyses.map(a => a.keyImprovement).filter(Boolean)]. *)
Definition issues_of (analyses : list Analysis) : list jsstr :=
  filter (fun s => negb (is_empty s)) (non_null (map keyImprovement analyses)).

(** The function mapped over [result.rows]. *)
Definition rep_stats (row : RepRow) : RepStats :=
  let analyses := match all_analyses row with Some l => l | None => [] end in
  let scores := scores_of analyses in
  {| name := rep_name row;
     sessionCount := session_count row;
     avgScore := avg_score row;
     bestScore := best_score row;
     latestScore := or_zero (nth_error scores 0);
     lastActive := last_active row;
     improvement := improvement_of scores;
     catAvgs := catAvgs_of analyses;
     topIssues := slice (issues_of analyses) 0 (Some 3%Z) |}.




End Manager.

(* ================================================================== *)
(** * The session archive and the manager's gate

    [POST /save-session], [GET /sessions], [GET /manager/reps] and
    [GET /manager/sessions] work on the [sessions] table and read or
    write no variable of the process. The table lives at the store; what
    a statement does there is read from an [Archive]. *)
(* ================================================================== *)

Module Sessions.

(** A member of [req.query]: absent, a string, or the array or object the
    query parser builds from a repeated or bracketed key. *)
Inductive QueryValue : Type :=
| QAbsent
| QString (s : jsstr)
| QNested.

(** ToBoolean on a member of [req.query]. *)
Definition present (v : QueryValue) : bool :=
  match v with
  | QAbsent => false
  | QString s => negb (is_empty s)
  | QNested => true
  end.

(** [v.trim()] on a member that passed the truthiness test. *)
Definition query_trim (name : string) (v : QueryValue) : Completion jsstr :=
  match v with
  | QString s => Normal (trim s)
  | _ => Throw (str name ++ str ".trim is not a function")
  end.

(** A row of [SELECT * FROM sessions ...]. *)
Record Row : Type := {
  row_id : Z;
  row_rep_name : jsstr;
  row_created_at : Z;
  row_duration : option Z;
  row_rep_messages : option Z;
  row_analysis : json
}.

(** An element of the [sessions] array of a response. *)
Record View : Type := {
  id : Z;
  date : Z;
  duration : option Z;
  repMessages : option Z;
  analysis : json
}.

(** The function mapped over [result.rows] by both session listings. *)
Definition view_of (row : Row) : View :=
  {| id := row_id row;
     date := row_created_at row;
     duration := row_duration row;
     repMessages := row_rep_messages row;
     analysis := row_analysis row |}.

(** What the session endpoints find outside the process. *)
Record Archive : Type := {
  (** [process.env.MANAGER_PIN]. *)
  MANAGER_PIN : option jsstr;
  (** ['INSERT INTO sessions (rep_name, duration, rep_messages, analysis)
      VALUES ($1, $2, $3, $4)'] with its parameters; the fourth is given
      as the value whose JSON text is sent. *)
  insert_session : jsstr -> json -> json -> json -> Completion unit;
  (** [SELECT * FROM sessions WHERE LOWER(rep_name) = LOWER($1) ... ORDER
      BY created_at DESC LIMIT 100] for the name sent and the [days]
      member the window is read from. *)
  select_sessions : jsstr -> QueryValue -> Completion (list Row);
  (** The grouped query of [GET /manager/reps] for the [days] member the
      window is read from. *)
  select_reps : QueryValue -> Completion (list Manager.RepRow)
}.

Inductive Body : Type :=
| ErrorBody (error : jsstr)
| SuccessBody
| SessionsBody (sessions : list View)
| RepsBody (reps : list Manager.RepStats).

(** The response of a handler and the arguments of its [console.error]
    calls. *)
Record Outcome : Type := {
  status : Z;
  body : Body;
  console_error : list (list jsstr)
}.

Definition respond (code : Z) (b : Body) : Outcome :=
  {| status := code; body := b; console_error := [] |}.

Definition caught (label : jsstr) (message : jsstr) : Outcome :=
  {| status := 500; body := ErrorBody message;
     console_error := [[label; message]] |}.

(** [x || 0] on a member of the body. *)
Definition or_zero (v : option json) : json :=
  match v with
  | Some x => if truthy v then x else JNum 0
  | None => JNum 0
  end.

(** [POST /save-session]:
<<
    const { repName, duration, repMessages, analysis } = req.body;
    if (!repName || !analysis)
      return res.status(400).json({ error: 'repName and analysis are required.' });
    await pool.query('INSERT ...',
      [repName.trim(), duration || 0, repMessages || 0, JSON.stringify(analysis)]);
    res.json({ success: true });
>> *)
Definition post_save_session (a : Archive)
    (repName duration repMessages analysis : option json) : Outcome :=
  if negb (truthy repName) || negb (truthy analysis) then
    respond 400 (ErrorBody (str "repName and analysis are required."))
  else
    match call_trim "repName" repName with
    | Throw m => caught (str "Save session error:") m
    | Normal name =>
        let value := match analysis with Some v => v | None => JNull end in
        match insert_session a name (or_zero duration) (or_zero repMessages)
                value with
        | Throw m => caught (str "Save session error:") m
        | Normal _ => respond 200 SuccessBody
        end
    end.

(** [GET /sessions]:
<<
    const { name } = req.query;
    if (!name) return res.status(400).json({ error: 'name query param required.' });
    const result = await pool.query('SELECT ...', [name.trim()]);
    const sessions = result.rows.map(row => ({ ... }));
    res.json({ sessions });
>> *)
Definition get_sessions (a : Archive) (name : QueryValue) : Outcome :=
  if negb (present name) then
    respond 400 (ErrorBody (str "name query param required."))
  else
    match query_trim "name" name with
    | Throw m => caught (str "Get sessions error:") m
    | Normal sent =>
        match select_sessions a sent QAbsent with
        | Throw m => caught (str "Get sessions error:") m
        | Normal result_rows =>
            respond 200 (SessionsBody (map view_of result_rows))
        end
    end.

(** [===] on two strings. *)
Fixpoint strict_equal (s t : jsstr) : bool :=
  match s, t with
  | [], [] => true
  | a :: s', b :: t' => N.eqb a b && strict_equal s' t'
  | _, _ => false
  end.

(** [process.env.MANAGER_PIN || '1234']. *)
Definition expected_pin (a : Archive) : jsstr :=
  match MANAGER_PIN a with
  | Some (c :: s) => c :: s
  | Some [] | None => str "1234"
  end.

(** [checkPin]: whether the request may pass; when it may not, the
    function has answered 401 itself. *)
Definition checkPin (a : Archive) (pin : QueryValue) : bool :=
  match pin with
  | QString s => strict_equal s (expected_pin a)
  | QAbsent | QNested => false
  end.

Definition invalid_pin : Outcome :=
  respond 401 (ErrorBody (str "Invalid PIN.")).

(** [GET /manager/reps]. *)
Definition get_manager_reps (a : Archive) (pin days : QueryValue) : Outcome :=
  if negb (checkPin a pin) then invalid_pin
  else
    match select_reps a days with
    | Throw m => caught (str "Manager reps error:") m
    | Normal result_rows =>
        respond 200 (RepsBody (map Manager.rep_stats result_rows))
    end.

(** [GET /manager/sessions]. *)
Definition get_manager_sessions (a : Archive) (pin rep days : QueryValue)
  : Outcome :=
  if negb (checkPin a pin) then invalid_pin
  else if negb (present rep) then
    respond 400 (ErrorBody (str "rep query param required."))
  else
    match query_trim "rep" rep with
    | Throw m => caught (str "Manager sessions error:") m
    | Normal sent =>
        match select_sessions a sent days with
        | Throw m => caught (str "Manager sessions error:") m
        | Normal result_rows =>
            respond 200 (SessionsBody (map view_of result_rows))
        end
    end.

End Sessions.

(* ================================================================== *)
(** * Notions the properties are stated with *)
(* ================================================================== *)

(** The state after a reload of the cache. *)
Definition reloaded (w : World) (st : State) : State :=
  {| conversationHistory := conversationHistory st;
     knowledgeCache :=
       Some {| ref := fresh st;
               rows := map prompt_row
                         (order_by uploaded_asc (knowledge_files (db st))) |};
     knowledgeCacheTime := Date_now w;
     db := record_statement SelectForPrompt (db st);
     fresh := S (fresh st) |}.

(** The state [post_knowledge_file] leaves after the store took a
    document of the name and content [name] and [text]. *)
Definition stored (w : World) (st : State) (name text : jsstr) : State :=
  {| conversationHistory := conversationHistory st;
     knowledgeCache := None;
     knowledgeCacheTime := knowledgeCacheTime st;
     db := {| knowledge_files :=
                knowledge_files (db st) ++
                [{| kf_id := knowledge_files_id_seq (db st);
                    kf_filename := name;
                    kf_content := text;
                    kf_uploaded_at := NOW w |}];
              knowledge_files_id_seq := (knowledge_files_id_seq (db st) + 1)%Z;
              executed := InsertFile name text :: executed (db st);
              int4in := int4in (db st) |};
     fresh := fresh st |}.

(** The labeled block of a document, with the truncation written as a
    prefix. *)
Definition labeled_block (f : PromptRow) : jsstr :=
  str "--- " ++ filename f ++ str " ---" ++ [LF] ++ firstn 3000 (content f).

(** Lists ordered by upload time, oldest first and newest first. *)
Definition oldest_first (l : list KnowledgeFile) : Prop :=
  StronglySorted (fun a b => (kf_uploaded_at a <= kf_uploaded_at b)%Z) l.

Definition newest_first (l : list KnowledgeFile) : Prop :=
  StronglySorted (fun a b => (kf_uploaded_at b <= kf_uploaded_at a)%Z) l.

(** The text occurs in an argument of a [console.error] call of the
    handler; the text occurs in the message the response carries. *)
Definition logged (text : jsstr) (o : Outcome) : bool :=
  existsb (existsb (includes text)) (console_error o).

Definition shown (text : jsstr) (o : Outcome) : bool :=
  match body (response o) with
  | ErrorBody m => includes text m
  | ChatBody m => includes text m
  | ScorecardBody m => includes text m
  | AnalysisBody _ | SuccessBody | CreatedBody _ | FilesBody _ => false
  end.

(** One step of the string reader of [JsonRef]: the unit [d] in front of
    what the rest of the literal reads as. *)
Definition continue_with (d : N) (r : option (jsstr * jsstr))
  : option (jsstr * jsstr) :=
  match r with
  | Some (t, rest) => Some (d :: t, rest)
  | None => None
  end.

(** What follows a value inside an object: [,] or [}]. *)
Definition closer (c : N) : Prop := c = 44%N \/ c = RBRACE.

(** The integers the reference parser reads (and a number holds)
    exactly, and the records whose numbers are such. *)
Definition in_range (z : Z) : Prop := (Z.abs z < 9007199254740992)%Z.

Definition readable (a : AnalysisRecord) : Prop :=
  in_range (overall a) /\ forall c, in_range (score (breakdown a c)).

(** ** Notions of the further properties *)

(** Every turn of the homeowner follows a turn of the rep directly;
    [after_rep] tells whether the turn before the list is the rep's. *)
Fixpoint replies_follow (after_rep : bool) (h : list Message) : bool :=
  match h with
  | [] => true
  | m :: h' =>
      match role m with
      | user => replies_follow true h'
      | assistant => after_rep && replies_follow false h'
      end
  end.

(** The rows a reload of the cache reads now. *)
Definition documents (st : State) : list PromptRow :=
  map prompt_row (order_by uploaded_asc (knowledge_files (db st))).

(** What the cache holds, when it holds something, is what the table
    holds now. *)
Definition cache_current (st : State) : Prop :=
  match knowledgeCache st with
  | Some c => rows c = documents st
  | None => True
  end.

(** The text has no [{] with a [}] after it. *)
Definition no_brace_pair (s : jsstr) : Prop :=
  forall pre mid post, s <> pre ++ LBRACE :: mid ++ RBRACE :: post.

(** The state after the requests of a list were served one after the
    other, each in the world it found: a request is answered before the
    next one arrives. A request that arrives while a handler awaits the
    store or the model is not among the runs this describes. *)
Definition serve (JSON_parse : Parser) (st : State)
    (requests : list (World * Request)) : State :=
  fold_left (fun st' wr => state (handle JSON_parse (fst wr) st' (snd wr)))
    requests st.

Definition is_chat (r : Request) : bool :=
  match r with
  | Chat _ => true
  | _ => false
  end.

(** Every surrogate of the text stands in a pair. *)
Fixpoint well_formed (s : jsstr) : bool :=
  match s with
  | [] => true
  | h :: t =>
      match t with
      | l :: r =>
          if is_pair h l then well_formed r
          else negb (is_surrogate h) && well_formed t
      | [] => negb (is_surrogate h)
      end
  end.


(** What the fence stage leaves of the text between the opening fence
    and the object: the text without a leading [json] and without the
    white space that follows. *)
Definition lead_of (tag : jsstr) : jsstr :=
  trimStart (if starts_with (str "json") tag then skipn 4 tag else tag).

(* ================================================================== *)
(** * Sample data for the closed examples *)
(* ================================================================== *)

Definition feedback_sample : Category -> CategoryFeedback :=
  fun _ => {| score := 70; feedback := str "Clear and friendly." |}.

Definition analysis_sample : AnalysisRecord :=
  {| overall := 80;
     breakdown := feedback_sample;
     summary := str "A solid first visit.";
     keyStrength := str "Warm opening.";
     keyImprovement := str "Ask for the inspection sooner." |}.

(** A record whose summary quotes a fenced snippet. *)
Definition analysis_quoting_fence : AnalysisRecord :=
  {| overall := 80;
     breakdown := feedback_sample;
     summary := str "Said " ++ FENCE ++ str "x" ++ FENCE ++ str " twice.";
     keyStrength := str "Warm opening.";
     keyImprovement := str "Ask for the inspection sooner." |}.

(** The reply of the specification's example: prose, a fenced block
    tagged [json], prose. *)
Definition fenced_reply : jsstr :=
  (str "Here you go:" ++ [LF]) ++ FENCE ++ str "json" ++ [LF] ++
  JSON_stringify analysis_sample ++ [LF] ++ FENCE ++ ([LF] ++ str "Thanks!").

(** Prose that itself uses braces. *)
Definition reply_with_braces : jsstr :=
  str "Scores {draft}: " ++ JSON_stringify analysis_sample.

Definition garbled : jsstr := str "garbled non-json text".

(** The integer input of a store that reads decimal text: white space,
    an optional sign, digits, white space. Any other text, and a value
    outside the 32 bits of the column, is rejected. *)
Definition is_c_space (c : N) : bool :=
  (N.leb 9 c && N.leb c 13) || N.eqb c 32.

Fixpoint decimal_value (digits : jsstr) (acc : Z) : option Z :=
  match digits with
  | [] => Some acc
  | c :: r =>
      if N.leb 48 c && N.leb c 57
      then decimal_value r (acc * 10 + Z.of_N (c - 48))
      else None
  end.

Definition int4in_decimal (text : jsstr) : Completion Z :=
  let body := rev (drop_while is_c_space (rev (drop_while is_c_space text))) in
  let refused :=
    Throw (str "invalid input syntax for type integer: " ++
           [QUOTE] ++ text ++ [QUOTE]) in
  let signed :=
    match body with
    | c :: digits =>
        if N.eqb c 45 then (true, digits)
        else if N.eqb c 43 then (false, digits)
        else (false, body)
    | [] => (false, body)
    end in
  match snd signed with
  | [] => refused
  | _ :: _ =>
      match decimal_value (snd signed) 0 with
      | None => refused
      | Some n =>
          let z := if fst signed then (- n)%Z else n in
          if (-2147483648 <=? z)%Z && (z <=? 2147483647)%Z then Normal z
          else Throw (str "value " ++ [QUOTE] ++ text ++ [QUOTE] ++
                      str " is out of range for type integer")
      end
  end.

(** A conversation of one turn, and a world whose model answers every
    call with [reply]. *)
Definition one_turn : State :=
  with_history (boot {| knowledge_files := [];
                        knowledge_files_id_seq := 1;
                        executed := [];
                        int4in := int4in_decimal |})
    [{| role := user; content_of := str "Hi, I am with Summit Roofing." |}].

Definition world_replying (reply : jsstr) : World :=
  {| Date_now := 0; NOW := 0; store_error := None;
     messages_create := fun _ _ => Normal reply |}.

(** A store with two documents, and worlds that differ in their
    clocks only. *)
Definition two_files : Database :=
  {| knowledge_files :=
       [ {| kf_id := 2; kf_filename := str "pricing.txt";
            kf_content := str "Never quote a price at the door.";
            kf_uploaded_at := 200 |};
         {| kf_id := 1; kf_filename := str "script.txt";
            kf_content := str "Introduce yourself and the company first.";
            kf_uploaded_at := 100 |} ];
     knowledge_files_id_seq := 3;
     executed := [];
     int4in := int4in_decimal |}.

Definition world_at (ms : Z) : World :=
  {| Date_now := ms; NOW := ms; store_error := None;
     messages_create := fun _ _ => Normal (str "Not interested.") |}.




Unset Implicit Arguments.

(* ================================================================== *)
(** * Properties: strings *)
(* ================================================================== *)

Section StringFacts.

Lemma starts_with_app (p s : jsstr) : starts_with p (p ++ s) = true.
Proof.
  induction p as [|a p IH]; simpl; [reflexivity|].
  now rewrite N.eqb_refl, IH.
Qed.

Lemma starts_with_split (p s : jsstr) :
  starts_with p s = true -> s = p ++ skipn (length p) s.
Proof.
  revert s; induction p as [|a p IH]; intros [|b s]; simpl; try easy.
  intros H. apply andb_true_iff in H as [Hab Hp].
  apply N.eqb_eq in Hab. subst b. f_equal. now apply IH.
Qed.

Lemma includes_head (s t : jsstr) :
  starts_with s t = true -> includes s t = true.
Proof. intros H. destruct t; simpl; now rewrite H. Qed.

Lemma includes_occurs (s t : jsstr) :
  includes s t = true <-> occurs s t.
Proof.
  split.
  - induction t as [|c t IH]; simpl; intros H.
    + rewrite orb_false_r in H. exists [], (skipn (length s) []).
      now apply starts_with_split.
    + apply orb_true_iff in H as [H|H].
      * exists [], (skipn (length s) (c :: t)). now apply starts_with_split.
      * destruct (IH H) as (pre & post & ->). now exists (c :: pre), post.
  - intros (pre & post & ->).
    induction pre as [|c pre IH]; simpl.
    + apply includes_head, starts_with_app.
    + now rewrite IH, orb_true_r.
Qed.

Lemma includes_inside (s a t b : jsstr) :
  includes s (a ++ t ++ b) = false -> includes s t = false.
Proof.
  intros H. destruct (includes s t) eqn:E; [|reflexivity].
  apply includes_occurs in E as (pre & post & ->).
  assert (includes s (a ++ (pre ++ s ++ post) ++ b) = true) as H'.
  { apply includes_occurs. exists (a ++ pre), (post ++ b).
    now rewrite <- !app_assoc. }
  congruence.
Qed.

Lemma includes_cons_false (s : jsstr) (c : N) (t : jsstr) :
  includes s (c :: t) = false ->
  starts_with s (c :: t) = false /\ includes s t = false.
Proof. simpl. intros H. now apply orb_false_iff in H. Qed.

Lemma drop_while_stop (P : N -> bool) (pre : jsstr) (x : N) (r : jsstr) :
  P x = false ->
  drop_while P (pre ++ x :: r) = drop_while P pre ++ x :: r.
Proof.
  intros Hx. induction pre as [|c pre IH]; simpl.
  - now rewrite Hx.
  - destruct (P c); [exact IH | reflexivity].
Qed.

Lemma drop_while_all (P : N -> bool) (ws : jsstr) :
  forallb P ws = true -> drop_while P ws = [].
Proof.
  induction ws as [|c ws IH]; simpl; [reflexivity|].
  intros H. apply andb_true_iff in H as [Hc Hws]. now rewrite Hc, IH.
Qed.

Lemma drop_while_suffix (P : N -> bool) (s : jsstr) :
  exists dropped, s = dropped ++ drop_while P s.
Proof.
  induction s as [|c s [d IH]]; simpl.
  - now exists [].
  - destruct (P c).
    + exists (c :: d). simpl. now f_equal.
    + now exists [].
Qed.

Lemma forallb_drop_while (Q P : N -> bool) (s : jsstr) :
  forallb Q s = true -> forallb Q (drop_while P s) = true.
Proof.
  intros H. destruct (drop_while_suffix P s) as [d E].
  rewrite E, forallb_app in H. now apply andb_true_iff in H.
Qed.

Lemma trimEnd_stop (s : jsstr) (y : N) (post : jsstr) :
  is_space y = false ->
  trimEnd (s ++ y :: post) = s ++ y :: trimEnd post.
Proof.
  intros Hy. unfold trimEnd.
  rewrite rev_app_distr. simpl. rewrite <- app_assoc. simpl.
  rewrite drop_while_stop by exact Hy.
  rewrite rev_app_distr. simpl. rewrite rev_involutive.
  now rewrite <- app_assoc.
Qed.

Lemma forallb_trimEnd (Q : N -> bool) (s : jsstr) :
  forallb Q s = true -> forallb Q (trimEnd s) = true.
Proof.
  intros H. unfold trimEnd.
  rewrite forallb_forall in *. intros x Hx. apply H.
  apply in_rev in Hx.
  destruct (drop_while_suffix is_space (rev s)) as [d E].
  apply in_rev. rewrite E. apply in_or_app. now right.
Qed.

(** Trimming a text whose core starts and ends off white space trims the
    text around the core. *)
Lemma trim_around (pre : jsstr) (x : N) (mid : jsstr) (y : N) (post : jsstr) :
  is_space x = false -> is_space y = false ->
  trim (pre ++ (x :: mid ++ [y]) ++ post)
  = trimStart pre ++ (x :: mid ++ [y]) ++ trimEnd post.
Proof.
  intros Hx Hy. unfold trim, trimStart. simpl.
  rewrite drop_while_stop by exact Hx.
  replace (drop_while is_space pre ++ x :: (mid ++ [y]) ++ post)
    with ((drop_while is_space pre ++ x :: mid) ++ y :: post)
    by (rewrite <- !app_assoc; reflexivity).
  rewrite trimEnd_stop by exact Hy.
  now rewrite <- !app_assoc.
Qed.

Lemma braced_inv (J : jsstr) :
  braced J = true -> exists mid, J = LBRACE :: mid ++ [RBRACE].
Proof.
  destruct J as [|c r]; simpl; [easy|].
  intros H. apply andb_true_iff in H as [Hc Hr].
  apply N.eqb_eq in Hc. subst c.
  destruct (rev r) as [|d t] eqn:E; [easy|].
  apply N.eqb_eq in Hr. subst d.
  exists (rev t). rewrite <- (rev_involutive r), E. reflexivity.
Qed.

End StringFacts.

(* ================================================================== *)
(** * Properties: the two patterns *)
(* ================================================================== *)

Section RegExpFacts.

Import RegExp.

Lemma lit_spec (l s : jsstr) (cap : option jsstr) (k : Continuation) :
  lit l s cap k
  = if starts_with l s then k (skipn (length l) s) cap else None.
Proof.
  revert s; induction l as [|a l IH]; intros s; simpl; [reflexivity|].
  unfold seq, char. destruct s as [|b s]; [reflexivity|].
  destruct (N.eqb a b); simpl; [apply IH | reflexivity].
Qed.

Lemma lit_app (l s : jsstr) (cap : option jsstr) (k : Continuation) :
  lit l (l ++ s) cap k = k s cap.
Proof.
  rewrite lit_spec, starts_with_app.
  now rewrite skipn_app, skipn_all, Nat.sub_diag.
Qed.

(** A greedy star over a run of the class that ends at [x] takes the
    whole run when the continuation accepts there. *)
Lemma star_run (P : N -> bool) (ws : jsstr) (x : N) (s : jsstr)
    (cap : option jsstr) (k : Continuation) (r : MatchResult) :
  forallb P ws = true -> P x = false ->
  k (x :: s) cap = Some r ->
  star P (ws ++ x :: s) cap k = Some r.
Proof.
  intros Hws Hx Hk. induction ws as [|c ws IH]; simpl.
  - now rewrite Hx.
  - simpl in Hws. apply andb_true_iff in Hws as [Hc Hws].
    now rewrite Hc, IH.
Qed.

(** [C*l] fails where [l] does not follow the run of [C]. *)
Lemma star_lit_fails (P : N -> bool) (a : N) (l s : jsstr)
    (cap : option jsstr) (k : Continuation) :
  P a = false ->
  starts_with (a :: l) (drop_while P s) = false ->
  star P s cap (fun s' cap' => lit (a :: l) s' cap' k) = None.
Proof.
  intros Ha. induction s as [|c s IH]; cbn [star drop_while]; intros H.
  - reflexivity.
  - destruct (P c) eqn:Hc.
    + rewrite (IH H). cbn [lit]. unfold seq, char.
      destruct (N.eqb_spec a c) as [->|_]; [congruence | reflexivity].
    + now rewrite lit_spec, H.
Qed.

(** A lazy plus stops at the first position where the continuation
    accepts. *)
Lemma plus_lazy_first (x rest : jsstr) (cap : option jsstr)
    (k : Continuation) (r : MatchResult) :
  x <> [] ->
  (forall p q, x = p ++ q -> p <> [] -> q <> [] -> k (q ++ rest) cap = None) ->
  k rest cap = Some r ->
  plus_lazy any (x ++ rest) cap k = Some r.
Proof.
  induction x as [|c x IH]; [easy|]. intros _ Hnone Hk. simpl.
  destruct x as [|d x].
  - simpl. now rewrite Hk.
  - rewrite (Hnone [c] (d :: x)) by easy.
    apply IH; [easy | | exact Hk].
    intros p q E Hp Hq. apply (Hnone (c :: p) q); [now rewrite E | easy | easy].
Qed.

Lemma exec_here (m : Matcher) (s e : jsstr) (cap : option jsstr) :
  m s None accept = Some (e, cap) ->
  exec m s = Some (firstn (length s - length e) s, cap).
Proof. intros H. destruct s; simpl; now rewrite H. Qed.

Lemma exec_skip (m : Matcher) (pre s : jsstr) :
  (forall p c q, pre = p ++ c :: q -> m (c :: q ++ s) None accept = None) ->
  exec m (pre ++ s) = exec m s.
Proof.
  induction pre as [|c pre IH]; intros H; [reflexivity|].
  simpl. rewrite (H [] c pre eq_refl).
  apply IH. intros p c' q E. apply (H (c :: p) c' q). now rewrite E.
Qed.

Lemma exec_none (m : Matcher) (s : jsstr) :
  (forall p q, s = p ++ q -> m q None accept = None) ->
  exec m s = None.
Proof.
  induction s as [|c s IH]; intros H; simpl.
  - now rewrite (H [] []).
  - rewrite (H [] (c :: s) eq_refl). apply IH.
    intros p q E. apply (H (c :: p) q). now rewrite E.
Qed.


Lemma star_any_lit_fails (a : N) (post : jsstr) (cap : option jsstr)
    (k : Continuation) :
  without a post = true ->
  star any post cap (fun s' cap' => lit [a] s' cap' k) = None.
Proof.
  induction post as [|c post IH]; cbn [star without forallb any]; intros H.
  - reflexivity.
  - apply andb_true_iff in H as [Hc Hpost].
    rewrite (IH Hpost). cbn [lit]. unfold seq, char.
    rewrite N.eqb_sym. now destruct (N.eqb c a).
Qed.

(** [[\s\S]*a] ends at the last [a]. *)
Lemma star_any_last (a : N) (x post : jsstr) (cap : option jsstr)
    (k : Continuation) (r : MatchResult) :
  without a post = true ->
  k post cap = Some r ->
  star any (x ++ a :: post) cap (fun s' cap' => lit [a] s' cap' k) = Some r.
Proof.
  intros Hpost Hk. induction x as [|c x IH]; cbn [star app any].
  - rewrite (star_any_lit_fails a post cap k Hpost).
    cbn [lit]. unfold seq, char. now rewrite N.eqb_refl.
  - now rewrite IH.
Qed.

Lemma firstn_minus {A} (x rest : list A) :
  firstn (length (x ++ rest) - length rest) (x ++ rest) = x.
Proof.
  rewrite length_app, Nat.add_sub.
  now rewrite firstn_app, Nat.sub_diag, firstn_all, app_nil_r.
Qed.

(** The brace pattern finds the text from the first [{] to the last
    [}]. *)
Lemma braces_match (pre mid post : jsstr) :
  without LBRACE pre = true ->
  without RBRACE post = true ->
  exec braces_re (pre ++ (LBRACE :: mid ++ [RBRACE]) ++ post)
  = Some (LBRACE :: mid ++ [RBRACE], None).
Proof.
  intros Hpre Hpost. rewrite exec_skip.
  - rewrite (exec_here braces_re _ post None).
    + now rewrite firstn_minus.
    + unfold braces_re, seq. cbn [lit app]. unfold seq, char.
      rewrite N.eqb_refl. rewrite <- app_assoc. cbn [app].
      now apply star_any_last.
  - intros p c q E. unfold braces_re, seq. cbn [lit]. unfold seq, char.
    unfold without in Hpre. rewrite E, forallb_app in Hpre.
    apply andb_true_iff in Hpre as [_ Hc]. simpl in Hc.
    apply andb_true_iff in Hc as [Hc _].
    rewrite N.eqb_sym. now destruct (N.eqb c LBRACE).
Qed.

Lemma candidate_of_braced (pre J post : jsstr) :
  braced J = true ->
  without LBRACE pre = true ->
  without RBRACE post = true ->
  candidate_of (pre ++ J ++ post) = J.
Proof.
  intros HJ Hpre Hpost. apply braced_inv in HJ as [mid ->].
  unfold candidate_of. now rewrite braces_match.
Qed.

(** Where the fence pattern cannot close inside the JSON text. *)
Lemma fence_not_inside (mid p q rest : jsstr) :
  includes FENCE (LBRACE :: mid ++ [RBRACE]) = false ->
  LBRACE :: mid ++ [RBRACE] = p ++ q -> q <> [] ->
  starts_with FENCE (drop_while space (q ++ rest)) = false.
Proof.
  intros Hno E Hq.
  destruct (exists_last Hq) as (q0 & y & ->).
  assert (y = RBRACE) as ->.
  { rewrite app_assoc in E. change (LBRACE :: mid ++ [RBRACE])
      with ((LBRACE :: mid) ++ [RBRACE]) in E.
    now apply app_inj_tail in E as [_ <-]. }
  rewrite <- app_assoc. cbn [app].
  rewrite drop_while_stop by reflexivity.
  destruct (drop_while_suffix space q0) as [d Ed].
  destruct (drop_while space q0) as [|a [|b [|c q']]] eqn:Eq.
  - reflexivity.
  - cbn. now rewrite andb_false_r.
  - cbn. now rewrite !andb_false_r.
  - destruct (starts_with FENCE ((a :: b :: c :: q') ++ RBRACE :: rest)) eqn:Es;
      [|reflexivity].
    exfalso. unfold FENCE in Es. cbn [starts_with app] in Es.
    apply andb_true_iff in Es as [Ha Es]. apply andb_true_iff in Es as [Hb Es].
    apply andb_true_iff in Es as [Hc _].
    apply N.eqb_eq in Ha, Hb, Hc. subst a b c.
    assert (includes FENCE (LBRACE :: mid ++ [RBRACE]) = true) as Hyes.
    { apply includes_occurs. exists (p ++ d), (q' ++ [RBRACE]).
      rewrite E, Ed. unfold FENCE. now rewrite <- !app_assoc. }
    congruence.
Qed.

(** The capture group and the closing fence. *)
Lemma fence_body (mid ws2 post : jsstr) (cap : option jsstr) :
  includes FENCE (LBRACE :: mid ++ [RBRACE]) = false ->
  all_space ws2 = true ->
  group (plus_lazy any)
    ((LBRACE :: mid ++ [RBRACE]) ++ ws2 ++ FENCE ++ post) cap
    (fun s' cap' => star space s' cap'
       (fun s'' cap'' => lit FENCE s'' cap'' accept))
  = Some (post, Some (LBRACE :: mid ++ [RBRACE])).
Proof.
  intros Hno Hws. unfold group.
  apply plus_lazy_first; [easy | |].
  - intros p q E _ Hq.
    apply star_lit_fails; [reflexivity|].
    now apply fence_not_inside with (mid := mid) (p := p).
  - rewrite firstn_minus. unfold FENCE at 1. cbn [app].
    apply star_run; [exact Hws | reflexivity |].
    now rewrite (lit_app FENCE post).
Qed.

Lemma space_not (c a : N) : is_space c = true -> is_space a = false -> N.eqb a c = false.
Proof. intros Hc Ha. destruct (N.eqb_spec a c) as [->|]; congruence. Qed.

(** The fence pattern on a fenced block. *)
Lemma fence_match (tag ws1 mid ws2 post : jsstr) :
  tag = [] \/ tag = str "json" ->
  all_space ws1 = true -> all_space ws2 = true ->
  includes FENCE (LBRACE :: mid ++ [RBRACE]) = false ->
  fence_re
    (FENCE ++ tag ++ ws1 ++ (LBRACE :: mid ++ [RBRACE]) ++ ws2 ++ FENCE ++ post)
    None accept
  = Some (post, Some (LBRACE :: mid ++ [RBRACE])).
Proof.
  intros Htag Hws1 Hws2 Hno.
  assert (forall cap,
    star space (ws1 ++ (LBRACE :: mid ++ [RBRACE]) ++ ws2 ++ FENCE ++ post) cap
      (fun s' cap' =>
         group (plus_lazy any) s' cap'
           (fun s'' cap'' => star space s'' cap''
              (fun s3 cap3 => lit FENCE s3 cap3 accept)))
    = Some (post, Some (LBRACE :: mid ++ [RBRACE]))) as Hrest.
  { intros cap. cbn [app].
    apply star_run; [exact Hws1 | reflexivity |].
    now apply (fence_body mid ws2 post cap). }
  unfold fence_re, seq. rewrite lit_app. unfold opt.
  destruct Htag as [-> | ->].
  - rewrite app_nil_l, lit_spec.
    assert (starts_with (str "json")
              (ws1 ++ (LBRACE :: mid ++ [RBRACE]) ++ ws2 ++ FENCE ++ post)
            = false) as ->.
    { destruct ws1 as [|c ws1]; [reflexivity|].
      cbn [all_space forallb] in Hws1. apply andb_true_iff in Hws1 as [Hc _].
      change (str "json") with [106; 115; 111; 110]%N.
      cbn [starts_with app].
      now rewrite (space_not c 106%N Hc eq_refl). }
    apply Hrest.
  - rewrite lit_app. now rewrite Hrest.
Qed.

Lemma jsonStr_of_fenced (pre tag ws1 J ws2 post : jsstr) :
  braced J = true ->
  includes FENCE J = false ->
  tag = [] \/ tag = str "json" ->
  all_space ws1 = true -> all_space ws2 = true ->
  without BACKTICK pre = true ->
  jsonStr_of (pre ++ FENCE ++ tag ++ ws1 ++ J ++ ws2 ++ FENCE ++ post) = J.
Proof.
  intros HJ Hno Htag Hws1 Hws2 Hpre. apply braced_inv in HJ as [mid ->].
  unfold jsonStr_of. rewrite exec_skip.
  - now rewrite (exec_here fence_re _ post (Some (LBRACE :: mid ++ [RBRACE])))
      by now apply fence_match.
  - intros p c q E. unfold fence_re, seq, FENCE. cbn [lit]. unfold seq, char.
    unfold without in Hpre. rewrite E, forallb_app in Hpre.
    apply andb_true_iff in Hpre as [_ Hc]. simpl in Hc.
    apply andb_true_iff in Hc as [Hc _].
    rewrite N.eqb_sym. now destruct (N.eqb c BACKTICK).
Qed.

Lemma jsonStr_of_unfenced (raw : jsstr) :
  includes FENCE raw = false -> jsonStr_of raw = raw.
Proof.
  intros Hno. unfold jsonStr_of. rewrite exec_none; [reflexivity|].
  intros p q ->. unfold fence_re, seq. rewrite lit_spec.
  assert (includes FENCE q = false) as Hq.
  { apply (includes_inside FENCE p q []). now rewrite app_nil_r. }
  destruct q as [|c q]; [reflexivity|].
  now apply includes_cons_false in Hq as [-> _].
Qed.

End RegExpFacts.

(* ================================================================== *)
(** * Properties: the reference parser inverts [JSON.stringify] *)
(* ================================================================== *)

Section ReferenceRoundTrip.

Import JsonRef JsonText.

Lemma hex_digit_value (n : N) :
  (n < 16)%N -> hex_value (hex_digit n) = Some n.
Proof.
  intros H. destruct n as [|p]; [reflexivity|].
  do 4 (destruct p as [p|p|]; try reflexivity); lia.
Qed.

Lemma unicode_escape_value (c : N) :
  (c < 65536)%N ->
  exists h1 h2 h3 h4 a b c' d,
    unicode_escape c = [92; 117; h1; h2; h3; h4]%N
    /\ hex_value h1 = Some a /\ hex_value h2 = Some b
    /\ hex_value h3 = Some c' /\ hex_value h4 = Some d
    /\ (((a * 16 + b) * 16 + c') * 16 + d)%N = c.
Proof.
  intros H. unfold unicode_escape.
  exists (hex_digit (c / 4096)), (hex_digit ((c / 256) mod 16)),
         (hex_digit ((c / 16) mod 16)), (hex_digit (c mod 16)).
  exists (c / 4096)%N, ((c / 256) mod 16)%N, ((c / 16) mod 16)%N, (c mod 16)%N.
  split; [reflexivity|].
  repeat split; try (apply hex_digit_value).
  - apply N.Div0.div_lt_upper_bound. lia.
  - now apply N.mod_lt.
  - now apply N.mod_lt.
  - now apply N.mod_lt.
  - zify. Z.to_euclidean_division_equations. lia.
Qed.

Lemma string_body_raw (c : N) (r : jsstr) :
  N.eqb c 34 = false -> N.ltb c 32 = false -> N.eqb c 92 = false ->
  string_body (c :: r) = continue_with c (string_body r).
Proof. intros H1 H2 H3. cbn [string_body]. now rewrite H1, H2, H3. Qed.

Lemma string_body_short (e d : N) (r : jsstr) :
  In (e, d) [(34, 34); (92, 92); (98, 8); (102, 12); (110, 10);
             (114, 13); (116, 9)]%N ->
  string_body (92%N :: e :: r) = continue_with d (string_body r).
Proof.
  intros H. repeat (destruct H as [E | H]; [injection E as <- <-; reflexivity|]).
  destruct H.
Qed.

Lemma string_body_unicode (h1 h2 h3 h4 a b c d : N) (r : jsstr) :
  hex_value h1 = Some a -> hex_value h2 = Some b ->
  hex_value h3 = Some c -> hex_value h4 = Some d ->
  string_body (92 :: 117 :: h1 :: h2 :: h3 :: h4 :: r)%N
  = continue_with (((a * 16 + b) * 16 + c) * 16 + d)%N (string_body r).
Proof.
  intros H1 H2 H3 H4. cbn -[hex_value N.mul N.add].
  now rewrite H1, H2, H3, H4.
Qed.

Lemma string_body_escaped (c : N) (r : jsstr) :
  (c < 65536)%N ->
  string_body (unicode_escape c ++ r) = continue_with c (string_body r).
Proof.
  intros H.
  destruct (unicode_escape_value c H)
    as (h1 & h2 & h3 & h4 & a & b & c' & d & -> & H1 & H2 & H3 & H4 & <-).
  cbn [app]. now apply string_body_unicode.
Qed.

Lemma surrogate_raw (c : N) :
  is_high_surrogate c = true \/ is_low_surrogate c = true ->
  N.eqb c 34 = false /\ N.ltb c 32 = false /\ N.eqb c 92 = false
  /\ (c < 65536)%N.
Proof.
  unfold is_high_surrogate, is_low_surrogate. intros H.
  assert (55296 <= c <= 57343)%N as Hc.
  { destruct H as [H|H]; apply andb_true_iff in H as [H1 H2];
      apply N.leb_le in H1, H2; lia. }
  repeat split; try (apply N.eqb_neq; lia); try (apply N.ltb_ge; lia); lia.
Qed.

(** The string reader inverts the quoting of [JSON.stringify]. *)
Lemma string_body_quote_units :
  forall (n : nat) (s : jsstr), length s <= n ->
  forall rest, string_body (quote_units s ++ QUOTE :: rest) = Some (s, rest).
Proof.
  induction n as [|n IH]; intros s Hlen rest.
  - destruct s; [reflexivity | cbn in Hlen; lia].
  - destruct s as [|c r]; [reflexivity|].
    cbn [length] in Hlen.
    assert (forall rest', string_body (quote_units r ++ QUOTE :: rest')
                          = Some (r, rest')) as IHr by (apply IH; lia).
    cbn [quote_units].
    destruct (N.eqb c 8) eqn:E8;
      [apply N.eqb_eq in E8; subst c; cbn [app];
       rewrite (string_body_short 98 8) by (cbn; tauto); now rewrite IHr|].
    destruct (N.eqb c 9) eqn:E9;
      [apply N.eqb_eq in E9; subst c; cbn [app];
       rewrite (string_body_short 116 9) by (cbn; tauto); now rewrite IHr|].
    destruct (N.eqb c 10) eqn:E10;
      [apply N.eqb_eq in E10; subst c; cbn [app];
       rewrite (string_body_short 110 10) by (cbn; tauto); now rewrite IHr|].
    destruct (N.eqb c 12) eqn:E12;
      [apply N.eqb_eq in E12; subst c; cbn [app];
       rewrite (string_body_short 102 12) by (cbn; tauto); now rewrite IHr|].
    destruct (N.eqb c 13) eqn:E13;
      [apply N.eqb_eq in E13; subst c; cbn [app];
       rewrite (string_body_short 114 13) by (cbn; tauto); now rewrite IHr|].
    destruct (N.eqb c 34) eqn:E34;
      [apply N.eqb_eq in E34; subst c; cbn [app];
       rewrite (string_body_short 34 34) by (cbn; tauto); now rewrite IHr|].
    destruct (N.eqb c 92) eqn:E92;
      [apply N.eqb_eq in E92; subst c; cbn [app];
       rewrite (string_body_short 92 92) by (cbn; tauto); now rewrite IHr|].
    destruct (N.ltb c 32) eqn:E32.
    { rewrite <- app_assoc, string_body_escaped, IHr; [reflexivity|].
      apply N.ltb_lt in E32. lia. }
    destruct (is_high_surrogate c) eqn:Ehigh.
    { destruct (surrogate_raw c (or_introl Ehigh)) as (_ & _ & _ & Hc).
      destruct r as [|l r'].
      - now rewrite string_body_escaped.
      - destruct (is_low_surrogate l) eqn:Elow.
        + destruct (surrogate_raw l (or_intror Elow)) as (L1 & L2 & L3 & _).
          cbn [app].
          rewrite (string_body_raw c) by assumption.
          rewrite (string_body_raw l) by assumption.
          rewrite (IH r') by (cbn [length] in Hlen; lia). reflexivity.
        + rewrite <- app_assoc, string_body_escaped, IHr; [reflexivity|exact Hc]. }
    destruct (is_low_surrogate c) eqn:Elow.
    { destruct (surrogate_raw c (or_intror Elow)) as (_ & _ & _ & Hc).
      now rewrite <- app_assoc, string_body_escaped, IHr. }
    cbn [app]. rewrite (string_body_raw c) by assumption.
    now rewrite IHr.
Qed.

Lemma string_body_quote (s rest : jsstr) :
  string_body (quote_units s ++ QUOTE :: rest) = Some (s, rest).
Proof. now apply (string_body_quote_units (length s)). Qed.


Lemma digits_acc (d : Decimal.uint) :
  forall (acc : positive) (n : nat) (sep : N) (more : jsstr),
    closer sep ->
    digits (uint_units d ++ sep :: more) (Zpos acc) n
    = (Zpos (Pos.of_uint_acc d acc), n + Decimal.nb_digits d, sep :: more).
Proof.
  induction d; intros acc n sep more Hsep;
    cbn [uint_units app Decimal.nb_digits Pos.of_uint_acc].
  1: destruct Hsep as [-> | ->]; cbn; now rewrite Nat.add_0_r.
  all: cbn [digits is_digit]; cbn -[digits Z.mul Z.add Pos.mul Pos.add];
    rewrite <- Nat.add_succ_comm, <- IHd by exact Hsep; f_equal; lia.
Qed.

(** The numeral of a positive number has no leading zero. *)
Lemma to_uint_head (p : positive) :
  match Pos.to_uint p with
  | Decimal.Nil | Decimal.D0 _ => False
  | _ => True
  end.
Proof.
  pose proof (DecimalPos.Unsigned.to_uint_nonzero p) as Hnz.
  pose proof (DecimalPos.Unsigned.to_of (Pos.to_uint p)) as E.
  rewrite DecimalPos.Unsigned.of_to in E. cbn [N.to_uint] in E.
  destruct (Pos.to_uint p) as [|d| | | | | | | | | ] eqn:Ed; try exact I.
  - now apply (DecimalPos.Unsigned.to_uint_nonnil p).
  - rewrite DecimalFacts.unorm_D0 in E.
    destruct (Decimal.nzhead d) eqn:Eh.
    1: { unfold Decimal.unorm in E. rewrite Eh in E.
         injection E as E. subst d. now apply Hnz. }
    all: rewrite (DecimalFacts.unorm_nzhead d) in E by (rewrite Eh; discriminate);
      now apply (DecimalFacts.nzhead_nonzero d d).
Qed.

(** The number reader on the numeral of a positive number. *)
Lemma number_numeral (negative : bool) (p : positive) (sep : N)
    (more : jsstr) :
  closer sep ->
  (Zpos p < 9007199254740992)%Z ->
  JsonRef.number negative (uint_units (Pos.to_uint p) ++ sep :: more)
  = Some (JNum (if negative then PrimFloat.opp (Z2F (Zpos p))
                else Z2F (Zpos p)),
          sep :: more)
  /\ exists c t, uint_units (Pos.to_uint p) = c :: t /\ is_digit c = true.
Proof.
  intros Hsep Hp.
  pose proof (to_uint_head p) as Hhead.
  pose proof (DecimalPos.Unsigned.of_to p) as Hof.
  assert ((9007199254740992 <=? Zpos p)%Z = false) as Hbound
    by (apply Z.leb_gt; exact Hp).
  destruct (Pos.to_uint p) as [|d|d|d|d|d|d|d|d|d|d] eqn:Ed;
    try contradiction.
  all: cbn [Pos.of_uint] in Hof; injection Hof as Hof.
  all: split; [|eexists; eexists; split; [reflexivity | reflexivity]].
  all: unfold JsonRef.number; cbn [uint_units app is_digit].
  all: cbn -[digits Z2F Z.leb Nat.ltb].
  all: cbn [digits is_digit]; cbn -[digits Z2F Z.leb Nat.ltb].
  all: rewrite (digits_acc d _ _ sep more Hsep), Hof, Hbound.
  all: destruct Hsep as [-> | ->]; cbn -[Z2F]; now rewrite ?orb_false_r.
Qed.

Lemma digit_first (c : N) :
  is_digit c = true ->
  is_json_ws c = false /\ N.eqb c 123 = false /\ N.eqb c 91 = false
  /\ N.eqb c 34 = false /\ N.eqb c 45 = false.
Proof.
  unfold is_digit, is_json_ws. intros H.
  apply andb_true_iff in H as [H1 H2]. apply N.leb_le in H1, H2.
  repeat split; rewrite ?orb_false_iff; repeat split; apply N.eqb_neq; lia.
Qed.

Lemma value_number (f : nat) (z : Z) (sep : N) (more : jsstr) :
  closer sep -> in_range z ->
  value (S f) (JsonText.number z ++ sep :: more)
  = Some (JNum (Z2F z), sep :: more).
Proof.
  intros Hsep Hz. unfold in_range in Hz. destruct z as [|p|p].
  - destruct Hsep as [-> | ->]; reflexivity.
  - destruct (number_numeral false p sep more Hsep) as (Hn & c & t & E & Hc);
      [lia|].
    cbn [JsonText.number]. rewrite E in Hn |- *.
    destruct (digit_first c Hc) as (W & B1 & B2 & B3 & B4).
    cbn [value app drop_while]. now rewrite W, B1, B2, B3, B4, Hc.
  - destruct (number_numeral true p sep more Hsep) as (Hn & _); [lia|].
    cbn [JsonText.number app]. cbn [value drop_while].
    change (is_json_ws 45) with false. cbv iota.
    change (N.eqb 45 123) with false. change (N.eqb 45 91) with false.
    change (N.eqb 45 34) with false. change (N.eqb 45 45) with true.
    cbv iota. now rewrite Hn.
Qed.

Lemma value_string (f : nat) (s rest : jsstr) :
  value (S f) (quote s ++ rest) = Some (JStr s, rest).
Proof.
  unfold quote. rewrite <- !app_assoc. cbn [app value drop_while].
  change (is_json_ws QUOTE) with false. cbv iota.
  change (N.eqb QUOTE 123) with false. change (N.eqb QUOTE 91) with false.
  change (N.eqb QUOTE 34) with true. cbv iota.
  now rewrite string_body_quote.
Qed.

Lemma member_head (key text more : jsstr) :
  member key text ++ more
  = QUOTE :: quote_units key ++ QUOTE :: 58%N :: text ++ more.
Proof. unfold member, quote. now rewrite <- !app_assoc. Qed.

(** The last member of an object, and a member before others. *)
Lemma members_last (f : nat) (key text : jsstr) (v : json) (rest : jsstr) :
  value f (text ++ RBRACE :: rest) = Some (v, RBRACE :: rest) ->
  members (S f) (member key text ++ RBRACE :: rest) = Some ([(key, v)], rest).
Proof.
  intros Hv. rewrite member_head. cbn [members].
  change (N.eqb QUOTE 34) with true. cbv iota.
  rewrite string_body_quote. cbn [drop_while].
  change (is_json_ws 58) with false. cbv iota.
  change (N.eqb 58 58) with true. cbv iota. rewrite Hv. cbn [drop_while].
  change (is_json_ws RBRACE) with false. cbv iota.
  now change (N.eqb RBRACE 125) with true.
Qed.

Lemma members_cons (f : nat) (key text : jsstr) (v : json)
    (key' text' more : jsstr) (ms : list (jsstr * json)) (rest : jsstr) :
  value f (text ++ 44%N :: member key' text' ++ more)
  = Some (v, 44%N :: member key' text' ++ more) ->
  members f (member key' text' ++ more) = Some (ms, rest) ->
  members (S f) (member key text ++ 44%N :: member key' text' ++ more)
  = Some ((key, v) :: ms, rest).
Proof.
  intros Hv Hms. rewrite (member_head key). cbn [members].
  change (N.eqb QUOTE 34) with true. cbv iota.
  rewrite string_body_quote. cbn [drop_while].
  change (is_json_ws 58) with false. cbv iota.
  change (N.eqb 58 58) with true. cbv iota. rewrite Hv. cbn [drop_while].
  change (is_json_ws 44) with false. cbv iota.
  change (N.eqb 44 125) with false. change (N.eqb 44 44) with true. cbv iota.
  assert (drop_while is_json_ws (member key' text' ++ more)
          = member key' text' ++ more) as ->
    by (rewrite member_head; reflexivity).
  now rewrite Hms.
Qed.

Lemma value_object (f : nat) (key text more : jsstr)
    (ms : list (jsstr * json)) (rest : jsstr) :
  members f (member key text ++ more) = Some (ms, rest) ->
  value (S f) (LBRACE :: member key text ++ more) = Some (JObj ms, rest).
Proof.
  intros Hms. cbn [value drop_while].
  change (is_json_ws LBRACE) with false. cbv iota.
  change (N.eqb LBRACE 123) with true. cbv iota.
  assert (exists body, member key text ++ more = QUOTE :: body) as [body E]
    by (rewrite member_head; eauto).
  rewrite E in Hms |- *. cbn [drop_while].
  change (is_json_ws QUOTE) with false. cbv iota.
  change (N.eqb QUOTE 125) with false. cbv iota. now rewrite Hms.
Qed.


Lemma value_feedback (f : nat) (fb : CategoryFeedback) (rest : jsstr) :
  in_range (score fb) ->
  value (4 + f) (feedback_text fb ++ rest) = Some (feedback_value fb, rest).
Proof.
  intros Hs. unfold feedback_text, object. cbn [join Nat.add].
  rewrite <- !app_assoc. cbn [app].
  apply value_object. apply members_cons.
  - apply value_number; [now left | exact Hs].
  - apply members_last. apply value_string.
Qed.

Lemma value_breakdown (f : nat) (a : AnalysisRecord) (rest : jsstr) :
  (forall c, in_range (score (breakdown a c))) ->
  value (11 + f)
    (object (map (fun c => member (category_key c)
                              (feedback_text (breakdown a c))) catKeys)
     ++ rest)
  = Some (JObj (map (fun c => (category_key c, feedback_value (breakdown a c)))
                  catKeys),
          rest).
Proof.
  intros Hs. unfold object. cbn [map catKeys join Nat.add].
  rewrite <- !app_assoc. cbn [app].
  apply value_object.
  repeat (apply members_cons; [apply (value_feedback _ _ _ (Hs _))|]).
  apply members_last. apply (value_feedback _ _ _ (Hs _)).
Qed.

Lemma value_analysis (f : nat) (a : AnalysisRecord) (rest : jsstr) :
  readable a ->
  value (14 + f) (JSON_stringify a ++ rest) = Some (analysis_value a, rest).
Proof.
  intros [Ho Hs]. unfold JSON_stringify, stringify, object at 1.
  cbn [join Nat.add]. rewrite <- !app_assoc. cbn [app].
  apply value_object. apply members_cons.
  - apply value_number; [now left | exact Ho].
  - apply members_cons; [apply (value_breakdown _ a _ Hs)|].
    apply members_cons; [apply value_string|].
    apply members_cons; [apply value_string|].
    apply members_last. apply value_string.
Qed.

Lemma stringify_length (a : AnalysisRecord) : 7 <= length (JSON_stringify a).
Proof.
  unfold JSON_stringify, stringify, object at 1. cbn [join].
  rewrite !length_app. unfold member at 1. rewrite !length_app.
  cbn. lia.
Qed.

(** The reference parser inverts [JSON.stringify] on every record with
    readable numbers. *)
Lemma JSON_parse_ref_stringify (a : AnalysisRecord) :
  readable a ->
  JSON_parse_ref (JSON_stringify a) = Normal (analysis_value a).
Proof.
  intros Ha. unfold JSON_parse_ref, parse.
  pose proof (stringify_length a) as Hlen.
  replace (S (2 * length (JSON_stringify a)))
    with (14 + (S (2 * length (JSON_stringify a)) - 14)) by lia.
  rewrite <- (List.app_nil_r (JSON_stringify a)) at 2.
  now rewrite (value_analysis _ a [] Ha).
Qed.

End ReferenceRoundTrip.

(* ================================================================== *)
(** * Properties: extraction of the analysis (C1, C2) *)
(* ================================================================== *)

Section Extraction.

Variable JSON_parse : Parser.

Lemma trimEnd_prefix (s : jsstr) : exists e, s = trimEnd s ++ e.
Proof.
  unfold trimEnd. destruct (drop_while_suffix is_space (rev s)) as [d E].
  exists (rev d). rewrite <- rev_app_distr, <- E. now rewrite rev_involutive.
Qed.

Lemma trim_braced (pre J post : jsstr) :
  braced J = true ->
  trim (pre ++ J ++ post) = trimStart pre ++ J ++ trimEnd post.
Proof.
  intros HJ. apply braced_inv in HJ as [mid ->].
  now apply (trim_around pre LBRACE mid RBRACE post).
Qed.

Lemma trim_braced_self (J : jsstr) : braced J = true -> trim J = J.
Proof.
  intros HJ. pose proof (trim_braced [] J [] HJ) as E.
  cbn [trimStart drop_while trimEnd rev app] in E.
  now rewrite !app_nil_r in E.
Qed.

Lemma candidate_of_braced_self (J : jsstr) :
  braced J = true -> candidate_of J = J.
Proof.
  intros HJ. pose proof (candidate_of_braced [] J [] HJ eq_refl eq_refl) as E.
  cbn [app] in E. now rewrite app_nil_r in E.
Qed.

Lemma stringify_braced (a : AnalysisRecord) :
  braced (JSON_stringify a) = true.
Proof.
  unfold JSON_stringify, JsonText.stringify, JsonText.object.
  cbn [app braced]. rewrite N.eqb_refl, rev_app_distr. reflexivity.
Qed.

(** The argument the handler passes to [JSON.parse] is the JSON text,
    whichever tolerated shape it arrived in. *)
Lemma extract_tolerated (J text : jsstr) :
  braced J = true ->
  includes FENCE J = false ->
  tolerated J text ->
  extractAnalysis JSON_parse text = JSON_parse J.
Proof.
  intros HJ Hno Hshape. unfold extractAnalysis. f_equal.
  destruct Hshape as [| pre tag ws1 ws2 post Htag Hws1 Hws2 Hpre
                      | pre post Hnone Hpre Hpost].
  - rewrite (trim_braced_self J HJ), (jsonStr_of_unfenced J Hno).
    now apply candidate_of_braced_self.
  - assert (trim (pre ++ FENCE ++ tag ++ ws1 ++ J ++ ws2 ++ FENCE ++ post)
            = trimStart pre ++ FENCE ++ tag ++ ws1 ++ J ++ ws2 ++ FENCE ++
              trimEnd post) as ->.
    { pose proof (trim_around pre BACKTICK
                    ([BACKTICK; BACKTICK] ++ tag ++ ws1 ++ J ++ ws2 ++
                     [BACKTICK; BACKTICK]) BACKTICK post eq_refl eq_refl) as E.
      unfold FENCE. cbn [app] in E |- *.
      repeat (rewrite <- ?app_assoc in E; cbn [app] in E).
      exact E. }
    rewrite jsonStr_of_fenced; auto.
    + now apply candidate_of_braced_self.
    + now apply forallb_drop_while.
  - rewrite (trim_braced pre J post HJ).
    assert (includes FENCE (trimStart pre ++ J ++ trimEnd post) = false) as Hin.
    { destruct (drop_while_suffix is_space pre) as [d Ed].
      destruct (trimEnd_prefix post) as [e Ee].
      apply (includes_inside FENCE d _ e).
      unfold trimStart. rewrite <- !app_assoc, <- Ee, app_assoc, <- Ed.
      exact Hnone. }
    rewrite (jsonStr_of_unfenced _ Hin).
    apply candidate_of_braced; [exact HJ | |].
    + now apply forallb_drop_while.
    + now apply forallb_trimEnd.
Qed.

(** What the handler passes to [JSON.parse] when the summary of the
    serialized record quotes a fenced snippet: the snippet. *)
Lemma extract_quoting_fence :
  extractAnalysis JSON_parse (JSON_stringify analysis_quoting_fence)
  = JSON_parse (str "x").
Proof. unfold extractAnalysis. f_equal. Qed.

(** The revision without the brace stage hands prose to the parser. *)
Lemma fence_only_keeps_prose (pre J post : jsstr) :
  braced J = true ->
  includes FENCE (pre ++ J ++ post) = false ->
  extractAnalysis_fence_only JSON_parse (pre ++ J ++ post)
  = JSON_parse (trimStart pre ++ J ++ trimEnd post).
Proof.
  intros HJ Hnone. unfold extractAnalysis_fence_only.
  rewrite (trim_braced pre J post HJ). f_equal.
  apply jsonStr_of_unfenced.
  destruct (drop_while_suffix is_space pre) as [d Ed].
  destruct (trimEnd_prefix post) as [e Ee].
  apply (includes_inside FENCE d _ e).
  unfold trimStart. rewrite <- !app_assoc, <- Ee, app_assoc, <- Ed.
  exact Hnone.
Qed.

End Extraction.

(** C1 (amended). For a record [a] and a JSON text [J] of it (a text the
    platform parses to [a], opening with [{], closing with [}] and free of
    three backticks in a row), the extraction returns [a] from [J] in any
    tolerated shape: plain, fenced with or without the [json] tag, or
    between prose that has no fence, no [{] before and no [}] after. In
    particular it returns [a] from the text [JSON.stringify] gives for
    [a], when that text is free of three backticks in a row. *)
Theorem analysis_extraction_tolerant :
  forall (JSON_parse : Parser) (a : AnalysisRecord),
    (forall J text : jsstr,
        JSON_parse J = Normal (analysis_value a) ->
        braced J = true ->
        includes FENCE J = false ->
        tolerated J text ->
        extractAnalysis JSON_parse text = Normal (analysis_value a))
    /\ (JSON_parse (JSON_stringify a) = Normal (analysis_value a) ->
        includes FENCE (JSON_stringify a) = false ->
        extractAnalysis JSON_parse (JSON_stringify a)
        = Normal (analysis_value a)).
Proof.
  intros JSON_parse a. split.
  - intros J text Hparse HJ Hno Hshape.
    now rewrite (extract_tolerated JSON_parse J text HJ Hno Hshape).
  - intros Hparse Hno.
    rewrite (extract_tolerated JSON_parse (JSON_stringify a) _
               (stringify_braced a) Hno (shape_plain _)).
    exact Hparse.
Qed.

Lemma analysis_extraction_witness :
  extractAnalysis JSON_parse_ref fenced_reply
  = Normal (analysis_value analysis_sample)
  /\ extractAnalysis JSON_parse_ref (JSON_stringify analysis_sample)
     = Normal (analysis_value analysis_sample).
Proof.
  split.
  - apply (proj1 (analysis_extraction_tolerant JSON_parse_ref analysis_sample)
             (JSON_stringify analysis_sample) fenced_reply).
    + vm_compute; reflexivity.
    + vm_compute; reflexivity.
    + vm_compute; reflexivity.
    + unfold fenced_reply. apply shape_fenced.
      * right; reflexivity.
      * reflexivity.
      * reflexivity.
      * vm_compute; reflexivity.
  - apply (proj2 (analysis_extraction_tolerant JSON_parse_ref analysis_sample)).
    + vm_compute; reflexivity.
    + vm_compute; reflexivity.
Defined.

(** With the reference parser the round trip rests on no assumption
    about the platform: the JSON text of any record with readable
    numbers and without three backticks in a row is extracted to the
    record. *)
Lemma extractAnalysis_ref_roundtrip (a : AnalysisRecord) :
  readable a ->
  includes FENCE (JSON_stringify a) = false ->
  extractAnalysis JSON_parse_ref (JSON_stringify a)
  = Normal (analysis_value a).
Proof.
  intros Ha Hno.
  rewrite (extract_tolerated JSON_parse_ref (JSON_stringify a) _
             (stringify_braced a) Hno (shape_plain _)).
  now apply JSON_parse_ref_stringify.
Qed.

(** C1 as stated fails twice over. The JSON text of a record whose
    summary quotes a fenced snippet parses to the record, yet the
    extraction hands the snippet to the parser; and prose with braces of
    its own before the JSON text widens the brace match beyond it. *)
Lemma analysis_extraction_counterexample :
  (JSON_parse_ref (JSON_stringify analysis_quoting_fence)
   = Normal (analysis_value analysis_quoting_fence)
   /\ extractAnalysis JSON_parse_ref (JSON_stringify analysis_quoting_fence)
      = Throw JsonRef.syntax_error)
  /\ (JSON_parse_ref (JSON_stringify analysis_sample)
      = Normal (analysis_value analysis_sample)
      /\ extractAnalysis JSON_parse_ref reply_with_braces
         = Throw JsonRef.syntax_error).
Proof. repeat split; vm_compute; reflexivity. Qed.

Lemma extract_garbled (JSON_parse : Parser) :
  extractAnalysis JSON_parse garbled = JSON_parse garbled.
Proof. unfold extractAnalysis. f_equal. Qed.

(** C2 (amended). When the platform's parser rejects the text the
    extraction stages hand it, [POST /analyze] leaves the state as it
    was, answers 500 with [{ error: err.message }] where [err] is the
    parser's exception, and logs ['Analyze error:'] with that same
    message. *)
Theorem analyze_unparseable :
  forall (JSON_parse : Parser) (w : World) (st : State) (text message : jsstr),
    conversationHistory st <> [] ->
    messages_create w None (analyze_messages (conversationHistory st))
    = Normal text ->
    JSON_parse (candidate_of (jsonStr_of (trim text))) = Throw message ->
    post_analyze JSON_parse w st
    = {| state := st;
         response := {| status := 500; body := ErrorBody message |};
         console_error := [[str "Analyze error:"; message]] |}.
Proof.
  intros JSON_parse w st text message Hne Hreply Hparse.
  unfold post_analyze.
  destruct (conversationHistory st) as [|m h] eqn:Eh; [contradiction|].
  cbn [length Nat.eqb]. rewrite Hreply.
  unfold extractAnalysis. now rewrite Hparse.
Qed.

Lemma analyze_unparseable_witness :
  post_analyze JSON_parse_ref (world_replying garbled) one_turn
  = {| state := one_turn;
       response := {| status := 500; body := ErrorBody JsonRef.syntax_error |};
       console_error := [[str "Analyze error:"; JsonRef.syntax_error]] |}.
Proof.
  apply (analyze_unparseable JSON_parse_ref (world_replying garbled) one_turn
           garbled JsonRef.syntax_error).
  - discriminate.
  - reflexivity.
  - vm_compute; reflexivity.
Defined.

(** C2 as stated fails at the raw text ["garbled non-json text"]: whatever
    the platform's parser answers, the handler cannot both keep the raw
    text in its log and keep it from the end user, because what it logs
    and what it sends is one and the same [err.message]. *)
Lemma analyze_garbled_counterexample :
  ~ (exists JSON_parse : Parser,
        let o := post_analyze JSON_parse (world_replying garbled) one_turn in
        status (response o) = 500%Z
        /\ logged garbled o = true
        /\ shown garbled o = false).
Proof.
  intros [JSON_parse H]. cbv zeta in H.
  unfold post_analyze in H.
  change (Nat.eqb (length (conversationHistory one_turn)) 0) with false in H.
  cbv iota in H.
  change (messages_create (world_replying garbled) None
            (analyze_messages (conversationHistory one_turn)))
    with (@Normal jsstr garbled) in H.
  cbv iota in H. rewrite extract_garbled in H.
  destruct (JSON_parse garbled) as [v | m].
  - destruct H as [H _]. discriminate H.
  - destruct H as (_ & Hlog & Hshown).
    unfold logged, shown, caught in *.
    cbn [console_error response body existsb] in *.
    rewrite Hshown in Hlog. rewrite !orb_false_r in Hlog.
    vm_compute in Hlog. discriminate Hlog.
Qed.

(* ================================================================== *)
(** * Properties: the knowledge-base cache (C3) *)
(* ================================================================== *)

Section Cache.

Variables (w : World) (st : State).

(** A snapshot younger than 60 s is served as it is: the same instance,
    no statement sent to the store, nothing changed. *)
Lemma cache_hit (c : Rows) :
  knowledgeCache st = Some c ->
  (Date_now w - knowledgeCacheTime st < 60000)%Z ->
  getKnowledgeBase w st = (Normal c, st).
Proof.
  intros Hc Hage. unfold getKnowledgeBase. rewrite Hc.
  apply Z.ltb_lt in Hage. now rewrite Hage.
Qed.

(** Without a snapshot, or with one that is 60 s old or older, the store
    is read and the result becomes the snapshot. *)
Lemma cache_miss :
  knowledgeCache st = None
  \/ (60000 <= Date_now w - knowledgeCacheTime st)%Z ->
  store_error w = None ->
  getKnowledgeBase w st
  = (Normal {| ref := fresh st;
               rows := map prompt_row
                         (order_by uploaded_asc (knowledge_files (db st))) |},
     reloaded w st).
Proof.
  intros Hmiss Hok. unfold getKnowledgeBase, select_for_prompt, reloaded.
  rewrite Hok.
  destruct (knowledgeCache st) as [c|]; [|reflexivity].
  destruct Hmiss as [Hnone | Hage]; [discriminate|].
  apply Z.ltb_ge in Hage. now rewrite Hage.
Qed.

(** When the store is down the read fails and nothing changes; a stale
    snapshot is not served in its place. *)
Lemma cache_miss_store_down :
  knowledgeCache st = None
  \/ (60000 <= Date_now w - knowledgeCacheTime st)%Z ->
  forall m : jsstr,
    store_error w = Some m ->
    getKnowledgeBase w st = (Throw m, st).
Proof.
  intros Hmiss m Hdown. unfold getKnowledgeBase, select_for_prompt.
  rewrite Hdown.
  assert (with_db st (db st) = st) as E by now destruct st.
  destruct (knowledgeCache st) as [c|]; [|now rewrite E].
  destruct Hmiss as [Hnone | Hage]; [discriminate|].
  apply Z.ltb_ge in Hage. now rewrite Hage, E.
Qed.

Lemma add_invalidates (name text : option json) :
  status (response (post_knowledge_file w st name text)) = 200%Z ->
  knowledgeCache (state (post_knowledge_file w st name text)) = None.
Proof.
  unfold post_knowledge_file.
  destruct (negb (truthy name) || negb (truthy text)); [discriminate|].
  destruct (call_trim "filename" name) as [name'|m]; [|discriminate].
  destruct (call_trim "content" text) as [text'|m]; [|discriminate].
  destruct (insert_file w name' text' (db st)) as [[id|m] d];
    [reflexivity|discriminate].
Qed.

Lemma delete_invalidates (id : jsstr) :
  status (response (delete_knowledge_file w st id)) = 200%Z ->
  knowledgeCache (state (delete_knowledge_file w st id)) = None.
Proof.
  unfold delete_knowledge_file.
  destruct (delete_file w id (db st)) as [[u|m] d]; [reflexivity|discriminate].
Qed.

End Cache.

(** C3. The cache is served while the clock reads less than 60 000 ms
    past the time the snapshot was loaded: such a read returns the
    identical instance, sends nothing to the store and changes nothing.
    Without a snapshot, or with one that old, the read loads from the
    store (oldest upload first), makes the result the snapshot and its
    own clock reading the cache time; a second read less than 60 s after
    such a load returns that same instance without a storage read. An
    add or a delete that the store carried out sets the cache to [null]
    whatever its age, so that the next read is such a load. *)
Theorem knowledge_cache_contract :
  forall (w : World) (st : State),
    (forall c : Rows,
        knowledgeCache st = Some c ->
        (Date_now w - knowledgeCacheTime st < 60000)%Z ->
        getKnowledgeBase w st = (Normal c, st))
    /\ (knowledgeCache st = None
        \/ (60000 <= Date_now w - knowledgeCacheTime st)%Z ->
        store_error w = None ->
        exists (c : Rows) (st' : State),
          getKnowledgeBase w st = (Normal c, st')
          /\ ref c = fresh st
          /\ rows c = map prompt_row
                        (order_by uploaded_asc (knowledge_files (db st)))
          /\ knowledgeCache st' = Some c
          /\ knowledgeCacheTime st' = Date_now w
          /\ executed (db st') = SelectForPrompt :: executed (db st)
          /\ forall w' : World,
               (Date_now w' - Date_now w < 60000)%Z ->
               getKnowledgeBase w' st' = (Normal c, st'))
    /\ (knowledgeCache st = None
        \/ (60000 <= Date_now w - knowledgeCacheTime st)%Z ->
        forall m : jsstr,
          store_error w = Some m ->
          getKnowledgeBase w st = (Throw m, st))
    /\ (forall name text : option json,
          status (response (post_knowledge_file w st name text)) = 200%Z ->
          knowledgeCache (state (post_knowledge_file w st name text)) = None)
    /\ (forall id : jsstr,
          status (response (delete_knowledge_file w st id)) = 200%Z ->
          knowledgeCache (state (delete_knowledge_file w st id)) = None).
Proof.
  intros w st. repeat split.
  - apply cache_hit.
  - intros Hmiss Hok. eexists. exists (reloaded w st).
    rewrite (cache_miss w st Hmiss Hok).
    repeat split. intros w' Hage. now apply cache_hit.
  - apply cache_miss_store_down.
  - apply add_invalidates.
  - apply delete_invalidates.
Qed.

(** A load at start-up and a read half a minute later. *)
Lemma knowledge_cache_witness :
  exists (c : Rows) (st' : State),
    getKnowledgeBase (world_at 1000) (boot two_files) = (Normal c, st')
    /\ ref c = 0
    /\ rows c = map prompt_row
                  (order_by uploaded_asc (knowledge_files two_files))
    /\ knowledgeCache st' = Some c
    /\ knowledgeCacheTime st' = 1000%Z
    /\ executed (db st') = [SelectForPrompt]
    /\ forall w' : World,
         (Date_now w' - 1000 < 60000)%Z ->
         getKnowledgeBase w' st' = (Normal c, st').
Proof.
  apply (proj1 (proj2 (knowledge_cache_contract (world_at 1000)
                         (boot two_files)))).
  - left; reflexivity.
  - reflexivity.
Defined.

(* ================================================================== *)
(** * Properties: the per-rep aggregation (C4, C7) *)
(* ================================================================== *)

Section Aggregation.

Import Manager.

Lemma slice_first {A} (l : list A) (k : nat) :
  k <= length l -> slice l 0 (Some (Z.of_nat k)) = firstn k l.
Proof.
  intros Hk. unfold slice, relative_index.
  assert ((Z.of_nat k <? 0)%Z = false) as -> by (apply Z.ltb_ge; lia).
  cbn [Z.ltb Z.compare Z.to_nat skipn Nat.min].
  rewrite Nat2Z.id, Nat.min_l by exact Hk.
  now rewrite Nat.sub_0_r.
Qed.

Lemma slice_last {A} (l : list A) (k : nat) :
  0 < k <= length l -> slice l (- Z.of_nat k) None = skipn (length l - k) l.
Proof.
  intros Hk. unfold slice, relative_index.
  assert ((- Z.of_nat k <? 0)%Z = true) as -> by (apply Z.ltb_lt; lia).
  replace (Z.to_nat (Z.max (Z.of_nat (length l) + - Z.of_nat k) 0))
    with (length l - k) by lia.
  apply firstn_all2. rewrite length_skipn. lia.
Qed.

Lemma improvement_of_spec (scores : list float) :
  improvement_of scores
  = if Nat.ltb (length scores) 4 then None
    else
      let half := length scores / 2 in
      let newer := firstn half scores in
      let older := skipn (length scores - half) scores in
      Some (Math_round
              (PrimFloat.sub (PrimFloat.div (sum newer) (number_of half))
                             (PrimFloat.div (sum older) (number_of half)))).
Proof.
  unfold improvement_of, half_of.
  destruct (Nat.leb_spec 4 (length scores)) as [Hn | Hn].
  - assert (Nat.ltb (length scores) 4 = false) as -> by (apply Nat.ltb_ge; lia).
    assert (2 <= length scores / 2) as Hhalf
      by (change 2 with (4 / 2); now apply Nat.Div0.div_le_mono).
    assert (length scores / 2 <= length scores) as Hle
      by (apply Nat.Div0.div_le_upper_bound; lia).
    cbv zeta. rewrite slice_first by exact Hle.
    rewrite slice_last by lia. reflexivity.
  - now assert (Nat.ltb (length scores) 4 = true) as -> by (apply Nat.ltb_lt; lia).
Qed.




End Aggregation.





(* ================================================================== *)
(** * Properties: the chat turn (C5, C10) *)
(* ================================================================== *)

Section ChatTurn.

Lemma trim_nil : trim [] = [].
Proof. reflexivity. Qed.

Lemma chat_accept_text (st : State) (s : jsstr) :
  trim s <> [] ->
  chat_accept st (Some (JStr s))
  = inr (with_history st (conversationHistory st ++ [rep_turn s])).
Proof.
  intros Hs. unfold chat_accept.
  destruct s as [|c s]; [now rewrite trim_nil in Hs|].
  cbn [truthy negb]. now destruct (trim (c :: s)).
Qed.

Lemma chat_accept_blank (st : State) (s : jsstr) :
  trim s = [] ->
  chat_accept st (Some (JStr s))
  = inl (respond st 400 (ErrorBody (str "Message is required."))).
Proof.
  intros Hs. unfold chat_accept.
  destruct s as [|c s]; [reflexivity|].
  cbn [truthy negb]. now rewrite Hs.
Qed.

(** Reading the knowledge base leaves the conversation alone. *)
Lemma getKnowledgeBase_history (w : World) (st : State) :
  conversationHistory (snd (getKnowledgeBase w st)) = conversationHistory st.
Proof.
  unfold getKnowledgeBase, select_for_prompt.
  destruct (knowledgeCache st) as [c|];
    [destruct (Date_now w - knowledgeCacheTime st <? 60000)%Z|];
    destruct (store_error w); reflexivity.
Qed.

Lemma buildSystemPrompt_history (w : World) (st : State) :
  conversationHistory (snd (buildSystemPrompt w st)) = conversationHistory st.
Proof.
  unfold buildSystemPrompt.
  pose proof (getKnowledgeBase_history w st) as H.
  now destruct (getKnowledgeBase w st) as [[c|m] st'].
Qed.

Lemma join_snoc (sep : jsstr) (parts : list jsstr) (p : jsstr) :
  join sep (parts ++ [p])
  = match parts with
    | [] => p
    | _ :: _ => join sep parts ++ sep ++ p
    end.
Proof.
  induction parts as [|a parts IH]; [reflexivity|].
  cbn [app join]. rewrite IH.
  destruct parts as [|b parts]; [reflexivity|].
  cbn [app]. now rewrite <- !app_assoc.
Qed.

(** A transcript whose last turn is the rep's ends with that turn under
    the rep's label. *)
Lemma conversationText_rep_last (h : list Message) (s : jsstr) :
  exists before,
    conversationText (h ++ [rep_turn s]) = before ++ str "SALES REP: " ++ s.
Proof.
  unfold conversationText. rewrite map_app. cbn [map]. rewrite join_snoc.
  destruct (map _ h) as [|a l].
  - now exists [].
  - exists (join [LF; LF] (a :: l) ++ [LF; LF]).
    rewrite <- app_assoc. reflexivity.
Qed.

End ChatTurn.

(** C5. For a string [s] that is not empty after trimming, [POST /chat]
    appends the rep turn with content [s] to the conversation: the
    transcript the model is called with is the old one with that turn
    as its last element, and so is the transcript the handler leaves
    when no reply comes; when the model replies, the reply is the one
    turn that follows it. For a string that is empty after trimming, as
    the empty string and the string of three spaces are, the handler
    answers 400 and leaves the state as it was. *)
Theorem chat_append_rep :
  forall (st : State) (s : jsstr),
    (trim s <> [] ->
     (exists st' : State,
         chat_accept st (Some (JStr s)) = inr st'
         /\ conversationHistory st'
            = conversationHistory st ++ [rep_turn s]
         /\ forall d : Message, last (conversationHistory st') d = rep_turn s)
     /\ (forall w : World,
           let o := post_chat w st (Some (JStr s)) in
           (status (response o) = 500%Z
            /\ conversationHistory (state o)
               = conversationHistory st ++ [rep_turn s]
            /\ forall d : Message,
                 last (conversationHistory (state o)) d = rep_turn s)
           \/ (exists (systemPrompt t : jsstr),
                 messages_create w (Some systemPrompt)
                   (conversationHistory st ++ [rep_turn s])
                 = Normal t
                 /\ response o = {| status := 200; body := ChatBody t |}
                 /\ conversationHistory (state o)
                    = conversationHistory st
                      ++ [rep_turn s;
                          {| role := assistant; content_of := t |}]))
     /\ (forall (w : World) (t : jsstr),
           store_error w = None ->
           (forall systemPrompt : option jsstr,
               messages_create w systemPrompt
                 (conversationHistory st ++ [rep_turn s])
               = Normal t) ->
           let o := post_chat w st (Some (JStr s)) in
           response o = {| status := 200; body := ChatBody t |}
           /\ conversationHistory (state o)
              = conversationHistory st
                ++ [rep_turn s; {| role := assistant; content_of := t |}])
     /\ (forall (w : World) (m : jsstr),
           store_error w = None ->
           (forall systemPrompt : option jsstr,
               messages_create w systemPrompt
                 (conversationHistory st ++ [rep_turn s])
               = Throw m) ->
           let o := post_chat w st (Some (JStr s)) in
           response o = {| status := 500; body := ErrorBody m |}
           /\ conversationHistory (state o)
              = conversationHistory st ++ [rep_turn s]))
    /\ (trim s = [] ->
        forall w : World,
          post_chat w st (Some (JStr s))
          = respond st 400 (ErrorBody (str "Message is required.")))
    /\ (forall w : World,
          post_chat w st (Some (JStr []))
          = respond st 400 (ErrorBody (str "Message is required.")))
    /\ (forall w : World,
          post_chat w st (Some (JStr (str "   ")))
          = respond st 400 (ErrorBody (str "Message is required."))).
Proof.
  intros st s. split; [|repeat split].
  - intros Hs.
    set (st1 := with_history st (conversationHistory st ++ [rep_turn s])).
    assert (forall w : World,
               post_chat w st (Some (JStr s)) = chat_reply w st1) as Hpost.
    { intros w. unfold post_chat. now rewrite (chat_accept_text st s Hs). }
    assert (forall w : World,
               conversationHistory (snd (buildSystemPrompt w st1))
               = conversationHistory st ++ [rep_turn s]) as Hkeep
      by (intros w; apply (buildSystemPrompt_history w st1)).
    assert (forall w : World,
               store_error w = None ->
               exists p st2, buildSystemPrompt w st1 = (Normal p, st2)) as Hbuilt.
    { intros w Hok.
      unfold buildSystemPrompt, getKnowledgeBase, select_for_prompt.
      rewrite Hok.
      destruct (knowledgeCache st1) as [c|];
        [destruct (Date_now w - knowledgeCacheTime st1 <? 60000)%Z|];
        eauto. }
    split; [|split; [|split]].
    + eexists. split; [now apply chat_accept_text|].
      split; [reflexivity|]. intros d. apply last_last.
    + intros w. cbv zeta. rewrite Hpost. unfold chat_reply.
      specialize (Hkeep w).
      destruct (buildSystemPrompt w st1) as [[p|m] st2]; cbn [snd] in Hkeep.
      * rewrite Hkeep.
        destruct (messages_create w (Some p)
                    (conversationHistory st ++ [rep_turn s])) as [t|m] eqn:E.
        -- right. exists p, t. split; [exact E|]. split; [reflexivity|].
           cbn [state respond with_history conversationHistory].
           now rewrite ?Hkeep, <- app_assoc.
        -- left. split; [reflexivity|].
           cbn [state caught]. rewrite ?Hkeep. split; [reflexivity|].
           intros d. apply last_last.
      * left. split; [reflexivity|].
        cbn [state caught]. rewrite ?Hkeep. split; [reflexivity|].
        intros d. apply last_last.
    + intros w t Hok Hmodel. cbv zeta. rewrite Hpost. unfold chat_reply.
      destruct (Hbuilt w Hok) as (p & st2 & E).
      specialize (Hkeep w). rewrite E in Hkeep |- *. cbn [snd] in Hkeep.
      rewrite Hkeep, Hmodel. split; [reflexivity|].
      cbn [state respond with_history conversationHistory].
      now rewrite ?Hkeep, <- app_assoc.
    + intros w m Hok Hmodel. cbv zeta. rewrite Hpost. unfold chat_reply.
      destruct (Hbuilt w Hok) as (p & st2 & E).
      specialize (Hkeep w). rewrite E in Hkeep |- *. cbn [snd] in Hkeep.
      rewrite Hkeep, Hmodel. split; [reflexivity|]. cbn [state caught]. now rewrite ?Hkeep.
  - intros Hs w. unfold post_chat. now rewrite chat_accept_blank.
Qed.

(** A turn that the model answers, over [one_turn], and the string of
    three spaces. *)
Lemma chat_append_rep_witness :
  (let o := post_chat (world_at 0) one_turn
              (Some (JStr (str " We replace roofs. "))) in
   response o = {| status := 200; body := ChatBody (str "Not interested.") |}
   /\ conversationHistory (state o)
      = conversationHistory one_turn
        ++ [rep_turn (str " We replace roofs. ");
            {| role := assistant; content_of := str "Not interested." |}])
  /\ (forall w : World,
        post_chat w one_turn (Some (JStr (str "   ")))
        = respond one_turn 400 (ErrorBody (str "Message is required."))).
Proof.
  split.
  - apply (proj1 (proj2 (proj2
             (proj1 (chat_append_rep one_turn (str " We replace roofs. "))
                ltac:(vm_compute; discriminate))))
             (world_at 0) (str "Not interested.")).
    + reflexivity.
    + reflexivity.
  - apply (proj1 (proj2 (chat_append_rep one_turn (str "   ")))).
    reflexivity.
Defined.

(** C10. When the model call of a chat turn fails, the handler answers
    500 and the conversation keeps the rep turn pushed before the call
    and gains no homeowner turn; the turn is therefore the last line of
    the transcript a later scorecard or analysis embeds. *)
Theorem chat_model_failure :
  forall (w : World) (st : State) (s m : jsstr),
    trim s <> [] ->
    (forall system h, messages_create w system h = Throw m) ->
    let o := post_chat w st (Some (JStr s)) in
    status (response o) = 500%Z
    /\ conversationHistory (state o)
       = conversationHistory st ++ [rep_turn s]
    /\ (store_error w = None -> body (response o) = ErrorBody m)
    /\ exists before,
         conversationText (conversationHistory (state o))
         = before ++ str "SALES REP: " ++ s.
Proof.
  intros w st s m Hs Hfail o.
  assert (status (response o) = 500%Z
          /\ conversationHistory (state o)
             = conversationHistory st ++ [rep_turn s]
          /\ (store_error w = None -> body (response o) = ErrorBody m))
    as (H1 & H2 & H3).
  { unfold o, post_chat. rewrite chat_accept_text by exact Hs.
    unfold chat_reply.
    pose proof (buildSystemPrompt_history w
                  (with_history st (conversationHistory st ++ [rep_turn s])))
      as Hh.
    destruct (buildSystemPrompt w _) as [[prompt|e] st'] eqn:Eb;
      cbn [snd] in Hh.
    - rewrite Hfail. cbn. auto.
    - cbn. repeat split; [exact Hh|].
      intros Hok. exfalso.
      unfold buildSystemPrompt, getKnowledgeBase, select_for_prompt in Eb.
      rewrite Hok in Eb.
      cbn [knowledgeCache knowledgeCacheTime with_history] in Eb.
      destruct (knowledgeCache st);
        [destruct (Date_now w - knowledgeCacheTime st <? 60000)%Z|];
        discriminate Eb. }
  repeat split; auto.
  rewrite H2. apply conversationText_rep_last.
Qed.

Lemma chat_model_failure_witness :
  let w := {| Date_now := 0; NOW := 0; store_error := None;
              messages_create := fun _ _ => Throw (str "overloaded") |} in
  let o := post_chat w one_turn (Some (JStr (str "Do you have a minute?"))) in
  status (response o) = 500%Z
  /\ conversationHistory (state o)
     = conversationHistory one_turn ++ [rep_turn (str "Do you have a minute?")]
  /\ (store_error w = None -> body (response o) = ErrorBody (str "overloaded"))
  /\ exists before,
       conversationText (conversationHistory (state o))
       = before ++ str "SALES REP: " ++ str "Do you have a minute?".
Proof.
  apply (chat_model_failure
           {| Date_now := 0; NOW := 0; store_error := None;
              messages_create := fun _ _ => Throw (str "overloaded") |}
           one_turn (str "Do you have a minute?") (str "overloaded")).
  - vm_compute. discriminate.
  - reflexivity.
Defined.

(* ================================================================== *)
(** * Properties: adding a document (C6) *)
(* ================================================================== *)

Section KnowledgeAdd.

Variables (w : World) (st : State).

(** A missing or empty [filename] or [content] is refused with 400 and
    changes nothing. *)
Lemma add_refuses_missing (name text : option json) :
  truthy name = false \/ truthy text = false ->
  post_knowledge_file w st name text
  = respond st 400 (ErrorBody (str "filename and content required.")).
Proof.
  intros H. unfold post_knowledge_file.
  now destruct H as [-> | ->]; rewrite ?orb_true_r.
Qed.

(** Two non-empty strings are trimmed and stored as the store takes
    them, and the cache is dropped. *)
Lemma add_stores (name text : jsstr) :
  name <> [] -> text <> [] -> store_error w = None ->
  has_nul (trim name) = false -> has_nul (trim text) = false ->
  post_knowledge_file w st (Some (JStr name)) (Some (JStr text))
  = respond (stored w st (utf8_text (trim name)) (utf8_text (trim text))) 200
      (CreatedBody (knowledge_files_id_seq (db st))).
Proof.
  intros Hn Ht Hok Hname Htext. unfold post_knowledge_file, insert_file.
  destruct name as [|a name]; [contradiction|].
  destruct text as [|b text]; [contradiction|].
  cbn [truthy negb orb call_trim]. now rewrite Hok, Hname, Htext.
Qed.

(** A name or a content with U+0000 in it is not stored. *)
Lemma add_refuses_nul (name text : jsstr) :
  name <> [] -> text <> [] -> store_error w = None ->
  has_nul (trim name) || has_nul (trim text) = true ->
  post_knowledge_file w st (Some (JStr name)) (Some (JStr text))
  = caught st (str "Knowledge file error:") invalid_byte_sequence.
Proof.
  intros Hn Ht Hok Hnul. unfold post_knowledge_file, insert_file.
  destruct name as [|a name]; [contradiction|].
  destruct text as [|b text]; [contradiction|].
  cbn [truthy negb orb call_trim]. rewrite Hok, Hnul.
  now destruct st.
Qed.

End KnowledgeAdd.

(** C6: the code at the failing input. A [filename] of three spaces is
    not empty, so it passes the check, is trimmed to the empty string and
    stored under it: the handler answers 200, not 400. [POST /chat]
    refuses the same string, because it tests the trimmed value. *)
Theorem knowledge_file_blank_name_stored :
  post_knowledge_file (world_at 5000) (boot two_files)
    (Some (JStr (str "   "))) (Some (JStr (str "Ask about storm damage.")))
  = respond
      (stored (world_at 5000) (boot two_files)
         [] (str "Ask about storm damage."))
      200 (CreatedBody 3)
  /\ trim (str "   ") = []
  /\ post_chat (world_at 5000) (boot two_files) (Some (JStr (str "   ")))
     = respond (boot two_files) 400 (ErrorBody (str "Message is required.")).
Proof. repeat split; reflexivity. Qed.

(* ================================================================== *)
(** * Properties: the system prompt (C8) *)
(* ================================================================== *)

Lemma slice_prefix {A} (l : list A) (k : nat) :
  slice l 0 (Some (Z.of_nat k)) = firstn k l.
Proof.
  unfold slice, relative_index.
  assert ((Z.of_nat k <? 0)%Z = false) as -> by (apply Z.ltb_ge; lia).
  cbn [Z.ltb Z.compare Z.to_nat skipn Nat.min]. rewrite Nat2Z.id, Nat.sub_0_r.
  destruct (Nat.le_ge_cases k (length l)) as [H|H].
  - now rewrite Nat.min_l.
  - rewrite Nat.min_r by exact H. now rewrite !firstn_all2.
Qed.

Lemma kb_block_labeled (f : PromptRow) : kb_block f = labeled_block f.
Proof.
  unfold kb_block, labeled_block.
  now rewrite <- (slice_prefix (content f) 3000).
Qed.

(** C8. With no document the system prompt is the base script, unchanged.
    With documents it is the base script, a blank line, the
    training-materials header, and the labeled blocks of the documents,
    each holding the first 3000 code units of its content, joined by
    blank lines. A content of 5000 characters appears as its first
    3000. [buildSystemPrompt] is this function of the base prompt of the
    source and the rows [getKnowledgeBase] returns. *)
Theorem system_prompt_shape :
  forall (base : jsstr) (files : list PromptRow),
    systemPrompt_of base [] = base
    /\ systemPrompt_of base files
       = match files with
         | [] => base
         | _ :: _ =>
             base ++ [LF; LF] ++ TRAINING_MATERIALS ++ [LF] ++
             join [LF; LF] (map labeled_block files)
         end
    /\ (forall f, In f files ->
          exists kept,
            labeled_block f
            = str "--- " ++ filename f ++ str " ---" ++ [LF] ++ kept
            /\ length kept <= 3000
            /\ exists dropped, content f = kept ++ dropped)
    /\ systemPrompt_of base
         [{| filename := str "f.txt"; content := repeat 120%N 5000 |}]
       = base ++ [LF; LF] ++ TRAINING_MATERIALS ++ [LF] ++
         str "--- f.txt ---" ++ [LF] ++ repeat 120%N 3000
    /\ (forall (w : World) (st : State),
          fst (buildSystemPrompt w st)
          = match fst (getKnowledgeBase w st) with
            | Normal c => Normal (systemPrompt_of BASE_SYSTEM_PROMPT (rows c))
            | Throw m => Throw m
            end).
Proof.
  intros base files. split; [reflexivity|]. split; [|split; [|split]];
    [| | |intros w st; unfold buildSystemPrompt;
          now destruct (getKnowledgeBase w st) as [[c|m] st']].
  - unfold systemPrompt_of. destruct files as [|f files]; [reflexivity|].
    cbn [length Nat.eqb]. do 5 f_equal.
    apply map_ext. exact kb_block_labeled.
  - intros f _. exists (firstn 3000 (content f)).
    split; [reflexivity|]. split; [apply firstn_le_length|].
    exists (skipn 3000 (content f)). symmetry. apply firstn_skipn.
  - unfold systemPrompt_of. cbn [length Nat.eqb map join].
    rewrite kb_block_labeled. unfold labeled_block. cbn [filename content].
    apply (f_equal (app base)). vm_compute. reflexivity.
Qed.

(* ================================================================== *)
(** * Properties: the two read orders (C9) *)
(* ================================================================== *)

Section OrderBy.

Context {A : Type} (le : A -> A -> bool).

Let R (a b : A) : Prop := le a b = true.

Hypothesis le_total : forall a b, le a b = false -> le b a = true.
Hypothesis le_trans : forall a b c, R a b -> R b c -> R a c.

Lemma insert_by_perm (x : A) (l : list A) :
  Permutation (insert_by le x l) (x :: l).
Proof.
  induction l as [|y l IH]; cbn [insert_by]; [reflexivity|].
  destruct (le x y); [reflexivity|].
  rewrite IH. apply perm_swap.
Qed.

Lemma order_by_perm (l : list A) : Permutation (order_by le l) l.
Proof.
  induction l as [|x l IH]; cbn [order_by]; [reflexivity|].
  rewrite insert_by_perm. now constructor.
Qed.

Lemma insert_by_hd (y x : A) (l : list A) :
  R y x -> HdRel R y l -> HdRel R y (insert_by le x l).
Proof.
  intros Hyx Hl. destruct l as [|z l]; cbn [insert_by].
  - now constructor.
  - destruct (le x z); constructor; [exact Hyx|].
    now inversion Hl.
Qed.

Lemma insert_by_sorted (x : A) (l : list A) :
  Sorted R l -> Sorted R (insert_by le x l).
Proof.
  induction 1 as [|y l Hl IH Hy]; cbn [insert_by].
  - repeat constructor.
  - destruct (le x y) eqn:E.
    + repeat constructor; assumption.
    + constructor; [exact IH|].
      apply insert_by_hd; [now apply le_total | exact Hy].
Qed.

Lemma order_by_sorted (l : list A) : StronglySorted R (order_by le l).
Proof.
  apply Sorted_StronglySorted; [exact le_trans|].
  induction l as [|x l IH]; cbn [order_by]; [constructor|].
  now apply insert_by_sorted.
Qed.

End OrderBy.

Section ReadOrders.

Lemma StronglySorted_weaken {A} (R R' : A -> A -> Prop) (l : list A) :
  (forall a b, R a b -> R' a b) ->
  StronglySorted R l -> StronglySorted R' l.
Proof.
  intros HR. induction 1 as [|a l _ IH Ha]; constructor; [exact IH|].
  eapply Forall_impl; [|exact Ha]. intros b. apply HR.
Qed.

Lemma order_by_asc (l : list KnowledgeFile) :
  oldest_first (order_by uploaded_asc l).
Proof.
  unfold oldest_first.
  eapply StronglySorted_weaken; [|apply (order_by_sorted uploaded_asc)].
  - intros a b H. now apply Z.leb_le.
  - intros a b H. unfold uploaded_asc in *.
    apply Z.leb_gt in H. apply Z.leb_le. lia.
  - intros a b c Hab Hbc. unfold uploaded_asc in *.
    apply Z.leb_le in Hab, Hbc. apply Z.leb_le. lia.
Qed.

Lemma order_by_desc (l : list KnowledgeFile) :
  newest_first (order_by uploaded_desc l).
Proof.
  unfold newest_first.
  eapply StronglySorted_weaken; [|apply (order_by_sorted uploaded_desc)].
  - intros a b H. now apply Z.leb_le.
  - intros a b H. unfold uploaded_desc in *.
    apply Z.leb_gt in H. apply Z.leb_le. lia.
  - intros a b c Hab Hbc. unfold uploaded_desc in *.
    apply Z.leb_le in Hab, Hbc. apply Z.leb_le. lia.
Qed.

Lemma char_length_cons (s : jsstr) :
  forall c, char_length s <= char_length (c :: s) <= S (char_length s).
Proof.
  induction s as [|l r IH]; intros c.
  - cbn. lia.
  - change (char_length (c :: l :: r))
      with (if is_pair c l then S (char_length r) else S (char_length (l :: r))).
    specialize (IH l). destruct (is_pair c l); lia.
Qed.

(** [LEFT] gives at most [n] characters, taken from the start. *)
Lemma LEFT_length (n : nat) : forall s, char_length (LEFT s n) <= n.
Proof.
  induction n as [|n IH]; intros s; [destruct s; cbn; lia|].
  destruct s as [|h [|l r]]; cbn [LEFT]; [cbn; lia | cbn; lia |].
  destruct (is_pair h l) eqn:E.
  - change (char_length (h :: l :: LEFT r n))
      with (if is_pair h l then S (char_length (LEFT r n))
            else S (char_length (l :: LEFT r n))).
    rewrite E. specialize (IH r). lia.
  - pose proof (char_length_cons (LEFT (l :: r) n) h).
    specialize (IH (l :: r)). lia.
Qed.

Lemma LEFT_prefix (n : nat) : forall s, exists rest, s = LEFT s n ++ rest.
Proof.
  induction n as [|n IH]; intros s; [exists s; now destruct s|].
  destruct s as [|h [|l r]]; cbn [LEFT]; [now exists [] | now exists [] |].
  destruct (is_pair h l).
  - destruct (IH r) as [rest E]. exists rest. cbn [app]. now rewrite <- E.
  - destruct (IH (l :: r)) as [rest E]. exists rest. cbn [app]. now rewrite <- E.
Qed.

End ReadOrders.

Section CacheCurrent.

(** A read of the knowledge base keeps the table, keeps the cache
    current, and returns what the table holds. *)
Lemma getKnowledgeBase_current (w : World) (st : State) :
  cache_current st ->
  cache_current (snd (getKnowledgeBase w st))
  /\ knowledge_files (db (snd (getKnowledgeBase w st)))
     = knowledge_files (db st)
  /\ knowledge_files_id_seq (db (snd (getKnowledgeBase w st)))
     = knowledge_files_id_seq (db st)
  /\ forall c, fst (getKnowledgeBase w st) = Normal c -> rows c = documents st.
Proof.
  unfold cache_current, getKnowledgeBase, select_for_prompt, documents.
  intros H.
  destruct (knowledgeCache st) as [c|] eqn:E;
    [destruct (Date_now w - knowledgeCacheTime st <? 60000)%Z|];
    destruct (store_error w);
    cbn [fst snd knowledgeCache rows db with_db knowledge_files
         knowledge_files_id_seq record_statement];
    rewrite ?E; repeat split; try exact H; try discriminate;
    intros c' [= <-]; try exact H; reflexivity.
Qed.

Lemma buildSystemPrompt_current (w : World) (st : State) :
  cache_current st ->
  cache_current (snd (buildSystemPrompt w st))
  /\ knowledge_files (db (snd (buildSystemPrompt w st)))
     = knowledge_files (db st)
  /\ knowledge_files_id_seq (db (snd (buildSystemPrompt w st)))
     = knowledge_files_id_seq (db st)
  /\ forall p, fst (buildSystemPrompt w st) = Normal p ->
               p = systemPrompt_of BASE_SYSTEM_PROMPT (documents st).
Proof.
  intros H. unfold buildSystemPrompt.
  destruct (getKnowledgeBase_current w st H) as (H1 & H2 & H3 & H4).
  destruct (getKnowledgeBase w st) as [[c|m] st']; cbn [fst snd] in *;
    repeat split; try assumption; try discriminate.
  intros p [= <-]. now rewrite (H4 c).
Qed.

(** A chat request keeps the table and keeps the cache current. *)
Lemma post_chat_current (w : World) (st : State) (message : option json) :
  cache_current st ->
  cache_current (state (post_chat w st message))
  /\ knowledge_files (db (state (post_chat w st message)))
     = knowledge_files (db st)
  /\ knowledge_files_id_seq (db (state (post_chat w st message)))
     = knowledge_files_id_seq (db st).
Proof.
  intros H. unfold post_chat, chat_accept.
  destruct (negb (truthy message)); [now repeat split|].
  destruct message as [[| b | x | s | items | members]|]; try now repeat split.
  destruct (is_empty (trim s)); [now repeat split|].
  unfold chat_reply.
  set (st1 := with_history st (conversationHistory st ++ [rep_turn s])).
  assert (cache_current st1) as H1 by exact H.
  destruct (buildSystemPrompt_current w st1 H1) as (G1 & G2 & G3 & _).
  destruct (buildSystemPrompt w st1) as [[p|m] st']; cbn [snd] in *.
  - destruct (messages_create w (Some p) (conversationHistory st')) as [t|m];
      now repeat split.
  - now repeat split.
Qed.

Lemma handle_cache_current (JSON_parse : Parser) (w : World) (st : State)
    (r : Request) :
  cache_current st -> cache_current (state (handle JSON_parse w st r)).
Proof.
  intros H. destruct r as [message| | | |name text| |id]; cbn [handle].
  - now apply post_chat_current.
  - unfold post_scorecard.
    destruct (Nat.eqb _ 0); [exact H|].
    now destruct (messages_create w None _).
  - unfold post_analyze.
    destruct (Nat.eqb _ 0); [exact H|].
    destruct (messages_create w None _) as [text|m]; [|exact H].
    now destruct (extractAnalysis JSON_parse text).
  - exact H.
  - unfold post_knowledge_file, insert_file.
    destruct (negb (truthy name) || negb (truthy text)); [exact H|].
    destruct (call_trim "filename" name) as [name'|m]; [|exact H].
    destruct (call_trim "content" text) as [text'|m]; [|exact H].
    destruct (store_error w); [exact H|].
    destruct (has_nul name' || has_nul text'); [exact H|exact I].
  - unfold get_knowledge_files, select_listing.
    destruct (store_error w); exact H.
  - unfold delete_knowledge_file, delete_file.
    destruct (store_error w); [exact H|].
    destruct (int4in (db st) id); [exact I|exact H].
Qed.

Lemma reachable_cache_current (JSON_parse : Parser) (st : State) :
  reachable JSON_parse st -> cache_current st.
Proof.
  induction 1 as [d | st w r _ IH]; [exact I|].
  now apply handle_cache_current.
Qed.

End CacheCurrent.

Section OppositeOrders.

Context {A : Type} (key : A -> Z).

Let asc (a b : A) : Prop := (key a <= key b)%Z.
Let desc (a b : A) : Prop := (key b <= key a)%Z.

(** A list in descending order, read backwards, is in ascending
    order. *)
Lemma sorted_snoc (l : list A) (x : A) :
  StronglySorted asc l -> Forall (fun y => asc y x) l ->
  StronglySorted asc (l ++ [x]).
Proof.
  induction 1 as [|a l Hl IH Ha]; intros Hx; cbn [app].
  - constructor; constructor.
  - inversion Hx as [|? ? Hax Hlx]; subst. constructor; [now apply IH|].
    apply Forall_app. split; [exact Ha | now constructor].
Qed.

Lemma sorted_rev (l : list A) :
  StronglySorted desc l -> StronglySorted asc (rev l).
Proof.
  induction 1 as [|a l Hl IH Ha]; cbn [rev]; [constructor|].
  apply sorted_snoc; [exact IH|].
  apply Forall_forall. intros y Hy. apply in_rev in Hy.
  exact (proj1 (Forall_forall _ _) Ha y Hy).
Qed.

(** Distinct keys leave one ascending order only. *)
Lemma key_injective (l : list A) (a b : A) :
  NoDup (map key l) -> In a l -> In b l -> key a = key b -> a = b.
Proof.
  induction l as [|x l IH]; [contradiction|].
  cbn [map]. intros Hnd Ha Hb E. inversion Hnd as [|? ? Hx Hl]; subst.
  destruct Ha as [-> | Ha], Hb as [-> | Hb]; try reflexivity.
  - elim Hx. rewrite E. now apply in_map.
  - elim Hx. rewrite <- E. now apply in_map.
  - now apply IH.
Qed.

Lemma sorted_unique (l1 : list A) :
  forall l2, StronglySorted asc l1 -> StronglySorted asc l2 ->
             Permutation l1 l2 -> NoDup (map key l1) -> l1 = l2.
Proof.
  induction l1 as [|a l1 IH]; intros l2 H1 H2 Hp Hnd.
  - now apply Permutation_nil in Hp.
  - destruct l2 as [|b l2];
      [now apply Permutation_sym, Permutation_nil in Hp|].
    inversion H1 as [|? ? H1' Ha]; subst.
    inversion H2 as [|? ? H2' Hb]; subst.
    assert (a = b) as <-.
    { assert (In b (a :: l1)) as Hin
        by (apply (Permutation_in _ (Permutation_sym Hp)); now left).
      assert (In a (b :: l2)) as Hin'
        by (apply (Permutation_in _ Hp); now left).
      apply (key_injective (a :: l1)); [exact Hnd | now left | exact Hin |].
      assert (key a <= key b)%Z.
      { destruct Hin as [<- | Hin]; [lia|].
        exact (proj1 (Forall_forall _ _) Ha b Hin). }
      assert (key b <= key a)%Z.
      { destruct Hin' as [<- | Hin']; [lia|].
        exact (proj1 (Forall_forall _ _) Hb a Hin'). }
      lia. }
    f_equal. apply IH; try assumption.
    + now apply Permutation_cons_inv in Hp.
    + cbn [map] in Hnd. now inversion Hnd.
Qed.

End OppositeOrders.

(** With distinct upload times the listing order is the prompt order
    read backwards. *)
Lemma order_by_opposite (l : list KnowledgeFile) :
  NoDup (map kf_uploaded_at l) ->
  order_by uploaded_desc l = rev (order_by uploaded_asc l).
Proof.
  intros Hnd. rewrite <- (rev_involutive (order_by uploaded_desc l)).
  f_equal. symmetry.
  apply (sorted_unique kf_uploaded_at).
  - apply order_by_asc.
  - apply sorted_rev. apply order_by_desc.
  - rewrite (order_by_perm uploaded_asc l).
    rewrite <- (order_by_perm uploaded_desc l) at 1.
    apply Permutation_rev.
  - apply (Permutation_NoDup (l := map kf_uploaded_at l)); [|exact Hnd].
    apply Permutation_map, Permutation_sym, order_by_perm.
Qed.

(** C9. In every state the server reaches by serving its requests, a
    read of the knowledge base goes through whenever the store answers,
    and what a read returns, from the cache or from the store, is the
    stored documents ordered by upload time, oldest first. [GET
    /knowledge-files] lists the stored documents newest upload first,
    each with a preview that is the start of its content and at most
    120 characters long. When no two documents were uploaded at the same
    time, the listing is the order of the prompt read backwards. *)
Theorem knowledge_read_orders :
  forall (JSON_parse : Parser) (st : State) (w : World),
    reachable JSON_parse st ->
    (store_error w = None ->
     exists (c : Rows) (l : list KnowledgeFile),
       fst (getKnowledgeBase w st) = Normal c
       /\ Permutation l (knowledge_files (db st))
       /\ oldest_first l
       /\ rows c = map prompt_row l)
    /\ (forall c : Rows,
          fst (getKnowledgeBase w st) = Normal c ->
          exists l, Permutation l (knowledge_files (db st))
                    /\ oldest_first l /\ rows c = map prompt_row l)
    /\ (store_error w = None ->
        exists (files : list FileListing) (l : list KnowledgeFile),
          response (get_knowledge_files w st)
          = {| status := 200; body := FilesBody files |}
          /\ Permutation l (knowledge_files (db st))
          /\ newest_first l
          /\ files = map listing_row l
          /\ Forall (fun f => char_length (preview f) <= 120) files
          /\ Forall (fun f => exists rest,
                       kf_content f = LEFT (kf_content f) 120 ++ rest) l)
    /\ (forall files : list FileListing,
          body (response (get_knowledge_files w st)) = FilesBody files ->
          exists l, Permutation l (knowledge_files (db st))
                    /\ newest_first l
                    /\ files = map listing_row l
                    /\ Forall (fun f => char_length (preview f) <= 120) files
                    /\ Forall (fun f => exists rest,
                                 kf_content f = LEFT (kf_content f) 120 ++ rest) l)
    /\ (NoDup (map kf_uploaded_at (knowledge_files (db st))) ->
        forall (c : Rows) (files : list FileListing),
          fst (getKnowledgeBase w st) = Normal c ->
          body (response (get_knowledge_files w st)) = FilesBody files ->
          exists l, Permutation l (knowledge_files (db st))
                    /\ oldest_first l
                    /\ rows c = map prompt_row l
                    /\ files = map listing_row (rev l)).
Proof.
  intros JSON_parse st w Hreach.
  pose proof (reachable_cache_current JSON_parse st Hreach) as Hcur.
  destruct (getKnowledgeBase_current w st Hcur) as (_ & _ & _ & Hread).
  assert (forall c : Rows,
             fst (getKnowledgeBase w st) = Normal c ->
             rows c = map prompt_row
                        (order_by uploaded_asc (knowledge_files (db st))))
    as Hrows by exact Hread.
  assert (forall files : list FileListing,
             body (response (get_knowledge_files w st)) = FilesBody files ->
             files = map listing_row
                       (order_by uploaded_desc (knowledge_files (db st))))
    as Hfiles.
  { intros files. unfold get_knowledge_files, select_listing.
    destruct (store_error w); cbn [response body respond caught];
      [discriminate|].
    now intros [= <-]. }
  assert (forall l : list KnowledgeFile,
             Forall (fun f => char_length (preview f) <= 120)
               (map listing_row l)) as Hshort.
  { intros l. apply Forall_forall. intros f Hf.
    apply in_map_iff in Hf as (x & <- & _). apply LEFT_length. }
  assert (forall l : list KnowledgeFile,
             Forall (fun f => exists rest,
                       kf_content f = LEFT (kf_content f) 120 ++ rest) l)
    as Hstart.
  { intros l. apply Forall_forall. intros f _. apply LEFT_prefix. }
  split; [|split; [|split; [|split]]].
  - intros Hok.
    assert (exists c, fst (getKnowledgeBase w st) = Normal c) as (c & Hc).
    { unfold getKnowledgeBase, select_for_prompt. rewrite Hok.
      destruct (knowledgeCache st) as [c|];
        [destruct (Date_now w - knowledgeCacheTime st <? 60000)%Z|];
        eexists; reflexivity. }
    exists c, (order_by uploaded_asc (knowledge_files (db st))).
    split; [exact Hc|]. split; [apply order_by_perm|].
    split; [apply order_by_asc | now apply Hrows].
  - intros c Hc.
    exists (order_by uploaded_asc (knowledge_files (db st))).
    split; [apply order_by_perm|].
    split; [apply order_by_asc | now apply Hrows].
  - intros Hok.
    exists (map listing_row
              (order_by uploaded_desc (knowledge_files (db st)))),
           (order_by uploaded_desc (knowledge_files (db st))).
    split.
    { unfold get_knowledge_files, select_listing. now rewrite Hok. }
    split; [apply order_by_perm|]. split; [apply order_by_desc|].
    split; [reflexivity|]. split; [apply Hshort | apply Hstart].
  - intros files Hf. rewrite (Hfiles files Hf).
    exists (order_by uploaded_desc (knowledge_files (db st))).
    split; [apply order_by_perm|]. split; [apply order_by_desc|].
    split; [reflexivity|]. split; [apply Hshort | apply Hstart].
  - intros Hnd c files Hc Hf.
    exists (order_by uploaded_asc (knowledge_files (db st))).
    split; [apply order_by_perm|]. split; [apply order_by_asc|].
    split; [now apply Hrows|].
    rewrite (Hfiles files Hf). f_equal. now apply order_by_opposite.
Qed.

(** After one chat turn at start-up over [two_files]: a read that the
    cache serves, and the listing. *)
Lemma knowledge_read_orders_witness :
  let st := state (handle JSON_parse_ref (world_at 0) (boot two_files)
                     (Chat (Some (JStr (str "Hello"))))) in
  (exists (c : Rows) (l : list KnowledgeFile),
      fst (getKnowledgeBase (world_at 1000) st) = Normal c
      /\ Permutation l (knowledge_files (db st))
      /\ oldest_first l
      /\ rows c = map prompt_row l)
  /\ (exists (files : list FileListing) (l : list KnowledgeFile),
        response (get_knowledge_files (world_at 1000) st)
        = {| status := 200; body := FilesBody files |}
        /\ Permutation l (knowledge_files (db st))
        /\ newest_first l
        /\ files = map listing_row l
        /\ Forall (fun f => char_length (preview f) <= 120) files
        /\ Forall (fun f => exists rest,
                     kf_content f = LEFT (kf_content f) 120 ++ rest) l)
  /\ (exists l,
        Permutation l (knowledge_files (db st))
        /\ oldest_first l
        /\ [ {| filename := str "script.txt";
                content := str "Introduce yourself and the company first." |};
             {| filename := str "pricing.txt";
                content := str "Never quote a price at the door." |} ]
           = map prompt_row l
        /\ [ {| file_id := 2; file_filename := str "pricing.txt";
                preview := str "Never quote a price at the door.";
                file_uploaded_at := 200 |};
             {| file_id := 1; file_filename := str "script.txt";
                preview := str "Introduce yourself and the company first.";
                file_uploaded_at := 100 |} ]
           = map listing_row (rev l)).
Proof.
  intros st.
  destruct (knowledge_read_orders JSON_parse_ref st (world_at 1000)
              (@reachable_step JSON_parse_ref (boot two_files) (world_at 0)
                 (Chat (Some (JStr (str "Hello"))))
                 (reachable_boot JSON_parse_ref two_files)))
    as (H1 & _ & H3 & _ & H5).
  split; [exact (H1 eq_refl)|]. split; [exact (H3 eq_refl)|].
  apply (H5 ltac:(repeat constructor; cbn; intuition discriminate)
            {| ref := 0;
               rows := [ {| filename := str "script.txt";
                            content := str "Introduce yourself and the company first." |};
                         {| filename := str "pricing.txt";
                            content := str "Never quote a price at the door." |} ] |}).
  - vm_compute. reflexivity.
  - vm_compute. reflexivity.
Defined.

(* ================================================================== *)
(** * Further properties: the conversation *)
(* ================================================================== *)

Section AfterReset.

(** A request other than a chat turn leaves an empty conversation
    empty. *)
Lemma handle_keeps_empty (JSON_parse : Parser) (w : World) (st : State)
    (r : Request) :
  is_chat r = false ->
  conversationHistory st = [] ->
  conversationHistory (state (handle JSON_parse w st r)) = [].
Proof.
  intros Hr H. destruct r as [message| | | |name text| |id];
    [discriminate|..]; cbn [handle].
  - unfold post_scorecard. now rewrite H.
  - unfold post_analyze. now rewrite H.
  - reflexivity.
  - unfold post_knowledge_file.
    destruct (negb (truthy name) || negb (truthy text)); [exact H|].
    destruct (call_trim "filename" name) as [name'|m]; [|exact H].
    destruct (call_trim "content" text) as [text'|m]; [|exact H].
    now destruct (insert_file w name' text' (db st)) as [[i|m] d].
  - unfold get_knowledge_files.
    now destruct (select_listing w (db st)) as [[files|m] d].
  - unfold delete_knowledge_file.
    now destruct (delete_file w id (db st)) as [[u|m] d].
Qed.

Lemma serve_keeps_empty (JSON_parse : Parser)
    (requests : list (World * Request)) :
  forallb (fun wr => negb (is_chat (snd wr))) requests = true ->
  forall st, conversationHistory st = [] ->
             conversationHistory (serve JSON_parse st requests) = [].
Proof.
  induction requests as [|[w r] requests IH]; intros Hall st H; [exact H|].
  cbn [forallb snd] in Hall. apply andb_true_iff in Hall as [Hr Hall].
  apply negb_true_iff in Hr.
  apply (IH Hall). now apply handle_keeps_empty.
Qed.

End AfterReset.

(** X1. With the requests served one after the other, each answered
    before the next arrives (so that no chat turn is waiting for the
    model when the reset is served): [POST /reset] answers 200, empties
    the conversation and leaves the cache and the store as they are,
    and until the next chat turn, that is after any requests to the
    other endpoints, the conversation is still empty and [POST
    /scorecard] and [POST /analyze] answer 400 and change nothing,
    whatever the model would have answered. *)
Theorem scoring_refused_after_reset :
  forall (JSON_parse : Parser) (st : State)
         (requests : list (World * Request)) (w : World),
    forallb (fun wr => negb (is_chat (snd wr))) requests = true ->
    let st0 := state (post_reset st) in
    let st' := serve JSON_parse st0 requests in
    response (post_reset st) = {| status := 200; body := SuccessBody |}
    /\ knowledgeCache st0 = knowledgeCache st
    /\ knowledgeCacheTime st0 = knowledgeCacheTime st
    /\ db st0 = db st
    /\ conversationHistory st' = []
    /\ post_scorecard w st'
       = respond st' 400 (ErrorBody (str "No conversation to score yet."))
    /\ post_analyze JSON_parse w st'
       = respond st' 400 (ErrorBody (str "No conversation to analyze.")).
Proof.
  intros JSON_parse st requests w Hall. cbv zeta.
  pose proof (serve_keeps_empty JSON_parse requests Hall
                (state (post_reset st)) eq_refl) as H.
  repeat split; try exact H.
  - unfold post_scorecard. now rewrite H.
  - unfold post_analyze. now rewrite H.
Qed.

Lemma scoring_refused_after_reset_witness :
  let requests :=
    [ (world_at 1000,
       KnowledgeAdd (Some (JStr (str "close.txt")))
                    (Some (JStr (str "Ask for the inspection."))));
      (world_at 2000, KnowledgeList);
      (world_at 3000, Scorecard) ] in
  let st0 := state (post_reset one_turn) in
  let st' := serve JSON_parse_ref st0 requests in
  response (post_reset one_turn) = {| status := 200; body := SuccessBody |}
  /\ knowledgeCache st0 = knowledgeCache one_turn
  /\ knowledgeCacheTime st0 = knowledgeCacheTime one_turn
  /\ db st0 = db one_turn
  /\ conversationHistory st' = []
  /\ post_scorecard (world_at 4000) st'
     = respond st' 400 (ErrorBody (str "No conversation to score yet."))
  /\ post_analyze JSON_parse_ref (world_at 4000) st'
     = respond st' 400 (ErrorBody (str "No conversation to analyze.")).
Proof.
  cbv zeta.
  apply (scoring_refused_after_reset JSON_parse_ref one_turn _ (world_at 4000)).
  reflexivity.
Defined.

Section Conversation.

(** Appending the rep's turn, or the rep's turn and the reply to it,
    keeps the pairing. *)
Lemma replies_follow_rep (h : list Message) (s : jsstr) :
  forall b, replies_follow b h = true ->
            replies_follow b (h ++ [rep_turn s]) = true.
Proof.
  induction h as [|m h IH]; intros b H; [reflexivity|].
  cbn [app replies_follow] in *.
  destruct (role m).
  - now apply IH.
  - apply andb_true_iff in H as [-> H]. now apply IH.
Qed.

Lemma replies_follow_reply (h : list Message) (s t : jsstr) :
  forall b, replies_follow b (h ++ [rep_turn s]) = true ->
            replies_follow b
              ((h ++ [rep_turn s]) ++ [{| role := assistant; content_of := t |}])
            = true.
Proof.
  induction h as [|m h IH]; intros b H; [reflexivity|].
  cbn [app replies_follow] in *.
  destruct (role m).
  - now apply IH.
  - apply andb_true_iff in H as [-> H]. now apply IH.
Qed.

(** The pairing, read at one turn of the homeowner. *)
Lemma replies_follow_at (pre : list Message) (m : Message)
    (post : list Message) :
  forall b, replies_follow b (pre ++ m :: post) = true ->
            role m = assistant ->
            match pre with
            | [] => b = true
            | _ :: _ => exists before s, pre = before ++ [rep_turn s]
            end.
Proof.
  induction pre as [|p pre IH]; intros b H Hm.
  - cbn [app replies_follow] in H. rewrite Hm in H.
    now apply andb_true_iff in H.
  - cbn [app replies_follow] in H.
    destruct p as [r c]. cbn [role] in H. destruct r.
    + specialize (IH true H Hm). destruct pre as [|p' pre].
      * now exists [], c.
      * destruct IH as (before & s & E).
        exists ({| role := user; content_of := c |} :: before), s.
        now rewrite E.
    + apply andb_true_iff in H as [_ H]. specialize (IH false H Hm).
      destruct pre as [|p' pre]; [discriminate|].
      destruct IH as (before & s & E).
      exists ({| role := assistant; content_of := c |} :: before), s.
      now rewrite E.
Qed.

(** What a chat request does to the conversation: nothing, the rep's
    turn, or the rep's turn and the reply. *)
Lemma post_chat_history (w : World) (st : State) (message : option json) :
  let h := conversationHistory st in
  let h' := conversationHistory (state (post_chat w st message)) in
  h' = h
  \/ exists s, message = Some (JStr s) /\
       (h' = h ++ [rep_turn s]
        \/ exists t, h' = (h ++ [rep_turn s])
                          ++ [{| role := assistant; content_of := t |}]).
Proof.
  cbv zeta. unfold post_chat, chat_accept.
  destruct (negb (truthy message)); [now left|].
  destruct message as [[| b | x | s | items | members]|]; try now left.
  destruct (is_empty (trim s)); [now left|].
  right. exists s. split; [reflexivity|].
  unfold chat_reply.
  pose proof (buildSystemPrompt_history w
                (with_history st (conversationHistory st ++ [rep_turn s]))) as E.
  destruct (buildSystemPrompt w _) as [[p|m] st'];
    cbn [snd with_history conversationHistory] in E.
  - destruct (messages_create w (Some p) (conversationHistory st')) as [t|m].
    + right. exists t. cbn [state respond with_history conversationHistory].
      now rewrite E.
    + now left.
  - now left.
Qed.

Lemma handle_replies_follow (JSON_parse : Parser) (w : World) (st : State)
    (r : Request) :
  replies_follow false (conversationHistory st) = true ->
  replies_follow false (conversationHistory (state (handle JSON_parse w st r)))
  = true.
Proof.
  intros H. destruct r as [message| | | |name text| |id]; cbn [handle].
  - destruct (post_chat_history w st message) as [-> | (s & _ & [-> | (t & ->)])].
    + exact H.
    + now apply replies_follow_rep.
    + now apply replies_follow_reply, replies_follow_rep.
  - unfold post_scorecard.
    destruct (Nat.eqb _ 0); [exact H|].
    now destruct (messages_create w None _).
  - unfold post_analyze.
    destruct (Nat.eqb _ 0); [exact H|].
    destruct (messages_create w None _) as [text|m]; [|exact H].
    now destruct (extractAnalysis JSON_parse text).
  - reflexivity.
  - unfold post_knowledge_file.
    destruct (negb (truthy name) || negb (truthy text)); [exact H|].
    destruct (call_trim "filename" name) as [name'|m]; [|exact H].
    destruct (call_trim "content" text) as [text'|m]; [|exact H].
    now destruct (insert_file w name' text' (db st)) as [[i|m] d].
  - unfold get_knowledge_files.
    now destruct (select_listing w (db st)) as [[files|m] d].
  - unfold delete_knowledge_file.
    now destruct (delete_file w id (db st)) as [[u|m] d].
Qed.

Lemma reachable_replies_follow (JSON_parse : Parser) (st : State) :
  reachable JSON_parse st ->
  replies_follow false (conversationHistory st) = true.
Proof.
  induction 1 as [d | st w r _ IH]; [reflexivity|].
  now apply handle_replies_follow.
Qed.

End Conversation.

(** X2. With the requests served one after the other, in every state
    the server can reach, the conversation never opens with a turn of
    the homeowner and never holds two of them in a row: whatever
    precedes a homeowner turn ends with a turn of the rep. *)
Theorem homeowner_turn_follows_rep :
  forall (JSON_parse : Parser) (st : State) (pre : list Message) (m : Message)
         (post : list Message),
    reachable JSON_parse st ->
    conversationHistory st = pre ++ m :: post ->
    role m = assistant ->
    exists before s, pre = before ++ [rep_turn s].
Proof.
  intros JSON_parse st pre m post Hst E Hm.
  pose proof (reachable_replies_follow JSON_parse st Hst) as H.
  rewrite E in H. pose proof (replies_follow_at pre m post false H Hm) as G.
  destruct pre as [|p pre]; [discriminate|exact G].
Qed.

Lemma homeowner_turn_follows_rep_witness :
  exists before s, [rep_turn (str "Hello")] = before ++ [rep_turn s].
Proof.
  apply (homeowner_turn_follows_rep JSON_parse_ref
           (state (handle JSON_parse_ref (world_at 0) (boot two_files)
                     (Chat (Some (JStr (str "Hello"))))))
           [rep_turn (str "Hello")]
           {| role := assistant; content_of := str "Not interested." |}
           []).
  - apply reachable_step, reachable_boot.
  - vm_compute. reflexivity.
  - reflexivity.
Defined.

(** X3. As long as the documents are changed through the endpoints of
    this server only and the requests are served one after the other,
    the cache is never stale: in every state the server can reach, a
    read of the knowledge base that succeeds returns the documents the
    table holds at that moment, oldest first, whether it is served from
    the cache or from the store. *)
Theorem knowledge_base_never_stale :
  forall (JSON_parse : Parser) (st : State) (w : World) (c : Rows),
    reachable JSON_parse st ->
    fst (getKnowledgeBase w st) = Normal c ->
    rows c
    = map prompt_row (order_by uploaded_asc (knowledge_files (db st))).
Proof.
  intros JSON_parse st w c Hst Hc.
  pose proof (reachable_cache_current JSON_parse st Hst) as H.
  destruct (getKnowledgeBase_current w st H) as (_ & _ & _ & G).
  exact (G c Hc).
Qed.

Lemma knowledge_base_never_stale_witness :
  let st :=
    state (handle JSON_parse_ref (world_at 1000)
             (state (handle JSON_parse_ref (world_at 0) (boot two_files)
                       (Chat (Some (JStr (str "Hello"))))))
             (KnowledgeAdd (Some (JStr (str "close.txt")))
                           (Some (JStr (str "Ask for the inspection."))))) in
  let c :=
    {| ref := 1;
       rows := [ {| filename := str "script.txt";
                    content := str "Introduce yourself and the company first." |};
                 {| filename := str "pricing.txt";
                    content := str "Never quote a price at the door." |};
                 {| filename := str "close.txt";
                    content := str "Ask for the inspection." |} ] |} in
  rows c = map prompt_row (order_by uploaded_asc (knowledge_files (db st))).
Proof.
  cbv zeta.
  apply (knowledge_base_never_stale JSON_parse_ref _ (world_at 2000)).
  - apply reachable_step, reachable_step, reachable_boot.
  - vm_compute. reflexivity.
Defined.

(** X4. A chat turn that goes through, in a state the server can reach
    by serving requests one after the other:
    when the store answers and the model, given the system prompt built
    from the documents now stored and the conversation ending with the
    new message, replies with [t], the handler answers 200 with [t],
    logs nothing, and the conversation grows by exactly two turns, the
    rep's message as sent and then the reply. The documents are not
    changed. *)
Theorem chat_turn_succeeds :
  forall (JSON_parse : Parser) (w : World) (st : State) (s t : jsstr),
    reachable JSON_parse st ->
    trim s <> [] ->
    store_error w = None ->
    messages_create w
      (Some (systemPrompt_of BASE_SYSTEM_PROMPT
               (map prompt_row
                  (order_by uploaded_asc (knowledge_files (db st))))))
      (conversationHistory st ++ [rep_turn s])
    = Normal t ->
    let o := post_chat w st (Some (JStr s)) in
    response o = {| status := 200; body := ChatBody t |}
    /\ console_error o = []
    /\ conversationHistory (state o)
       = conversationHistory st
         ++ [rep_turn s; {| role := assistant; content_of := t |}]
    /\ knowledge_files (db (state o)) = knowledge_files (db st).
Proof.
  intros JSON_parse w st s t Hst Hs Hok Hreply. cbv zeta.
  pose proof (reachable_cache_current JSON_parse st Hst) as Hcur.
  unfold post_chat. rewrite (chat_accept_text st s Hs). unfold chat_reply.
  set (st1 := with_history st (conversationHistory st ++ [rep_turn s])).
  assert (cache_current st1) as H1 by exact Hcur.
  destruct (buildSystemPrompt_current w st1 H1) as (_ & G2 & _ & G4).
  pose proof (buildSystemPrompt_history w st1) as G5.
  assert (exists p st', buildSystemPrompt w st1 = (Normal p, st')) as (p & st' & E).
  { unfold buildSystemPrompt, getKnowledgeBase, select_for_prompt.
    rewrite Hok.
    destruct (knowledgeCache st1) as [c|];
      [destruct (Date_now w - knowledgeCacheTime st1 <? 60000)%Z|];
      eauto. }
  rewrite E in G2, G4, G5 |- *. cbn [fst snd] in G2, G4, G5.
  rewrite (G4 p eq_refl). rewrite G5.
  change (documents st1)
    with (map prompt_row (order_by uploaded_asc (knowledge_files (db st)))).
  change (conversationHistory st1)
    with (conversationHistory st ++ [rep_turn s]).
  rewrite Hreply.
  cbn [response console_error state respond with_history conversationHistory db].
  repeat split.
  - now rewrite <- app_assoc.
  - exact G2.
Qed.

Lemma chat_turn_succeeds_witness :
  let o := post_chat (world_at 0) (boot two_files) (Some (JStr (str "Hello"))) in
  response o = {| status := 200; body := ChatBody (str "Not interested.") |}
  /\ console_error o = []
  /\ conversationHistory (state o)
     = conversationHistory (boot two_files)
       ++ [rep_turn (str "Hello");
           {| role := assistant; content_of := str "Not interested." |}]
  /\ knowledge_files (db (state o)) = knowledge_files (db (boot two_files)).
Proof.
  apply (chat_turn_succeeds JSON_parse_ref (world_at 0) (boot two_files)
           (str "Hello") (str "Not interested.")).
  - apply reachable_boot.
  - vm_compute. discriminate.
  - reflexivity.
  - reflexivity.
Defined.

(** X5. [POST /chat] answers 400 exactly when [message] is missing or
    falsy ([null], [false], [0], the empty string) or is a string that
    is empty after trimming; it then changes nothing. A [message] that
    is truthy and no string (a number, [true], an array, an object) is
    answered 500, again with nothing changed and the model not called. *)
Theorem chat_refused_iff :
  forall (w : World) (st : State) (message : option json),
    (status (response (post_chat w st message)) = 400%Z
     <-> truthy message = false
         \/ exists s, message = Some (JStr s) /\ trim s = [])
    /\ (status (response (post_chat w st message)) = 400%Z ->
        post_chat w st message
        = respond st 400 (ErrorBody (str "Message is required.")))
    /\ (truthy message = true ->
        (forall s, message <> Some (JStr s)) ->
        post_chat w st message
        = caught st (str "Chat error:") (str "message.trim is not a function")).
Proof.
  intros w st message.
  assert (forall st1, status (response (chat_reply w st1)) <> 400%Z) as Hreply.
  { intros st1. unfold chat_reply.
    destruct (buildSystemPrompt w st1) as [[p|m] st'];
      [destruct (messages_create w (Some p) (conversationHistory st'))|];
      discriminate. }
  unfold post_chat, chat_accept.
  destruct (truthy message) eqn:Ht; cbn [negb].
  2: { split; [|split]; [split|..]; try reflexivity; try discriminate.
       intros _. now left. }
  destruct message as [[| b | x | s | items | members]|]; try discriminate;
    try (split; [|split]; [split|..];
         [ discriminate
         | intros [H | (s0 & H & _)]; discriminate
         | discriminate
         | reflexivity ]).
  destruct (is_empty (trim s)) eqn:Hs.
  - split; [|split]; [split|..]; try reflexivity.
    + intros _. right. exists s. split; [reflexivity|].
      now destruct (trim s).
    + intros _ H. now elim (H s).
  - split; [|split]; [split|..].
    + intros H. now elim (Hreply _ H).
    + intros [H | (s0 & [= <-] & H)]; [discriminate|].
      now rewrite H in Hs.
    + intros H. now elim (Hreply _ H).
    + intros _ H. now elim (H s).
Qed.

(** X6. Each handler keeps to its own part of the state: the chat turn
    and the reset leave the stored documents and their id counter as
    they are, scoring and analysis change nothing at all, and the three
    knowledge-file endpoints leave the conversation as it is. *)
Theorem handlers_keep_to_their_state :
  forall (JSON_parse : Parser) (w : World) (st : State) (r : Request),
    let st' := state (handle JSON_parse w st r) in
    match r with
    | Chat _ | Reset =>
        knowledge_files (db st') = knowledge_files (db st)
        /\ knowledge_files_id_seq (db st') = knowledge_files_id_seq (db st)
    | Scorecard | Analyze => st' = st
    | KnowledgeAdd _ _ | KnowledgeList | KnowledgeDelete _ =>
        conversationHistory st' = conversationHistory st
    end.
Proof.
  intros JSON_parse w st r. cbv zeta.
  destruct r as [message| | | |name text| |id]; cbn [handle].
  - unfold post_chat, chat_accept.
    destruct (negb (truthy message)); [now split|].
    destruct message as [[| b | x | s | items | members]|]; try now split.
    destruct (is_empty (trim s)); [now split|].
    unfold chat_reply.
    set (st1 := with_history st (conversationHistory st ++ [rep_turn s])).
    assert (knowledge_files (db (snd (buildSystemPrompt w st1)))
            = knowledge_files (db st)
            /\ knowledge_files_id_seq (db (snd (buildSystemPrompt w st1)))
               = knowledge_files_id_seq (db st)) as G.
    { unfold buildSystemPrompt, getKnowledgeBase, select_for_prompt.
      destruct (knowledgeCache st1) as [c|];
        [destruct (Date_now w - knowledgeCacheTime st1 <? 60000)%Z|];
        destruct (store_error w); now split. }
    destruct (buildSystemPrompt w st1) as [[p|m] st']; cbn [snd] in G;
      [destruct (messages_create w (Some p) (conversationHistory st'))|];
      exact G.
  - unfold post_scorecard.
    destruct (Nat.eqb _ 0); [reflexivity|].
    now destruct (messages_create w None _).
  - unfold post_analyze.
    destruct (Nat.eqb _ 0); [reflexivity|].
    destruct (messages_create w None _) as [text|m]; [|reflexivity].
    now destruct (extractAnalysis JSON_parse text).
  - now split.
  - unfold post_knowledge_file.
    destruct (negb (truthy name) || negb (truthy text)); [reflexivity|].
    destruct (call_trim "filename" name) as [name'|m]; [|reflexivity].
    destruct (call_trim "content" text) as [text'|m]; [|reflexivity].
    now destruct (insert_file w name' text' (db st)) as [[i|m] d].
  - unfold get_knowledge_files.
    now destruct (select_listing w (db st)) as [[files|m] d].
  - unfold delete_knowledge_file.
    now destruct (delete_file w id (db st)) as [[u|m] d].
Qed.

(** X24. Nothing but a reset removes a turn: every other request leaves
    the conversation as it was or appends to it, a chat turn at most the
    rep's message and the reply to it, and the scoring, analysis and
    knowledge-file requests nothing. *)
Theorem conversation_only_grows :
  forall (JSON_parse : Parser) (w : World) (st : State) (r : Request),
    let h := conversationHistory st in
    let h' := conversationHistory (state (handle JSON_parse w st r)) in
    match r with
    | Reset => h' = []
    | Chat message =>
        h' = h
        \/ exists s, message = Some (JStr s) /\
             (h' = h ++ [rep_turn s]
              \/ exists t,
                   h' = h ++ [rep_turn s;
                              {| role := assistant; content_of := t |}])
    | Scorecard | Analyze | KnowledgeAdd _ _ | KnowledgeList
    | KnowledgeDelete _ => h' = h
    end.
Proof.
  intros JSON_parse w st r. cbv zeta.
  destruct r as [message| | | |name text| |id]; cbn [handle].
  - destruct (post_chat_history w st message)
      as [E | (s & Hs & [E | (t & E)])].
    + now left.
    + right. exists s. split; [exact Hs|]. now left.
    + right. exists s. split; [exact Hs|]. right. exists t.
      now rewrite E, <- app_assoc.
  - unfold post_scorecard.
    destruct (Nat.eqb _ 0); [reflexivity|].
    now destruct (messages_create w None _).
  - unfold post_analyze.
    destruct (Nat.eqb _ 0); [reflexivity|].
    destruct (messages_create w None _) as [text|m]; [|reflexivity].
    now destruct (extractAnalysis JSON_parse text).
  - reflexivity.
  - unfold post_knowledge_file.
    destruct (negb (truthy name) || negb (truthy text)); [reflexivity|].
    destruct (call_trim "filename" name) as [name'|m]; [|reflexivity].
    destruct (call_trim "content" text) as [text'|m]; [|reflexivity].
    now destruct (insert_file w name' text' (db st)) as [[i|m] d].
  - unfold get_knowledge_files.
    now destruct (select_listing w (db st)) as [[files|m] d].
  - unfold delete_knowledge_file.
    now destruct (delete_file w id (db st)) as [[u|m] d].
Qed.

(** X7. A chat turn while the store is down. When the cache holds no
    snapshot, or one that is 60 s old or older, the handler answers 500
    with the store's message without calling the model, and the rep's
    turn it had appended stays in the conversation. When the cache holds
    a younger snapshot the outage goes unnoticed: the handler does what
    it does with the store up. *)
Theorem chat_during_store_outage :
  forall (w : World) (st : State) (s m : jsstr),
    trim s <> [] ->
    store_error w = Some m ->
    (knowledgeCache st = None
     \/ (60000 <= Date_now w - knowledgeCacheTime st)%Z ->
     post_chat w st (Some (JStr s))
     = caught (with_history st (conversationHistory st ++ [rep_turn s]))
         (str "Chat error:") m)
    /\ (forall c : Rows,
          knowledgeCache st = Some c ->
          (Date_now w - knowledgeCacheTime st < 60000)%Z ->
          post_chat w st (Some (JStr s))
          = post_chat {| Date_now := Date_now w; NOW := NOW w;
                         store_error := None;
                         messages_create := messages_create w |}
              st (Some (JStr s))).
Proof.
  intros w st s m Hs Hdown. split.
  - intros Hmiss. unfold post_chat. rewrite (chat_accept_text st s Hs).
    unfold chat_reply, buildSystemPrompt.
    now rewrite (cache_miss_store_down w
                   (with_history st (conversationHistory st ++ [rep_turn s]))
                   Hmiss m Hdown).
  - intros c Hc Hage. unfold post_chat. rewrite (chat_accept_text st s Hs).
    unfold chat_reply, buildSystemPrompt.
    set (st1 := with_history st (conversationHistory st ++ [rep_turn s])).
    rewrite (cache_hit w st1 c Hc Hage).
    now rewrite (cache_hit {| Date_now := Date_now w; NOW := NOW w;
                              store_error := None;
                              messages_create := messages_create w |}
                   st1 c Hc Hage).
Qed.

Lemma chat_during_store_outage_witness :
  let w := {| Date_now := 0; NOW := 0;
              store_error := Some (str "connection refused");
              messages_create := fun _ _ => Normal (str "Not interested.") |} in
  (knowledgeCache one_turn = None
   \/ (60000 <= Date_now w - knowledgeCacheTime one_turn)%Z ->
   post_chat w one_turn (Some (JStr (str "Hello")))
   = caught (with_history one_turn
               (conversationHistory one_turn ++ [rep_turn (str "Hello")]))
       (str "Chat error:") (str "connection refused"))
  /\ (forall c : Rows,
        knowledgeCache one_turn = Some c ->
        (Date_now w - knowledgeCacheTime one_turn < 60000)%Z ->
        post_chat w one_turn (Some (JStr (str "Hello")))
        = post_chat {| Date_now := Date_now w; NOW := NOW w;
                       store_error := None;
                       messages_create := messages_create w |}
            one_turn (Some (JStr (str "Hello")))).
Proof.
  cbv zeta.
  apply (chat_during_store_outage _ one_turn (str "Hello")
           (str "connection refused")).
  - vm_compute. discriminate.
  - reflexivity.
Defined.

(* ================================================================== *)
(** * Further properties: the knowledge-file endpoints *)
(* ================================================================== *)

Section KnowledgeFiles.




Lemma filter_all {A} (P : A -> bool) (l : list A) :
  (forall x, In x l -> P x = true) -> filter P l = l.
Proof.
  induction l as [|x l IH]; intros H; [reflexivity|].
  cbn [filter]. rewrite (H x) by now left.
  f_equal. apply IH. intros y Hy. apply H. now right.
Qed.

Lemma with_db_same (st : State) : with_db st (db st) = st.
Proof. now destruct st. Qed.

End KnowledgeFiles.

Section StoredText.

(** Text in which every surrogate stands in a pair reaches the store as
    it is. *)
Lemma utf8_text_well_formed :
  forall (n : nat) (s : jsstr),
    length s <= n -> well_formed s = true -> utf8_text s = s.
Proof.
  induction n as [|n IH]; intros s Hlen H.
  - destruct s; [reflexivity | cbn [length] in Hlen; lia].
  - destruct s as [|h [|l r]]; [reflexivity | |].
    + cbn [well_formed utf8_text] in *.
      apply negb_true_iff in H. now rewrite H.
    + cbn [length] in Hlen.
      change (utf8_text (h :: l :: r))
        with (if is_pair h l then h :: l :: utf8_text r
              else (if is_surrogate h then 65533%N else h)
                   :: utf8_text (l :: r)).
      change (well_formed (h :: l :: r))
        with (if is_pair h l then well_formed r
              else negb (is_surrogate h) && well_formed (l :: r)) in H.
      destruct (is_pair h l).
      * rewrite (IH r) by (lia || exact H). reflexivity.
      * apply andb_true_iff in H as [Hh H]. apply negb_true_iff in Hh.
        rewrite Hh, (IH (l :: r)) by (cbn [length]; lia || exact H).
        reflexivity.
Qed.

End StoredText.

(** X8. A document that was stored is listed: after [POST
    /knowledge-file] with two non-empty strings whose trimmed values hold
    no U+0000, [GET /knowledge-files] lists one document more than
    before, among them the new one under the id the add returned, with
    the trimmed name and the first 120 characters of the trimmed content
    as the store holds them, and the store's time of the insert; the
    documents stored before are all still listed. The store holds the
    text as it was sent when every surrogate in it stands in a pair, and
    with U+FFFD in place of a surrogate that does not. A name or a
    content with U+0000 in it is answered 500 and nothing is stored. *)
Theorem added_file_is_listed :
  forall (w w' : World) (st : State) (name text : jsstr),
    name <> [] -> text <> [] ->
    store_error w = None -> store_error w' = None ->
    let o := post_knowledge_file w st (Some (JStr name)) (Some (JStr text)) in
    (has_nul (trim name) = false -> has_nul (trim text) = false ->
     exists (id : Z) (files : list FileListing),
       response o = {| status := 200; body := CreatedBody id |}
       /\ body (response (get_knowledge_files w' (state o))) = FilesBody files
       /\ In {| file_id := id;
                file_filename := utf8_text (trim name);
                preview := LEFT (utf8_text (trim text)) 120;
                file_uploaded_at := NOW w |} files
       /\ length files = S (length (knowledge_files (db st)))
       /\ forall f, In f (knowledge_files (db st)) -> In (listing_row f) files)
    /\ (well_formed (trim name) = true -> utf8_text (trim name) = trim name)
    /\ (well_formed (trim text) = true -> utf8_text (trim text) = trim text)
    /\ (has_nul (trim name) || has_nul (trim text) = true ->
        o = caught st (str "Knowledge file error:") invalid_byte_sequence).
Proof.
  intros w w' st name text Hn Ht Hok Hok'. cbv zeta.
  split; [|split; [|split]].
  2, 3: now apply (utf8_text_well_formed _ _ (Nat.le_refl _)).
  2: now apply add_refuses_nul.
  intros Hname Htext.
  rewrite (add_stores w st name text Hn Ht Hok Hname Htext).
  unfold get_knowledge_files, select_listing. rewrite Hok'.
  cbn [state respond response body stored db knowledge_files].
  set (new := {| kf_id := knowledge_files_id_seq (db st);
                 kf_filename := utf8_text (trim name);
                 kf_content := utf8_text (trim text);
                 kf_uploaded_at := NOW w |}).
  exists (knowledge_files_id_seq (db st)).
  exists (map listing_row
            (order_by uploaded_desc (knowledge_files (db st) ++ [new]))).
  pose proof (order_by_perm uploaded_desc (knowledge_files (db st) ++ [new]))
    as Hperm.
  split; [reflexivity|]. split; [reflexivity|]. split; [|split].
  - change (In (listing_row new)
              (map listing_row
                 (order_by uploaded_desc (knowledge_files (db st) ++ [new])))).
    apply in_map. apply (Permutation_in _ (Permutation_sym Hperm)).
    apply in_or_app. right. now left.
  - rewrite length_map, (Permutation_length Hperm), length_app.
    cbn [length]. lia.
  - intros f Hf. apply in_map.
    apply (Permutation_in _ (Permutation_sym Hperm)).
    apply in_or_app. now left.
Qed.

(** A content that opens with a surrogate without partner, and a name
    with U+0000 in it. *)
Lemma added_file_is_listed_witness :
  (let o := post_knowledge_file (world_at 5000) (boot two_files)
              (Some (JStr (str " close.txt ")))
              (Some (JStr (55296%N :: str "abc"))) in
   exists (id : Z) (files : list FileListing),
     response o = {| status := 200; body := CreatedBody id |}
     /\ body (response (get_knowledge_files (world_at 6000) (state o)))
        = FilesBody files
     /\ In {| file_id := id;
              file_filename := str "close.txt";
              preview := 65533%N :: str "abc";
              file_uploaded_at := 5000 |} files
     /\ length files = 3
     /\ forall f, In f (knowledge_files (db (boot two_files))) ->
                  In (listing_row f) files)
  /\ post_knowledge_file (world_at 5000) (boot two_files)
       (Some (JStr (str "a" ++ [0%N] ++ str ".txt")))
       (Some (JStr (str "Ask for the inspection.")))
     = caught (boot two_files) (str "Knowledge file error:")
         invalid_byte_sequence.
Proof.
  split.
  - apply (proj1 (added_file_is_listed (world_at 5000) (world_at 6000)
                    (boot two_files) (str " close.txt ") (55296%N :: str "abc")
                    ltac:(discriminate) ltac:(discriminate) eq_refl eq_refl));
      reflexivity.
  - apply (proj2 (proj2 (proj2
             (added_file_is_listed (world_at 5000) (world_at 6000)
                (boot two_files) (str "a" ++ [0%N] ++ str ".txt")
                (str "Ask for the inspection.")
                ltac:(discriminate) ltac:(discriminate) eq_refl eq_refl)))).
    reflexivity.
Defined.



(** X10. [DELETE /knowledge-file/:id] with the store up. For a path
    segment that the store reads as the integer [z] the handler answers
    200, drops the cache and removes the documents of id [z] and no
    other; when no document has that id it still answers 200 and the
    documents stay as they are. For a segment that the store does not
    read as an integer of the column the handler answers 500 with the
    store's message and changes nothing, the cache included. *)
Theorem delete_removes_exactly :
  forall (w : World) (st : State) (id : jsstr),
    store_error w = None ->
    let o := delete_knowledge_file w st id in
    (forall z : Z,
        int4in (db st) id = Normal z ->
        response o = {| status := 200; body := SuccessBody |}
        /\ console_error o = []
        /\ knowledgeCache (state o) = None
        /\ (forall f, In f (knowledge_files (db (state o)))
                      <-> In f (knowledge_files (db st)) /\ kf_id f <> z)
        /\ ((forall f, In f (knowledge_files (db st)) -> kf_id f <> z) ->
            knowledge_files (db (state o)) = knowledge_files (db st)))
    /\ (forall m : jsstr,
          int4in (db st) id = Throw m ->
          o = caught st (str "Knowledge delete error:") m).
Proof.
  intros w st id Hok. cbv zeta.
  unfold delete_knowledge_file, delete_file. rewrite Hok. split.
  - intros z ->.
    cbn [response console_error state respond invalidate with_db
         knowledgeCache db knowledge_files].
    split; [reflexivity|]. split; [reflexivity|]. split; [reflexivity|].
    split.
    + intros f. split.
      * intros Hf. apply filter_In in Hf as [Hf Hid]. split; [exact Hf|].
        now apply negb_true_iff, Z.eqb_neq in Hid.
      * intros [Hf Hid]. apply filter_In. split; [exact Hf|].
        now apply negb_true_iff, Z.eqb_neq.
    + intros H. apply filter_all. intros f Hf.
      apply negb_true_iff, Z.eqb_neq. now apply H.
  - intros m ->. now rewrite with_db_same.
Qed.

(** The segments [2], [abc] and [2147483648] at a store that reads
    decimal text. *)
Lemma delete_removes_exactly_witness :
  (let o := delete_knowledge_file (world_at 0) (boot two_files) (str "2") in
   response o = {| status := 200; body := SuccessBody |}
   /\ console_error o = []
   /\ knowledgeCache (state o) = None
   /\ (forall f, In f (knowledge_files (db (state o)))
                 <-> In f (knowledge_files (db (boot two_files)))
                     /\ kf_id f <> 2%Z)
   /\ ((forall f, In f (knowledge_files (db (boot two_files))) ->
                  kf_id f <> 2%Z) ->
       knowledge_files (db (state o))
       = knowledge_files (db (boot two_files))))
  /\ delete_knowledge_file (world_at 0) (boot two_files) (str "abc")
     = caught (boot two_files) (str "Knowledge delete error:")
         (str "invalid input syntax for type integer: " ++ q "abc")
  /\ delete_knowledge_file (world_at 0) (boot two_files) (str "2147483648")
     = caught (boot two_files) (str "Knowledge delete error:")
         (str "value " ++ q "2147483648" ++
          str " is out of range for type integer").
Proof.
  split; [|split].
  - apply (proj1 (delete_removes_exactly (world_at 0) (boot two_files)
                    (str "2") eq_refl) 2%Z).
    reflexivity.
  - apply (proj2 (delete_removes_exactly (world_at 0) (boot two_files)
                    (str "abc") eq_refl)).
    reflexivity.
  - apply (proj2 (delete_removes_exactly (world_at 0) (boot two_files)
                    (str "2147483648") eq_refl)).
    reflexivity.
Defined.

(** X11. Deleting the document just added restores the documents: when
    no stored document carries the id the store hands out next, [POST
    /knowledge-file] with two non-empty strings that hold no U+0000,
    followed by [DELETE /knowledge-file/:id] with a segment the store
    reads as the id the add returned, leaves the table with the
    documents it had. *)
Theorem add_then_delete_restores :
  forall (w w' : World) (st : State) (name text : jsstr),
    name <> [] -> text <> [] ->
    has_nul (trim name) = false -> has_nul (trim text) = false ->
    store_error w = None -> store_error w' = None ->
    (forall f, In f (knowledge_files (db st)) ->
               kf_id f <> knowledge_files_id_seq (db st)) ->
    let o := post_knowledge_file w st (Some (JStr name)) (Some (JStr text)) in
    exists id : Z,
      body (response o) = CreatedBody id
      /\ forall segment : jsstr,
           int4in (db st) segment = Normal id ->
           knowledge_files
             (db (state (delete_knowledge_file w' (state o) segment)))
           = knowledge_files (db st).
Proof.
  intros w w' st name text Hn Ht Hname Htext Hok Hok' Hids. cbv zeta.
  rewrite (add_stores w st name text Hn Ht Hok Hname Htext).
  exists (knowledge_files_id_seq (db st)). split; [reflexivity|].
  intros segment Hread.
  unfold delete_knowledge_file, delete_file. rewrite Hok'.
  cbn [state respond stored db int4in]. rewrite Hread.
  cbn [state respond invalidate with_db db knowledge_files].
  rewrite filter_app. cbn [filter kf_id]. rewrite Z.eqb_refl. cbn [negb].
  rewrite List.app_nil_r. apply filter_all. intros f Hf.
  apply negb_true_iff, Z.eqb_neq. now apply Hids.
Qed.

Lemma add_then_delete_restores_witness :
  let o := post_knowledge_file (world_at 5000) (boot two_files)
             (Some (JStr (str "close.txt")))
             (Some (JStr (str "Ask for the inspection."))) in
  body (response o) = CreatedBody 3
  /\ knowledge_files
       (db (state (delete_knowledge_file (world_at 6000) (state o) (str "3"))))
     = knowledge_files (db (boot two_files)).
Proof.
  cbv zeta.
  destruct (add_then_delete_restores (world_at 5000) (world_at 6000)
              (boot two_files) (str "close.txt")
              (str "Ask for the inspection.")
              ltac:(discriminate) ltac:(discriminate) eq_refl eq_refl
              eq_refl eq_refl
              ltac:(intros f [<- | [<- | []]]; discriminate))
    as (id & Hid & Hrestore).
  split; [reflexivity|].
  apply Hrestore. injection Hid as <-. reflexivity.
Defined.

(** X12. When the store rejects the statement, each knowledge-file
    endpoint answers 500 with the store's message, logs it under its own
    label and changes nothing: no document, and not the cache, which a
    failed add or delete leaves in place. *)
Theorem knowledge_store_failure :
  forall (w : World) (st : State) (m : jsstr),
    store_error w = Some m ->
    (forall name text : jsstr,
        name <> [] -> text <> [] ->
        post_knowledge_file w st (Some (JStr name)) (Some (JStr text))
        = caught st (str "Knowledge file error:") m)
    /\ get_knowledge_files w st = caught st (str "Knowledge list error:") m
    /\ (forall id : jsstr,
          delete_knowledge_file w st id
          = caught st (str "Knowledge delete error:") m).
Proof.
  intros w st m Hdown. repeat split.
  - intros name text Hn Ht. unfold post_knowledge_file, insert_file.
    destruct name as [|a name]; [contradiction|].
    destruct text as [|b text]; [contradiction|].
    cbn [truthy negb orb call_trim]. now rewrite Hdown, with_db_same.
  - unfold get_knowledge_files, select_listing.
    now rewrite Hdown, with_db_same.
  - intros id. unfold delete_knowledge_file, delete_file.
    now rewrite Hdown, with_db_same.
Qed.

Lemma knowledge_store_failure_witness :
  let w := {| Date_now := 0; NOW := 0;
              store_error := Some (str "connection refused");
              messages_create := fun _ _ => Normal (str "Not interested.") |} in
  let st := boot two_files in
  (forall name text : jsstr,
      name <> [] -> text <> [] ->
      post_knowledge_file w st (Some (JStr name)) (Some (JStr text))
      = caught st (str "Knowledge file error:") (str "connection refused"))
  /\ get_knowledge_files w st
     = caught st (str "Knowledge list error:") (str "connection refused")
  /\ (forall id : jsstr,
        delete_knowledge_file w st id
        = caught st (str "Knowledge delete error:") (str "connection refused")).
Proof.
  cbv zeta.
  apply (knowledge_store_failure _ (boot two_files) (str "connection refused")).
  reflexivity.
Defined.

(* ================================================================== *)
(** * Further properties: the extraction of the analysis *)
(* ================================================================== *)

Section BraceStage.

Import RegExp.

(** A text without [c], or its first [c], or its last [c]. *)
Lemma split_first (c : N) (s : jsstr) :
  without c s = true
  \/ exists pre r, s = pre ++ c :: r /\ without c pre = true.
Proof.
  induction s as [|d s IH]; [now left|].
  destruct (N.eqb_spec d c) as [-> | Hd].
  - right. now exists [], s.
  - destruct IH as [H | (pre & r & -> & H)].
    + left. cbn [without forallb]. fold (without c s). rewrite H.
      apply N.eqb_neq in Hd. now rewrite Hd.
    + right. exists (d :: pre), r. split; [reflexivity|].
      cbn [without forallb]. fold (without c pre). rewrite H.
      apply N.eqb_neq in Hd. now rewrite Hd.
Qed.

Lemma split_last (c : N) (s : jsstr) :
  without c s = true
  \/ exists x post, s = x ++ c :: post /\ without c post = true.
Proof.
  induction s as [|d s IH]; [now left|].
  destruct IH as [H | (x & post & -> & H)].
  - destruct (N.eqb_spec d c) as [-> | Hd].
    + right. now exists [], s.
    + left. cbn [without forallb]. fold (without c s). rewrite H.
      apply N.eqb_neq in Hd. now rewrite Hd.
  - right. now exists (d :: x), post.
Qed.

Lemma without_app (c : N) (a b : jsstr) :
  without c (a ++ b) = without c a && without c b.
Proof. apply forallb_app. Qed.

Lemma without_In (c : N) (s : jsstr) : In c s -> without c s = false.
Proof.
  induction s as [|d s IH]; [contradiction|].
  intros [-> | H]; cbn [without forallb].
  - now rewrite N.eqb_refl.
  - fold (without c s). rewrite (IH H). apply andb_false_r.
Qed.

(** Behind the first [{] of a text lies the [}] of every pair. *)
Lemma pair_after_first (pre r p m q : jsstr) :
  without LBRACE pre = true ->
  pre ++ LBRACE :: r = p ++ LBRACE :: m ++ RBRACE :: q ->
  In RBRACE r.
Proof.
  revert p. induction pre as [|c pre IH]; intros p Hpre E.
  - destruct p as [|c p]; cbn [app] in E; injection E as E; subst r.
    + apply in_or_app. right. now left.
    + apply in_or_app. right. right. apply in_or_app. right. now left.
  - cbn [without forallb] in Hpre. apply andb_true_iff in Hpre as [Hc Hpre].
    destruct p as [|c' p]; cbn [app] in E.
    + injection E as -> _. now rewrite N.eqb_refl in Hc.
    + injection E as _ E. exact (IH p Hpre E).
Qed.

(** Either the text has a [{] with a [}] after it, and then it splits at
    its first [{] and its last [}], or it has no such pair. *)
Lemma brace_cases (s : jsstr) :
  no_brace_pair s
  \/ exists pre mid post,
       s = pre ++ (LBRACE :: mid ++ [RBRACE]) ++ post
       /\ without LBRACE pre = true /\ without RBRACE post = true.
Proof.
  destruct (split_first LBRACE s) as [H | (pre & r & -> & Hpre)].
  - left. intros p m q ->.
    rewrite without_In in H; [discriminate|].
    apply in_or_app. right. now left.
  - destruct (split_last RBRACE r) as [H | (mid & post & -> & Hpost)].
    + left. intros p m q E.
      rewrite (without_In RBRACE r) in H; [discriminate|].
      exact (pair_after_first pre r p m q Hpre E).
    + right. exists pre, mid, post. repeat split; try assumption.
      cbn [app]. now rewrite <- app_assoc.
Qed.

Lemma no_brace_pair_exec (s : jsstr) :
  no_brace_pair s -> exec braces_re s = None.
Proof.
  intros H. apply exec_none. intros p q ->.
  unfold braces_re, seq. cbn [lit]. unfold seq, char.
  destruct q as [|c q]; [reflexivity|].
  destruct (N.eqb_spec LBRACE c) as [<- | _]; [|reflexivity].
  apply star_any_lit_fails.
  destruct (split_last RBRACE q) as [Hq | (x & post & -> & _)]; [exact Hq|].
  now elim (H p x post).
Qed.

End BraceStage.

(** X13. The brace stage, on every text: when the text has a [{] with a
    [}] somewhere after it, what is parsed runs from the first [{] of
    the text to its last [}]; otherwise the text is parsed as it is. *)
Theorem brace_stage_cases :
  forall s : jsstr,
    (no_brace_pair s /\ candidate_of s = s)
    \/ exists pre mid post,
         s = pre ++ (LBRACE :: mid ++ [RBRACE]) ++ post
         /\ without LBRACE pre = true
         /\ without RBRACE post = true
         /\ candidate_of s = LBRACE :: mid ++ [RBRACE].
Proof.
  intros s. destruct (brace_cases s) as [H | (pre & mid & post & -> & H1 & H2)].
  - left. split; [exact H|].
    unfold candidate_of. now rewrite no_brace_pair_exec.
  - right. exists pre, mid, post. repeat split; try assumption.
    unfold candidate_of. now rewrite braces_match.
Qed.

Section Provenance.

Import RegExp.

Lemma occurs_refl (s : jsstr) : occurs s s.
Proof. exists [], []. now rewrite List.app_nil_r. Qed.

Lemma occurs_trans (a b c : jsstr) : occurs a b -> occurs b c -> occurs a c.
Proof.
  intros (p & q & ->) (p' & q' & ->).
  exists (p' ++ p), (q ++ q'). now rewrite <- !app_assoc.
Qed.

Lemma firstn_occurs (n : nat) (a b : jsstr) : occurs (firstn n b) (a ++ b).
Proof.
  exists a, (skipn n b). now rewrite firstn_skipn.
Qed.

Lemma trim_occurs (s : jsstr) : occurs (trim s) s.
Proof.
  unfold trim, trimStart.
  destruct (drop_while_suffix is_space s) as (dropped & E).
  destruct (trimEnd_prefix (drop_while is_space s)) as (e & E').
  exists dropped, e. rewrite <- E'. exact E.
Qed.

(** Where a match is found, the pattern matched a suffix of the text. *)
Lemma exec_inside (m : Matcher) (s x : jsstr) (cap : option jsstr) :
  exec m s = Some (x, cap) ->
  exists p q e, s = p ++ q /\ m q None accept = Some (e, cap)
                /\ x = firstn (length q - length e) q.
Proof.
  induction s as [|c s IH]; cbn [exec].
  - destruct (m [] None accept) as [[e cap']|] eqn:E; [|discriminate].
    intros [= <- <-]. now exists [], [], e.
  - destruct (m (c :: s) None accept) as [[e cap']|] eqn:E.
    + intros [= <- <-]. now exists [], (c :: s), e.
    + intros H. destruct (IH H) as (p & q & e & -> & Hq & Hx).
      now exists (c :: p), q, e.
Qed.

(** The continuation of a star or of a lazy plus is entered on a suffix
    of the input. *)
Lemma star_result (P : N -> bool) (s : jsstr) (cap : option jsstr)
    (k : Continuation) (r : MatchResult) :
  star P s cap k = Some r ->
  exists p s', s = p ++ s' /\ k s' cap = Some r.
Proof.
  induction s as [|c s IH]; cbn [star]; intros H.
  - now exists [], [].
  - destruct (P c).
    + destruct (star P s cap k) as [r'|] eqn:E.
      * destruct (IH H) as (p & s' & -> & Hk). now exists (c :: p), s'.
      * now exists [], (c :: s).
    + now exists [], (c :: s).
Qed.

Lemma plus_lazy_result (P : N -> bool) (s : jsstr) (cap : option jsstr)
    (k : Continuation) (r : MatchResult) :
  plus_lazy P s cap k = Some r ->
  exists p s', s = p ++ s' /\ k s' cap = Some r.
Proof.
  induction s as [|c s IH]; cbn [plus_lazy]; intros H; [discriminate|].
  destruct (P c); [|discriminate].
  destruct (k s cap) as [r'|] eqn:E.
  - injection H as <-. now exists [c], s.
  - destruct (IH H) as (p & s' & -> & Hk). now exists (c :: p), s'.
Qed.

Lemma lit_result (l s : jsstr) (cap : option jsstr) (k : Continuation)
    (r : MatchResult) :
  lit l s cap k = Some r -> exists s', s = l ++ s' /\ k s' cap = Some r.
Proof.
  rewrite lit_spec. destruct (starts_with l s) eqn:E; [|discriminate].
  intros H. exists (skipn (length l) s). split; [|exact H].
  now apply starts_with_split.
Qed.

(** Capture 1 of the fence pattern is cut from the text matched. *)
Lemma fence_capture (s e : jsstr) (cap : option jsstr) :
  fence_re s None accept = Some (e, cap) ->
  exists a b n, s = a ++ b /\ cap = Some (firstn n b).
Proof.
  unfold fence_re, seq, group, opt. intros H.
  apply lit_result in H as (s1 & -> & H).
  assert (exists p s2,
             s1 = p ++ s2
             /\ star space s2 None
                  (fun s' cap' =>
                     plus_lazy any s' cap'
                       (fun s'0 _ =>
                          star space s'0
                            (Some (firstn (length s' - length s'0) s'))
                            (fun s'1 cap'1 => lit FENCE s'1 cap'1 accept)))
                = Some (e, cap)) as (p & s2 & -> & H2).
  { destruct (lit (str "json") s1 None _) as [r|] eqn:E.
    - injection H as ->. apply lit_result in E as (s2 & -> & E).
      now exists (str "json"), s2.
    - now exists [], s1. }
  clear H. apply star_result in H2 as (p3 & s3 & -> & H3).
  apply plus_lazy_result in H3 as (p4 & s4 & E4 & H4).
  apply star_result in H4 as (p5 & s5 & _ & H5).
  apply lit_result in H5 as (s6 & _ & H6).
  injection H6 as _ <-.
  exists (FENCE ++ p ++ p3), s3, (length s3 - length s4).
  split; [now rewrite <- !app_assoc | reflexivity].
Qed.

Lemma jsonStr_of_occurs (raw : jsstr) : occurs (jsonStr_of raw) raw.
Proof.
  unfold jsonStr_of.
  destruct (exec fence_re raw) as [[x [interior|]]|] eqn:E;
    try apply occurs_refl.
  apply exec_inside in E as (p & q & e & -> & Hq & _).
  apply fence_capture in Hq as (a & b & n & -> & [= ->]).
  rewrite app_assoc. apply firstn_occurs.
Qed.

Lemma candidate_of_occurs (s : jsstr) : occurs (candidate_of s) s.
Proof.
  unfold candidate_of.
  destruct (exec braces_re s) as [[obj cap]|] eqn:E; [|apply occurs_refl].
  apply exec_inside in E as (p & q & e & -> & _ & ->).
  apply firstn_occurs.
Qed.

End Provenance.

(** X14. The extraction never makes up text: whatever the model
    answered, what [POST /analyze] hands to [JSON.parse] is a contiguous
    part of that answer, in the latest revision of the handler and in
    the earlier one without the brace stage. *)
Theorem extraction_parses_part_of_reply :
  forall (JSON_parse : Parser) (text : jsstr),
    (exists part,
        extractAnalysis JSON_parse text = JSON_parse part
        /\ occurs part text)
    /\ (exists part,
          extractAnalysis_fence_only JSON_parse text = JSON_parse part
          /\ occurs part text).
Proof.
  intros JSON_parse text. split.
  - exists (candidate_of (jsonStr_of (trim text))). split; [reflexivity|].
    eapply occurs_trans; [apply candidate_of_occurs|].
    eapply occurs_trans; [apply jsonStr_of_occurs | apply trim_occurs].
  - exists (jsonStr_of (trim text)). split; [reflexivity|].
    eapply occurs_trans; [apply jsonStr_of_occurs | apply trim_occurs].
Qed.

(** X15. The brace stage changes nothing where there is nothing to
    strip: when the text left by the fence stage opens with [{] and
    closes with [}], or has no [{] with a [}] after it, the latest
    revision hands [JSON.parse] the same text as the revision without
    the brace stage, and answers the same. *)
Theorem brace_stage_conservative :
  forall (JSON_parse : Parser) (text : jsstr),
    braced (jsonStr_of (trim text)) = true
    \/ no_brace_pair (jsonStr_of (trim text)) ->
    extractAnalysis JSON_parse text
    = extractAnalysis_fence_only JSON_parse text.
Proof.
  intros JSON_parse text H.
  unfold extractAnalysis, extractAnalysis_fence_only. f_equal.
  destruct H as [H | H].
  - now apply candidate_of_braced_self.
  - unfold candidate_of. now rewrite (no_brace_pair_exec _ H).
Qed.

Lemma brace_stage_conservative_witness :
  extractAnalysis JSON_parse_ref fenced_reply
  = extractAnalysis_fence_only JSON_parse_ref fenced_reply.
Proof.
  apply (brace_stage_conservative JSON_parse_ref fenced_reply).
  left. vm_compute. reflexivity.
Defined.

Section AnyTag.

Import RegExp.

(** The run of the class a text opens with, and what follows it. *)
Lemma drop_while_run (P : N -> bool) (s : jsstr) :
  exists run, s = run ++ drop_while P s /\ forallb P run = true.
Proof.
  induction s as [|c s IH]; [now exists []|].
  cbn [drop_while]. destruct (P c) eqn:Hc.
  - destruct IH as (run & E & Hrun). exists (c :: run). split.
    + cbn [app]. now rewrite <- E.
    + cbn [forallb]. now rewrite Hc.
  - now exists [].
Qed.

Lemma drop_while_head (P : N -> bool) (s : jsstr) (c : N) (r : jsstr) :
  drop_while P s = c :: r -> P c = false.
Proof.
  induction s as [|d s IH]; cbn [drop_while]; [discriminate|].
  destruct (P d) eqn:Hd; [exact IH|]. now intros [= <- _].
Qed.

(** No closing fence is found before the end of the object, whatever
    backtick-free text leads up to it. *)
Lemma fence_not_before (lead mid p q rest : jsstr) :
  without BACKTICK lead = true ->
  includes FENCE (LBRACE :: mid ++ [RBRACE]) = false ->
  lead ++ LBRACE :: mid ++ [RBRACE] = p ++ q -> q <> [] ->
  starts_with FENCE (drop_while space (q ++ rest)) = false.
Proof.
  intros Hlead Hno E Hq.
  apply app_eq_app in E as (l & [[-> ->] | [-> E]]).
  - rewrite without_app in Hlead. apply andb_true_iff in Hlead as [_ Hl].
    clear Hq. induction l as [|c l IH].
    + now apply (fence_not_inside mid [] _ rest).
    + cbn [without forallb] in Hl. apply andb_true_iff in Hl as [Hc Hl].
      cbn [app drop_while]. destruct (space c); [now apply IH|].
      unfold FENCE. cbn [starts_with].
      rewrite N.eqb_sym. now destruct (N.eqb c BACKTICK).
  - now apply (fence_not_inside mid l q rest).
Qed.

(** The capture group and the closing fence, with a lead before the
    object. *)
Lemma fence_body_lead (lead mid ws2 post : jsstr) (cap : option jsstr) :
  without BACKTICK lead = true ->
  includes FENCE (LBRACE :: mid ++ [RBRACE]) = false ->
  all_space ws2 = true ->
  group (plus_lazy any)
    ((lead ++ LBRACE :: mid ++ [RBRACE]) ++ ws2 ++ FENCE ++ post) cap
    (fun s' cap' => star space s' cap'
       (fun s'' cap'' => lit FENCE s'' cap'' accept))
  = Some (post, Some (lead ++ LBRACE :: mid ++ [RBRACE])).
Proof.
  intros Hlead Hno Hws. unfold group.
  apply plus_lazy_first.
  - now destruct lead.
  - intros p q E _ Hq.
    apply star_lit_fails; [reflexivity|].
    now apply fence_not_before with (lead := lead) (mid := mid) (p := p).
  - rewrite firstn_minus. unfold FENCE at 1. cbn [app].
    apply star_run; [exact Hws | reflexivity |].
    now rewrite (lit_app FENCE post).
Qed.

(** The rest of the fence pattern, behind the optional tag. *)
Lemma fence_rest_lead (lead mid ws2 post : jsstr) (cap : option jsstr) :
  without BACKTICK lead = true ->
  includes FENCE (LBRACE :: mid ++ [RBRACE]) = false ->
  all_space ws2 = true ->
  star space (lead ++ (LBRACE :: mid ++ [RBRACE]) ++ ws2 ++ FENCE ++ post) cap
    (fun s' cap' =>
       group (plus_lazy any) s' cap'
         (fun s'' cap'' => star space s'' cap''
            (fun s3 cap3 => lit FENCE s3 cap3 accept)))
  = Some (post, Some (trimStart lead ++ LBRACE :: mid ++ [RBRACE])).
Proof.
  intros Hlead Hno Hws. unfold trimStart.
  destruct (drop_while_run is_space lead) as (run & E & Hrun).
  assert (without BACKTICK (drop_while is_space lead) = true) as Hrest
    by now apply forallb_drop_while.
  rewrite E at 1. rewrite <- app_assoc.
  destruct (drop_while is_space lead) as [|c r] eqn:Ed.
  - cbn [app]. apply star_run; [exact Hrun | reflexivity |].
    exact (fence_body_lead [] mid ws2 post cap eq_refl Hno Hws).
  - cbn [app]. apply star_run; [exact Hrun | |].
    + exact (drop_while_head is_space lead c r Ed).
    + pose proof (fence_body_lead (c :: r) mid ws2 post cap Hrest Hno Hws) as G.
      rewrite <- app_assoc in G. exact G.
Qed.

(** A tag that opens with [json], when an object follows it. *)
Lemma tag_json (tag more : jsstr) :
  starts_with (str "json") (tag ++ LBRACE :: more) = true ->
  tag = str "json" ++ skipn 4 tag /\ starts_with (str "json") tag = true.
Proof.
  change (str "json") with [106; 115; 111; 110]%N.
  destruct tag as [|a [|b [|c [|d t]]]]; cbn [app starts_with skipn];
    change (N.eqb 106 LBRACE) with false;
    change (N.eqb 115 LBRACE) with false;
    change (N.eqb 111 LBRACE) with false;
    change (N.eqb 110 LBRACE) with false;
    rewrite ?andb_false_r; try discriminate.
  intros H. split; [|exact H].
  apply andb_true_iff in H as [Ha H]. apply andb_true_iff in H as [Hb H].
  apply andb_true_iff in H as [Hc H]. apply andb_true_iff in H as [Hd _].
  apply N.eqb_eq in Ha, Hb, Hc, Hd. now subst.
Qed.

Lemma tag_not_json (tag more : jsstr) :
  starts_with (str "json") (tag ++ LBRACE :: more) = false ->
  starts_with (str "json") tag = false.
Proof.
  change (str "json") with [106; 115; 111; 110]%N.
  destruct tag as [|a [|b [|c [|d t]]]]; cbn [app starts_with];
    rewrite ?andb_false_r; try reflexivity.
  now intros ->.
Qed.

(** What the fence stage leaves of a tag: the tag without a leading
    [json] and without the white space that follows. *)
Lemma without_skipn (c : N) (n : nat) (s : jsstr) :
  without c s = true -> without c (skipn n s) = true.
Proof.
  intros H. rewrite <- (firstn_skipn n s), without_app in H.
  now apply andb_true_iff in H.
Qed.

Lemma fence_match_lead (tag mid ws2 post : jsstr) :
  without BACKTICK tag = true ->
  includes FENCE (LBRACE :: mid ++ [RBRACE]) = false ->
  all_space ws2 = true ->
  fence_re
    (FENCE ++ tag ++ (LBRACE :: mid ++ [RBRACE]) ++ ws2 ++ FENCE ++ post)
    None accept
  = Some (post, Some (lead_of tag ++ LBRACE :: mid ++ [RBRACE])).
Proof.
  intros Htag Hno Hws.
  unfold fence_re, seq. rewrite lit_app. unfold opt, lead_of.
  rewrite lit_spec.
  destruct (starts_with (str "json")
              (tag ++ (LBRACE :: mid ++ [RBRACE]) ++ ws2 ++ FENCE ++ post))
    eqn:Ej.
  - apply tag_json in Ej as [Et ->].
    assert (without BACKTICK (skipn 4 tag) = true) as Ht
      by now apply without_skipn.
    set (t := skipn 4 tag) in *. rewrite Et at 1.
    rewrite <- app_assoc, skipn_app, skipn_all, Nat.sub_diag.
    cbn [skipn]. rewrite app_nil_l.
    now rewrite (fence_rest_lead t mid ws2 post None Ht Hno Hws).
  - apply tag_not_json in Ej as ->.
    now apply fence_rest_lead.
Qed.

Lemma jsonStr_of_fenced_lead (pre tag J ws2 post : jsstr) :
  braced J = true ->
  includes FENCE J = false ->
  without BACKTICK pre = true ->
  without BACKTICK tag = true ->
  all_space ws2 = true ->
  jsonStr_of (pre ++ FENCE ++ tag ++ J ++ ws2 ++ FENCE ++ post)
  = lead_of tag ++ J.
Proof.
  intros HJ Hno Hpre Htag Hws. apply braced_inv in HJ as [mid ->].
  unfold jsonStr_of. rewrite exec_skip.
  - now rewrite (exec_here fence_re _ post
                   (Some (lead_of tag ++ LBRACE :: mid ++ [RBRACE])))
      by now apply fence_match_lead.
  - intros p c q E. unfold fence_re, seq, FENCE. cbn [lit]. unfold seq, char.
    rewrite E, without_app in Hpre.
    apply andb_true_iff in Hpre as [_ Hc]. cbn [without forallb] in Hc.
    apply andb_true_iff in Hc as [Hc _].
    rewrite N.eqb_sym. now destruct (N.eqb c BACKTICK).
Qed.

End AnyTag.

(** X16. A fenced block is recovered whatever tag it carries: for a
    reply that holds, in its first fenced block, any text without
    backticks and without [{] (a language tag such as [javascript],
    white space, a line of prose) and then the JSON text [J] of an
    object, the latest revision hands [J] to [JSON.parse]. The revision
    without the brace stage hands it [J] with that text in front, less a
    leading [json] and the white space after it, so it recovers [J] only
    when nothing else is left of the tag. *)
Theorem fenced_block_with_any_tag :
  forall (JSON_parse : Parser) (pre tag J ws2 post : jsstr),
    braced J = true ->
    includes FENCE J = false ->
    without BACKTICK pre = true ->
    without BACKTICK tag = true ->
    without LBRACE tag = true ->
    all_space ws2 = true ->
    let text := pre ++ FENCE ++ tag ++ J ++ ws2 ++ FENCE ++ post in
    extractAnalysis JSON_parse text = JSON_parse J
    /\ extractAnalysis_fence_only JSON_parse text
       = JSON_parse (lead_of tag ++ J).
Proof.
  intros JSON_parse pre tag J ws2 post HJ Hno Hpre Htag Hbr Hws. cbv zeta.
  assert (jsonStr_of (trim (pre ++ FENCE ++ tag ++ J ++ ws2 ++ FENCE ++ post))
          = lead_of tag ++ J) as E.
  { assert (trim (pre ++ FENCE ++ tag ++ J ++ ws2 ++ FENCE ++ post)
            = trimStart pre ++ FENCE ++ tag ++ J ++ ws2 ++ FENCE ++
              trimEnd post) as ->.
    { pose proof (trim_around pre BACKTICK
                    ([BACKTICK; BACKTICK] ++ tag ++ J ++ ws2 ++
                     [BACKTICK; BACKTICK]) BACKTICK post eq_refl eq_refl) as E.
      unfold FENCE. cbn [app] in E |- *.
      repeat (rewrite <- ?app_assoc in E; cbn [app] in E).
      exact E. }
    apply jsonStr_of_fenced_lead; try assumption.
    now apply forallb_drop_while. }
  unfold extractAnalysis, extractAnalysis_fence_only. rewrite E.
  split; [|reflexivity]. f_equal.
  pose proof (candidate_of_braced (lead_of tag) J [] HJ) as G.
  rewrite List.app_nil_r in G. apply G; [|reflexivity].
  unfold lead_of, trimStart. apply forallb_drop_while.
  destruct (starts_with (str "json") tag); [|exact Hbr].
  now apply without_skipn.
Qed.

Lemma fenced_block_with_any_tag_witness :
  let text := str "Sure:" ++ FENCE ++ (str "javascript" ++ [LF]) ++
              JSON_stringify analysis_sample ++ [LF] ++ FENCE ++ [] in
  extractAnalysis JSON_parse_ref text
  = JSON_parse_ref (JSON_stringify analysis_sample)
  /\ extractAnalysis_fence_only JSON_parse_ref text
     = JSON_parse_ref (lead_of (str "javascript" ++ [LF])
                       ++ JSON_stringify analysis_sample).
Proof.
  apply (fenced_block_with_any_tag JSON_parse_ref (str "Sure:")
           (str "javascript" ++ [LF]) (JSON_stringify analysis_sample)
           [LF] []);
    vm_compute; reflexivity.
Defined.

(** X17. [POST /analyze] on a reply it can read: when the conversation
    is not empty, the model's reply holds the JSON text [J] of an object
    in one of the tolerated shapes and [JSON.parse] reads [J] as [v],
    the handler answers 200 with [v], logs nothing and leaves the
    conversation and everything else as it was, so that the analysis
    can be asked for again. *)
Theorem analyze_answers_with_analysis :
  forall (JSON_parse : Parser) (w : World) (st : State) (J text : jsstr)
         (v : json),
    conversationHistory st <> [] ->
    messages_create w None (analyze_messages (conversationHistory st))
    = Normal text ->
    braced J = true ->
    includes FENCE J = false ->
    tolerated J text ->
    JSON_parse J = Normal v ->
    post_analyze JSON_parse w st
    = {| state := st;
         response := {| status := 200; body := AnalysisBody v |};
         console_error := [] |}.
Proof.
  intros JSON_parse w st J text v Hh Hreply HJ Hno Hshape Hv.
  unfold post_analyze.
  destruct (conversationHistory st) as [|m h] eqn:E; [contradiction|].
  cbn [length Nat.eqb]. rewrite Hreply.
  now rewrite (extract_tolerated JSON_parse J text HJ Hno Hshape), Hv.
Qed.

Lemma analyze_answers_with_analysis_witness :
  post_analyze JSON_parse_ref (world_replying fenced_reply) one_turn
  = {| state := one_turn;
       response := {| status := 200;
                      body := AnalysisBody (analysis_value analysis_sample) |};
       console_error := [] |}.
Proof.
  apply (analyze_answers_with_analysis JSON_parse_ref
           (world_replying fenced_reply) one_turn
           (JSON_stringify analysis_sample) fenced_reply
           (analysis_value analysis_sample)).
  - discriminate.
  - reflexivity.
  - vm_compute. reflexivity.
  - vm_compute. reflexivity.
  - apply (@shape_fenced (JSON_stringify analysis_sample)
             (str "Here you go:" ++ [LF]) (str "json") [LF] [LF]
             ([LF] ++ str "Thanks!"));
      [now right | reflexivity | reflexivity | vm_compute; reflexivity].
  - vm_compute. reflexivity.
Defined.

(* ================================================================== *)
(** * Further properties: the transcript sent for scoring *)
(* ================================================================== *)




(* ================================================================== *)
(** * Further properties: the per-rep aggregation *)
(* ================================================================== *)

Section Trend.

Import Manager.

Lemma non_null_In {A} (x : A) (l : list (option A)) :
  In x (non_null l) <-> In (Some x) l.
Proof.
  induction l as [|[y|] l IH]; cbn [non_null In]; [tauto| |].
  - rewrite IH. split; (intros [H | H]; [left; congruence | now right]).
  - rewrite IH. split; [now right | now intros [H | H]].
Qed.

Lemma firstn_In {A} (n : nat) (l : list A) (x : A) :
  In x (firstn n l) -> In x l.
Proof.
  intros H. rewrite <- (firstn_skipn n l). apply in_or_app. now left.
Qed.

End Trend.

(** X19. The trend compares the two outer halves of the sessions: for
    newest-first scores made of [k] newer ones, at most one in the
    middle and [k] older ones, with [k] at least 2, it is [Math.round]
    of the average of the newer ones minus the average of the older
    ones. With an odd number of sessions the one in the middle takes no
    part in it. *)
Theorem trend_skips_middle_session :
  forall (newer middle older : list float),
    length newer = length older ->
    2 <= length newer ->
    length middle <= 1 ->
    Manager.improvement_of (newer ++ middle ++ older)
    = Some (Math_round
              (PrimFloat.sub
                 (PrimFloat.div (Manager.sum newer)
                    (Manager.number_of (length newer)))
                 (PrimFloat.div (Manager.sum older)
                    (Manager.number_of (length newer))))).
Proof.
  intros newer middle older Hlen Hk Hmid.
  rewrite improvement_of_spec.
  assert (length (newer ++ middle ++ older)
          = 2 * length newer + length middle) as Hn
    by (rewrite !length_app; lia).
  assert (length (newer ++ middle ++ older) / 2 = length newer) as Hhalf
    by (symmetry; apply (Nat.div_unique _ 2 _ (length middle)); lia).
  assert (Nat.ltb (length (newer ++ middle ++ older)) 4 = false) as ->
    by (apply Nat.ltb_ge; lia).
  cbv zeta. rewrite Hhalf.
  rewrite firstn_app, Nat.sub_diag, firstn_all. cbn [firstn].
  rewrite List.app_nil_r.
  replace (length (newer ++ middle ++ older) - length newer)
    with (length (newer ++ middle) + 0) by (rewrite Hn, length_app; lia).
  rewrite app_assoc, skipn_app, skipn_all2 by lia.
  replace (length (newer ++ middle) + 0 - length (newer ++ middle)) with 0
    by lia.
  reflexivity.
Qed.

Lemma trend_skips_middle_session_witness :
  Manager.improvement_of ([90; 85] ++ [10] ++ [60; 55])%float
  = Some (Math_round
            (PrimFloat.sub
               (PrimFloat.div (Manager.sum [90; 85]%float)
                  (Manager.number_of (length [90; 85]%float)))
               (PrimFloat.div (Manager.sum [60; 55]%float)
                  (Manager.number_of (length [90; 85]%float))))).
Proof.
  apply (trend_skips_middle_session [90; 85]%float [10]%float [60; 55]%float);
    cbn [length]; lia.
Defined.

(** X20. The top issues of a rep are the first three non-empty
    [keyImprovement] texts of the sessions, newest first: with the
    sessions that carry such a text taken in their order, they are the
    first three of these texts, so three when there are three or more
    and all of them otherwise; none is empty and each is the text of one
    of the rep's sessions. *)
Theorem top_issues_shape :
  forall row : Manager.RepRow,
    let analyses :=
      match Manager.all_analyses row with Some l => l | None => [] end in
    let top := Manager.topIssues (Manager.rep_stats row) in
    let issues :=
      flat_map (fun a => match Manager.keyImprovement a with
                         | Some (c :: s) => [c :: s]
                         | Some [] | None => []
                         end) analyses in
    top = firstn 3 issues
    /\ length top = Nat.min 3 (length issues)
    /\ (3 <= length issues -> length top = 3)
    /\ (length issues <= 3 -> top = issues)
    /\ (forall s, In s top ->
          s <> []
          /\ exists a, In a analyses /\ Manager.keyImprovement a = Some s)
    /\ (exists rest, issues = top ++ rest).
Proof.
  intros row. cbv zeta. unfold Manager.rep_stats.
  cbn [Manager.topIssues].
  set (analyses := match Manager.all_analyses row with
                   | Some l => l
                   | None => []
                   end).
  change 3%Z with (Z.of_nat 3). rewrite slice_prefix.
  assert (Manager.issues_of analyses
          = flat_map (fun a => match Manager.keyImprovement a with
                               | Some (c :: s) => [c :: s]
                               | Some [] | None => []
                               end) analyses) as E.
  { unfold Manager.issues_of.
    induction analyses as [|a l IH]; [reflexivity|].
    cbn [map Manager.non_null flat_map].
    destruct (Manager.keyImprovement a) as [[|c t]|];
      cbn [Manager.non_null filter is_empty negb app]; now rewrite ?IH. }
  rewrite <- E.
  split; [reflexivity|]. split; [apply length_firstn|].
  split; [intros H; rewrite length_firstn; now apply Nat.min_l|].
  split; [intros H; now apply firstn_all2|]. split.
  - intros s Hs. apply firstn_In in Hs. unfold Manager.issues_of in Hs.
    apply filter_In in Hs as [Hs Hne]. split; [now destruct s|].
    apply non_null_In in Hs. apply in_map_iff in Hs as (a & Ea & Ha).
    now exists a.
  - exists (skipn 3 (Manager.issues_of analyses)).
    now rewrite firstn_skipn.
Qed.

(* ================================================================== *)
(** * Further properties: the session archive and the manager's gate *)
(* ================================================================== *)

Section SessionEndpoints.

Import Sessions.

Lemma strict_equal_spec (s t : jsstr) : strict_equal s t = true <-> s = t.
Proof.
  revert t. induction s as [|a s IH]; intros [|b t]; cbn [strict_equal];
    try easy.
  rewrite andb_true_iff, N.eqb_eq, IH.
  split; [now intros [-> ->] | now intros [= -> ->]].
Qed.

End SessionEndpoints.

(** X21. The manager's endpoints are closed by the PIN before anything
    else: the check passes exactly when the [pin] member of the query is
    a string equal to [MANAGER_PIN], or to [1234] when that variable is
    not set or empty; for any other [pin] (absent, an array, another
    string) both endpoints answer 401 with [Invalid PIN.], log nothing
    and send nothing to the store, also when [rep] is missing. *)
Theorem manager_pin_gate :
  forall (a : Sessions.Archive) (pin rep days : Sessions.QueryValue),
    (Sessions.checkPin a pin = true
     <-> pin = Sessions.QString (Sessions.expected_pin a))
    /\ (Sessions.MANAGER_PIN a = None \/ Sessions.MANAGER_PIN a = Some [] ->
        Sessions.expected_pin a = str "1234")
    /\ (forall s, s <> [] -> Sessions.MANAGER_PIN a = Some s ->
                  Sessions.expected_pin a = s)
    /\ (pin <> Sessions.QString (Sessions.expected_pin a) ->
        Sessions.get_manager_reps a pin days
        = Sessions.respond 401 (Sessions.ErrorBody (str "Invalid PIN."))
        /\ Sessions.get_manager_sessions a pin rep days
           = Sessions.respond 401 (Sessions.ErrorBody (str "Invalid PIN."))).
Proof.
  intros a pin rep days.
  assert (Sessions.checkPin a pin = true
          <-> pin = Sessions.QString (Sessions.expected_pin a)) as Hpin.
  { destruct pin as [|s|]; cbn [Sessions.checkPin]; try easy.
    rewrite strict_equal_spec. split; [now intros -> | now intros [= ->]]. }
  split; [exact Hpin|]. split; [|split].
  - unfold Sessions.expected_pin. now intros [-> | ->].
  - intros s Hs E. unfold Sessions.expected_pin. rewrite E. now destruct s.
  - intros Hbad.
    assert (Sessions.checkPin a pin = false) as E.
    { destruct (Sessions.checkPin a pin); [|reflexivity].
      now elim Hbad; apply Hpin. }
    unfold Sessions.get_manager_reps, Sessions.get_manager_sessions.
    now rewrite E.
Qed.

(** X22. [POST /save-session] answers 400 exactly when [repName] or
    [analysis] is missing or falsy, and then sends nothing to the store.
    Otherwise, for a string [repName], one insert is sent with the
    trimmed name, with [0] in place of a missing or falsy [duration] or
    [repMessages], and with the analysis as it came; the answer is 200
    when the store accepts it and 500 with the store's message when it
    does not. Only emptiness before trimming is tested: a name of white
    space alone is sent as the empty name. *)
Theorem save_session_required_fields :
  forall (a : Sessions.Archive) (repName duration repMessages analysis : option json),
    let o := Sessions.post_save_session a repName duration repMessages analysis in
    (Sessions.status o = 400%Z
     <-> truthy repName = false \/ truthy analysis = false)
    /\ (Sessions.status o = 400%Z ->
        o = Sessions.respond 400
              (Sessions.ErrorBody (str "repName and analysis are required.")))
    /\ (forall (s : jsstr) (v : json),
          repName = Some (JStr s) -> s <> [] ->
          analysis = Some v -> truthy (Some v) = true ->
          o = match Sessions.insert_session a (trim s)
                      (Sessions.or_zero duration)
                      (Sessions.or_zero repMessages) v with
              | Normal _ => Sessions.respond 200 Sessions.SuccessBody
              | Throw m => Sessions.caught (str "Save session error:") m
              end).
Proof.
  intros a repName duration repMessages analysis. cbv zeta.
  unfold Sessions.post_save_session.
  destruct (truthy repName) eqn:Hr; cbn [negb orb].
  2: { repeat split; try reflexivity.
       - intros _. now left.
       - intros s v ->. now destruct s. }
  destruct (truthy analysis) eqn:Ha; cbn [negb].
  2: { repeat split; try reflexivity.
       - intros _. now right.
       - intros s v _ _ -> Hv. congruence. }
  assert (forall o, Sessions.status o = 400%Z -> Sessions.status o <> 400%Z ->
                    False) as Hno by (intros o H1 H2; exact (H2 H1)).
  destruct (call_trim "repName" repName) as [name|m] eqn:Hn.
  - destruct (Sessions.insert_session a name _ _ _) as [u|m] eqn:Hi;
      (split; [|split]; [split|..]; [discriminate | intros [H | H]; discriminate
                                    | discriminate | ]);
      intros s v -> Hs -> Hv; injection Hn as <-;
      cbn [Sessions.or_zero] in Hi |- *; now rewrite Hi.
  - split; [|split]; [split|..]; [discriminate | intros [H | H]; discriminate
                                  | discriminate | ].
    intros s v -> Hs -> Hv. discriminate.
Qed.

(** X23. The session listings look a rep up by the trimmed name: [GET
    /sessions] answers 400 exactly when [name] is absent or the empty
    string, and two names that are not empty and equal after trimming
    get the same answer, from [GET /sessions] and, whatever the PIN and
    the window, from [GET /manager/sessions]. *)
Theorem sessions_lookup_by_trimmed_name :
  forall (a : Sessions.Archive) (name : Sessions.QueryValue),
    (Sessions.status (Sessions.get_sessions a name) = 400%Z
     <-> name = Sessions.QAbsent \/ name = Sessions.QString [])
    /\ (forall s s' : jsstr,
          s <> [] -> s' <> [] -> trim s = trim s' ->
          Sessions.get_sessions a (Sessions.QString s)
          = Sessions.get_sessions a (Sessions.QString s')
          /\ forall pin days : Sessions.QueryValue,
               Sessions.get_manager_sessions a pin (Sessions.QString s) days
               = Sessions.get_manager_sessions a pin (Sessions.QString s') days).
Proof.
  intros a name. split.
  - unfold Sessions.get_sessions.
    destruct name as [|s|]; cbn [Sessions.present negb Sessions.query_trim].
    + split; [now left | reflexivity].
    + destruct s as [|c s]; cbn [is_empty negb].
      * split; [now right | reflexivity].
      * destruct (Sessions.select_sessions a _ _);
          (split; [discriminate | intros [H | H]; discriminate]).
    + split; [discriminate | intros [H | H]; discriminate].
  - intros s s' Hs Hs' E. split; [|intros pin days].
    + unfold Sessions.get_sessions.
      destruct s as [|c s]; [contradiction|].
      destruct s' as [|c' s']; [contradiction|].
      cbn [Sessions.present is_empty negb Sessions.query_trim]. now rewrite E.
    + unfold Sessions.get_manager_sessions.
      destruct s as [|c s]; [contradiction|].
      destruct s' as [|c' s']; [contradiction|].
      cbn [Sessions.present is_empty negb Sessions.query_trim]. now rewrite E.
Qed.
